(** * chat-pdf: the per-tenant ingestion and retrieval pipeline

    A shallow embedding of [backend/process_qa.py]: the [LRUCache] built on
    [collections.OrderedDict], the extraction fallback chain
    [_load_pdf_with_fallbacks], the index builder [_process_company_pdfs] and
    the answerer [answer_question], with the properties the specification
    states about them.

    The first half holds the definitions: the Python values, the cache, the
    libraries the program calls as an environment [Env], the methods of
    [PDFProcessor] as computations on the processor, the disk and the
    output, and next to them the words of the specification ([Recency],
    [Fallback], [Spec]).  The second half holds the proofs, module by
    module, and the runs of a small deployment.

    Next to these come the other methods of [PDFProcessor] and the
    functions of the module ([Methods]), the statements of
    [backend/scraper.py] that name a download ([Scraper]) and the accounts
    of [backend/auth.py] ([Auth]), each with its properties. *)

From Stdlib Require Import List ZArith NArith Lia Bool String Ascii.
From Stdlib Require Import DecimalString.
From Stdlib Require Import Sorted Permutation.
Import ListNotations.

Set Implicit Arguments.

(* ================================================================== *)
(** * Python values: strings, exceptions, outcomes *)
(* ================================================================== *)

Module Py.

(** A Python [str] is a sequence of Unicode code points. *)
Definition pystr := list N.

(** The code points of an ASCII literal. *)
Definition lit (s : string) : pystr :=
  map N_of_ascii (list_ascii_of_string s).

Definition pystr_eq_dec : forall a b : pystr, {a = b} + {a <> b} :=
  list_eq_dec N.eq_dec.

Definition pystr_eqb (a b : pystr) : bool :=
  if pystr_eq_dec a b then true else false.

(** Truth value of a [str]: the empty string is falsy. *)
Definition truthy (s : pystr) : bool :=
  match s with [] => false | _ :: _ => true end.

(** [str.isspace] on one code point: the white space table of CPython's
    [_PyUnicode_IsWhitespace], which [str.strip()] uses. *)
Definition isspace (c : N) : bool :=
  ((9 <=? c) && (c <=? 13) || (28 <=? c) && (c <=? 32)
   || (c =? 133) || (c =? 160) || (c =? 5760)
   || (8192 <=? c) && (c <=? 8202)
   || (c =? 8232) || (c =? 8233) || (c =? 8239) || (c =? 8287)
   || (c =? 12288))%N.

Fixpoint lstrip (s : pystr) : pystr :=
  match s with
  | [] => []
  | c :: r => if isspace c then lstrip r else s
  end.

Definition rstrip (s : pystr) : pystr := rev (lstrip (rev s)).

(** [s.strip()] with no argument. *)
Definition strip (s : pystr) : pystr := rstrip (lstrip s).

(** The test written [doc.page_content and doc.page_content.strip()] in the
    source, and [text.strip()] where the text is not tested first. *)
Definition has_text (s : pystr) : bool := truthy s && truthy (strip s).

(** Exceptions of class [Exception], the class every handler of the program
    names ([except Exception as e]).  [KeyboardInterrupt] and [SystemExit],
    which end the process and are not of this class, are left out. *)
Inductive exn : Type :=
  | KeyError
  | ValueError (msg : string)
  | LibraryError (msg : string).

(** What a call does: it returns a value or raises. *)
Inductive outcome (A : Type) : Type :=
  | Returns (a : A)
  | Raises (e : exn).

Arguments Returns {A} a.
Arguments Raises {A} e.

Definition obind {A B} (m : outcome A) (f : A -> outcome B) : outcome B :=
  match m with
  | Returns a => f a
  | Raises e => Raises e
  end.

Definition returned {A} (m : outcome A) : bool :=
  match m with Returns _ => true | Raises _ => false end.

End Py.

Import Py.

Declare Scope py_scope.
Delimit Scope py_scope with py.
Notation "x <- m ;; k" := (obind m (fun x => k))
  (at level 61, m at next level, right associativity) : py_scope.
Notation "' p <- m ;; k" := (obind m (fun x => match x with p => k end))
  (at level 61, p pattern, m at next level, right associativity) : py_scope.

(* ================================================================== *)
(** * [LRUCache(OrderedDict)] *)
(* ================================================================== *)

Module LRU.

Section Cache.

Variables K V : Type.
Variable K_eq_dec : forall a b : K, {a = b} + {a <> b}.

(** An [OrderedDict] is its items in iteration order: the first item is the
    one [popitem(last=False)] removes, the last the one [move_to_end] sets. *)
Definition OrderedDict := list (K * V).

Definition keys (d : OrderedDict) : list K := map fst d.

(** [key in d] *)
Fixpoint contains (k : K) (d : OrderedDict) : bool :=
  match d with
  | [] => false
  | (k', _) :: r => if K_eq_dec k k' then true else contains k r
  end.

(** [d[key]]: raises [KeyError] on a missing key. *)
Fixpoint getitem (k : K) (d : OrderedDict) : outcome V :=
  match d with
  | [] => Raises KeyError
  | (k', v) :: r => if K_eq_dec k k' then Returns v else getitem k r
  end.

(** [d.move_to_end(key)]: the item goes last; [KeyError] on a missing key. *)
Fixpoint move_to_end (k : K) (d : OrderedDict) : outcome OrderedDict :=
  match d with
  | [] => Raises KeyError
  | (k', v) :: r =>
      if K_eq_dec k k' then Returns (r ++ [(k', v)])
      else (r' <- move_to_end k r ;; Returns ((k', v) :: r'))%py
  end.

(** [d[key] = value]: a present key keeps its position and takes the new
    value, a new key goes last. *)
Fixpoint setitem (k : K) (v : V) (d : OrderedDict) : OrderedDict :=
  match d with
  | [] => [(k, v)]
  | (k', v') :: r =>
      if K_eq_dec k k' then (k', v) :: r else (k', v') :: setitem k v r
  end.

(** [d.popitem(last=False)]: removes and returns the first item; [KeyError]
    on an empty dictionary. *)
Definition popitem_first (d : OrderedDict) : outcome ((K * V) * OrderedDict) :=
  match d with
  | [] => Raises KeyError
  | kv :: r => Returns (kv, r)
  end.

(** [len(d)] *)
Definition len (d : OrderedDict) : Z := Z.of_nat (List.length d).

(** The cache object: the dictionary it is, and its [capacity] attribute. *)
Record LRUCache : Type := mkLRU { items : OrderedDict; capacity : Z }.

(** [LRUCache(capacity)] *)
Definition init (cap : Z) : LRUCache := mkLRU [] cap.

Definition with_items (c : LRUCache) (d : OrderedDict) : LRUCache :=
  mkLRU d (capacity c).

(** [LRUCache.get]: the value, or [None] for a missing key, and the cache
    after the call. *)
Definition get (k : K) (c : LRUCache) : outcome (option V * LRUCache) :=
  if negb (contains k (items c)) then Returns (None, c)
  else
    (d <- move_to_end k (items c) ;;
     v <- getitem k d ;;
     Returns (Some v, with_items c d))%py.

(** [LRUCache.put], statement by statement: the states the object goes
    through, one after each statement that changes it. *)
Definition put_steps (k : K) (v : V) (c : LRUCache) : outcome (list LRUCache) :=
  (d1 <- (if contains k (items c) then move_to_end k (items c)
          else Returns (items c)) ;;
   let d2 := setitem k v d1 in
   if (len d2 >? capacity c)%Z then
     ' (_, d3) <- popitem_first d2 ;;
     Returns [with_items c d1; with_items c d2; with_items c d3]
   else Returns [with_items c d1; with_items c d2])%py.

(** [LRUCache.put]: the cache after the call. *)
Definition put (k : K) (v : V) (c : LRUCache) : outcome LRUCache :=
  (d1 <- (if contains k (items c) then move_to_end k (items c)
          else Returns (items c)) ;;
   let d2 := setitem k v d1 in
   if (len d2 >? capacity c)%Z then
     ' (_, d3) <- popitem_first d2 ;; Returns (with_items c d3)
   else Returns (with_items c d2))%py.

(** A client's call on the cache. *)
Inductive op : Type :=
  | Get (k : K)
  | Put (k : K) (v : V).

(** One call: what it answers ([None] for [put], which returns nothing) and
    the cache after it. *)
Definition call (o : op) (c : LRUCache) : outcome (option V * LRUCache) :=
  match o with
  | Get k => get k c
  | Put k v => (c' <- put k v c ;; Returns (None, c'))%py
  end.

(** A sequence of calls: the answers in order and the final cache. *)
Fixpoint run (ops : list op) (c : LRUCache)
  : outcome (list (option V) * LRUCache) :=
  match ops with
  | [] => Returns ([], c)
  | o :: r =>
      (' (a, c1) <- call o c ;;
       ' (l, c2) <- run r c1 ;;
       Returns (a :: l, c2))%py
  end.

(** The states the object goes through during one call. *)
Definition call_steps (o : op) (c : LRUCache) : outcome (list LRUCache) :=
  match o with
  | Get k => (' (_, c') <- get k c ;; Returns [c'])%py
  | Put k v => put_steps k v c
  end.

(** Every state the object goes through during a sequence of calls, the
    states inside a [put] included, starting with the one it is in. *)
Fixpoint trace (ops : list op) (c : LRUCache) : outcome (list LRUCache) :=
  match ops with
  | [] => Returns [c]
  | o :: r =>
      (l1 <- call_steps o c ;;
       l2 <- trace r (last l1 c) ;;
       Returns (c :: removelast l1 ++ l2))%py
  end.

(** The states between calls only. *)
Fixpoint rest_points (ops : list op) (c : LRUCache) : outcome (list LRUCache) :=
  match ops with
  | [] => Returns [c]
  | o :: r =>
      (' (_, c1) <- call o c ;;
       l <- rest_points r c1 ;;
       Returns (c :: l))%py
  end.

(** [put] of each key of [ks] in order, with the value [val] gives it. *)
Definition puts (val : K -> V) (ks : list K) : list op :=
  map (fun k => Put k (val k)) ks.

(** The representation invariant of a dictionary: no key occurs twice. *)
Definition wf (d : OrderedDict) : Prop := NoDup (keys d).

(** The items of [d] without those of key [k]. *)
Definition without (k : K) (d : OrderedDict) : OrderedDict :=
  filter (fun kv => if K_eq_dec k (fst kv) then false else true) d.

(** What is left of [d] once the size test of [put] has run: all but the
    first item when the size exceeds the capacity. *)
Definition overflow (cap : Z) (d : OrderedDict) : OrderedDict :=
  if (len d >? cap)%Z then tl d else d.

(** The size of the cache is within its capacity. *)
Definition within_capacity (c : LRUCache) : Prop :=
  (len (items c) <= capacity c)%Z.

(** The invariant the calls keep: a well-formed dictionary within capacity. *)
Definition good (c : LRUCache) : Prop := wf (items c) /\ within_capacity c.

(** The claim that the capacity bounds the size at every point a sequence of
    calls goes through, the points inside a [put] included. *)
Definition bounded_at_every_point (cap : Z) (ops : list op) : Prop :=
  forall l, trace ops (init cap) = Returns l ->
            Forall (fun c => (len (items c) <= cap)%Z) l.

End Cache.

End LRU.

(** A small cache to run: natural numbers for tenants and for indexes. *)
Module LRUExample.

Definition K := nat.
Definition V := nat.
Definition put := LRU.put Nat.eq_dec (V := V).
Definition get := LRU.get Nat.eq_dec (V := V).
Definition Put (k : K) (v : V) : LRU.op K V := LRU.Put k v.
Definition Get (k : K) : LRU.op K V := LRU.Get V k.
Definition cache (cap : Z) (d : list (K * V)) : LRU.LRUCache K V :=
  LRU.mkLRU d cap.

End LRUExample.

(* ================================================================== *)
(** * The recency cache of the specification *)
(* ================================================================== *)

(** The Tenant Index Cache in the specification's words, to compare the
    [LRUCache] of the source with: every entry carries the time of its last
    use; a hit and a [put] set it to now; on overflow the entry used least
    recently leaves, the one inserted earliest among equals. *)
Module Recency.

Section Spec.

Variables K V : Type.
Variable K_eq_dec : forall a b : K, {a = b} + {a <> b}.

Record entry : Type := mkEntry { e_key : K; e_val : V; e_used : nat }.

(** Entries in insertion order, the clock, and the capacity. *)
Record cache : Type := mkCache { entries : list entry; clock : nat; bound : Z }.

Definition init (cap : Z) : cache := mkCache [] 0 cap.

Fixpoint find (k : K) (es : list entry) : option entry :=
  match es with
  | [] => None
  | e :: r => if K_eq_dec k (e_key e) then Some e else find k r
  end.

(** Mark the entry of [k] as used at time [now], with a new value if one is
    given. *)
Definition touch (k : K) (now : nat) (nv : option V) (es : list entry)
  : list entry :=
  map (fun e =>
         if K_eq_dec k (e_key e)
         then mkEntry (e_key e) (match nv with Some v => v | None => e_val e end) now
         else e) es.

(** The least recently used entry, the earliest inserted among equals. *)
Fixpoint lru (es : list entry) : option entry :=
  match es with
  | [] => None
  | e :: r =>
      match lru r with
      | None => Some e
      | Some m => if e_used e <=? e_used m then Some e else Some m
      end
  end.

Definition remove (k : K) (es : list entry) : list entry :=
  filter (fun e => if K_eq_dec k (e_key e) then false else true) es.

Definition evict (es : list entry) : list entry :=
  match lru es with
  | None => es
  | Some m => remove (e_key m) es
  end.

(** [get(tenant)]: a hit marks the tenant as most-recently-used. *)
Definition get (k : K) (s : cache) : option V * cache :=
  match find k (entries s) with
  | None => (None, s)
  | Some e =>
      (Some (e_val e),
       mkCache (touch k (clock s) None (entries s)) (S (clock s)) (bound s))
  end.

(** [put(tenant, index)]: inserts or replaces; marks most-recently-used; if
    the size exceeds the capacity after insertion, evicts. *)
Definition put (k : K) (v : V) (s : cache) : cache :=
  let es1 :=
    match find k (entries s) with
    | Some _ => touch k (clock s) (Some v) (entries s)
    | None => entries s ++ [mkEntry k v (clock s)]
    end in
  let es2 :=
    if (Z.of_nat (List.length es1) >? bound s)%Z then evict es1 else es1 in
  mkCache es2 (S (clock s)) (bound s).

Definition call (o : LRU.op K V) (s : cache) : option V * cache :=
  match o with
  | LRU.Get _ k => get k s
  | LRU.Put k v => (None, put k v s)
  end.

Fixpoint run (ops : list (LRU.op K V)) (s : cache) : list (option V) * cache :=
  match ops with
  | [] => ([], s)
  | o :: r =>
      let (a, s1) := call o s in
      let (l, s2) := run r s1 in
      (a :: l, s2)
  end.

(** The entry as the source stores it: key and value. *)
Definition item (e : entry) : K * V := (e_key e, e_val e).

(** The dictionary [d] of the source holds the entries [es], in the order of
    their last use, oldest first; all uses are before [now]. *)
Definition ordered_as (d : LRU.OrderedDict K V) (es : list entry) (now : nat)
  : Prop :=
  exists l : list entry,
    Permutation es l /\ map item l = d /\
    StronglySorted lt (map e_used l) /\
    Forall (fun e => e_used e < now) l /\
    LRU.wf d.

(** The cache of the source stands for the cache of the specification. *)
Definition refines (c : LRU.LRUCache K V) (s : cache) : Prop :=
  LRU.capacity c = bound s /\
  ordered_as (LRU.items c) (entries s) (clock s).

End Spec.

End Recency.

(* ================================================================== *)
(** * Statements with effects: state, output and exceptions *)
(* ================================================================== *)

Module Eff.

(** A computation on a state [S]: it returns or raises, and leaves a state.
    What was written to the state before an exception stays written. *)
Definition M (S A : Type) : Type := S -> outcome A * S.

Definition ret {S A} (a : A) : M S A := fun s => (Returns a, s).

Definition raise {S A} (e : exn) : M S A := fun s => (Raises e, s).

Definition bind {S A B} (m : M S A) (f : A -> M S B) : M S B :=
  fun s =>
    match m s with
    | (Returns a, s') => f a s'
    | (Raises e, s') => (Raises e, s')
    end.

(** [try: body / except Exception as e: handler] *)
Definition try_except {S A} (body : M S A) (handler : exn -> M S A) : M S A :=
  fun s =>
    match body s with
    | (Returns a, s') => (Returns a, s')
    | (Raises e, s') => handler e s'
    end.

(** The outcome of a call that does not touch the state. *)
Definition lift {S A} (o : outcome A) : M S A := fun s => (o, s).

Definition gets {S A} (f : S -> A) : M S A := fun s => (Returns (f s), s).

Definition modify {S} (f : S -> S) : M S unit := fun s => (Returns tt, f s).

End Eff.

Import Eff.

Declare Scope eff_scope.
Delimit Scope eff_scope with eff.
Notation "x <- m ;; k" := (bind m (fun x => k))
  (at level 61, m at next level, right associativity) : eff_scope.
Notation "m ;; k" := (bind m (fun _ => k))
  (at level 61, right associativity) : eff_scope.

(* ================================================================== *)
(** * Documents, paths and what the program prints *)
(* ================================================================== *)

Module Doc.

(** The values the program stores in a document's metadata. *)
Inductive pyval : Type :=
  | VStr (s : pystr)
  | VInt (n : Z).

(** [doc.metadata]: a dictionary from field names to values. *)
Definition metadata_t := list (string * pyval).

(** A langchain [Document]. *)
Record Document : Type := mkDoc { page_content : pystr; metadata : metadata_t }.

(** [md.get(key)] *)
Fixpoint meta_get (key : string) (md : metadata_t) : option pyval :=
  match md with
  | [] => None
  | (k, v) :: r => if String.eqb key k then Some v else meta_get key r
  end.

(** [md[key] = value] *)
Fixpoint meta_set (key : string) (v : pyval) (md : metadata_t) : metadata_t :=
  match md with
  | [] => [(key, v)]
  | (k, w) :: r =>
      if String.eqb key k then (k, v) :: r else (k, w) :: meta_set key v r
  end.

(** [doc.metadata["company_number"] = company_number] *)
Definition set_company (c : pystr) (d : Document) : Document :=
  mkDoc (page_content d) (meta_set "company_number" (VStr c) (metadata d)).

(** The tenant a document is tagged with. *)
Definition company_of (d : Document) : option pyval :=
  meta_get "company_number" (metadata d).

(** [os.path.join(a, b)] of [posixpath]: an absolute [b] replaces [a]. *)
Definition os_path_join (a b : pystr) : pystr :=
  match b with
  | 47%N :: _ => b
  | _ =>
      match a with
      | [] => b
      | _ :: _ => if (last a 0 =? 47)%N then a ++ b else a ++ 47%N :: b
      end
  end.

(** The four extraction methods of [_load_pdf_with_fallbacks], in the order
    of the source. *)
Inductive strategy : Type := PyPDF | Plumber | DirectPyPDF | OCR.

Definition strategies : list strategy := [PyPDF; Plumber; DirectPyPDF; OCR].

(** The lines the program prints: one constructor for each message, the
    values it shows as arguments. *)
Inductive log_msg : Type :=
  | AttemptingToLoad (pdf_file : pystr)
  | Trying (s : strategy)
  | SuccessfullyLoaded (s : strategy) (pages : nat)
  | NoTextContent (s : strategy)
  | ErrorWith (s : strategy) (e : exn)
  | ErrorOnPage (s : strategy) (i : nat) (e : exn)
  | ConvertingToImages
  | ConvertedToImages (pages : nat)
  | CouldNotExtract
  | CompanyNumberRequired
  | NoPDFsFound (company : pystr)
  | ErrorProcessing (pdf_file : pystr) (e : exn)
  | NoDocumentsLoaded (company : pystr)
  | SkippingEmpty (source : option pyval)
  | AllDocumentsEmpty (company : pystr)
  | NoChunksCreated (company : pystr)
  | CreatedChunks (n : nat)
  | CreatingVectorStore
  | SavedVectorStore (company : pystr)
  | ErrorCreatingVectorStore (e : exn)
  | ErrorLoadingVectorStore (company : pystr) (e : exn)
  | NoVectorStoreFound (company : pystr).

(** The strategies a log shows as tried, in order. *)
Fixpoint attempted (l : list log_msg) : list strategy :=
  match l with
  | [] => []
  | Trying s :: r => s :: attempted r
  | _ :: r => attempted r
  end.

(** A FAISS vector store: the chunks its index holds the vectors of, and
    the chunks in its document store.  The vectors are a function of the
    chunks' text and are left out. *)
Record FAISS : Type := mkStore {
  indexed : list Document;
  docstore : list Document
}.

(** [FAISS.from_documents(chunks, embeddings)]: index and document store
    are made of the same chunks. *)
Definition mkFAISS (chunks : list Document) : FAISS := mkStore chunks chunks.

(** ** The file system

    The directories of the file system and, in each, the two files of a
    saved vector store.  There are no symbolic links, and what is not a
    directory or one of the two files is left out. *)

(** A place: the names from the root down to it. *)
Definition place := list pystr.

Definition place_eq_dec : forall a b : place, {a = b} + {a <> b} :=
  list_eq_dec pystr_eq_dec.

(** What is at a place: nothing, or a directory with what its files
    [index.faiss] and [index.pkl] hold, [None] for a file that is missing
    or cannot be read. *)
Inductive dir_entry : Type :=
  | Absent
  | Dir (faiss pkl : option (list Document)).

(** A directory without the two files, and a directory with the two files
    of a vector store. *)
Definition NoIndex : dir_entry := Dir None None.

Definition Index (vs : FAISS) : dir_entry :=
  Dir (Some (indexed vs)) (Some (docstore vs)).

(** The working directory of the process and what is at each place. *)
Record Disk : Type := mkDisk {
  cwd : place;
  at_place : place -> dir_entry
}.

(** What is at a place; the root and the working directory are
    directories. *)
Definition look (d : Disk) (p : place) : dir_entry :=
  match at_place d p with
  | Absent =>
      if place_eq_dec p [] then NoIndex
      else if place_eq_dec p (cwd d) then NoIndex
      else Absent
  | e => e
  end.

Definition is_dir (d : Disk) (p : place) : bool :=
  match look d p with Absent => false | Dir _ _ => true end.

(** [path.split("/")] *)
Fixpoint names_of (path : pystr) : list pystr :=
  match path with
  | [] => [[]]
  | c :: r =>
      if (c =? 47)%N then [] :: names_of r
      else match names_of r with
           | w :: ws => (c :: w) :: ws
           | [] => [[c]]
           end
  end.

(** One name further from a place: the empty name and ["."] stay, [".."]
    goes up, any other name goes down. *)
Definition step (cur : place) (name : pystr) : place :=
  if pystr_eq_dec name [] then cur
  else if pystr_eq_dec name (lit ".") then cur
  else if pystr_eq_dec name (lit "..") then removelast cur
  else cur ++ [name].

(** Where the names lead from [cur]; every name is looked up in a
    directory, [None] when it is looked up in something else. *)
Fixpoint walk (d : Disk) (cur : place) (names : list pystr) : option place :=
  match names with
  | [] => Some cur
  | name :: rest =>
      if is_dir d cur then walk d (step cur name) rest else None
  end.

(** Where a path starts: at the root, or at the working directory. *)
Definition origin (d : Disk) (path : pystr) : place :=
  match path with
  | 47%N :: _ => []
  | _ => cwd d
  end.

(** The places a path passes, the last one being where it leads. *)
Fixpoint route (cur : place) (names : list pystr) : list place :=
  match names with
  | [] => []
  | name :: rest => step cur name :: route (step cur name) rest
  end.

Definition passes (d : Disk) (path : pystr) : list place :=
  route (origin d path) (names_of path).

(** Where a path leads when the directories on it are there. *)
Definition target (d : Disk) (path : pystr) : place :=
  fold_left step (names_of path) (origin d path).

(** The place a path names on a disk, if it names one. *)
Definition resolve (d : Disk) (path : pystr) : option place :=
  match path with
  | [] => None
  | _ :: _ => walk d (origin d path) (names_of path)
  end.

(** What a path finds.  A disk is read by path: [d path] is what the
    program finds at [path] on the disk [d]. *)
Definition read (d : Disk) (path : pystr) : dir_entry :=
  match resolve d path with
  | Some p => look d p
  | None => Absent
  end.

Coercion read : Disk >-> Funclass.

(** A write at a place. *)
Definition put_at (d : Disk) (p : place) (x : dir_entry) : Disk :=
  mkDisk (cwd d) (fun q => if place_eq_dec q p then x else at_place d q).

(** The disks [os.makedirs] goes through: one for each directory that is
    missing at the places the path passes, made in that order. *)
Fixpoint makedirs_steps (d : Disk) (places : list place) : list Disk :=
  match places with
  | [] => []
  | p :: rest =>
      match look d p with
      | Absent =>
          put_at d p NoIndex :: makedirs_steps (put_at d p NoIndex) rest
      | Dir _ _ => makedirs_steps d rest
      end
  end.

(** How far [save_local] got when it raised. *)
Inductive save_stage : Type :=
  | NothingWritten
  | WritingFaiss
  | FaissWritten
  | WritingPkl.

Definition written (s : save_stage) : nat :=
  match s with
  | NothingWritten => 0
  | WritingFaiss => 1
  | FaissWritten => 2
  | WritingPkl => 3
  end.

Definition pkl_of (e : dir_entry) : option (list Document) :=
  match e with
  | Dir _ k => k
  | Absent => None
  end.

(** The disks [save_local] goes through at a place: [index.faiss] is
    opened for writing, which empties it, and written; then [index.pkl] is
    opened for writing and written.
    [[
      faiss.write_index(self.index, str(path / f"{index_name}.faiss"))
      with open(path / f"{index_name}.pkl", "wb") as f:
          pickle.dump((self.docstore, self.index_to_docstore_id), f)
    ]] *)
Definition save_steps (d : Disk) (p : place) (vs : FAISS) : list Disk :=
  let k := pkl_of (look d p) in
  [put_at d p (Dir None k);
   put_at d p (Dir (Some (indexed vs)) k);
   put_at d p (Dir (Some (indexed vs)) None);
   put_at d p (Dir (Some (indexed vs)) (Some (docstore vs)))].

(** The pages of a PDF as [pypdf.PdfReader] gives them: for each page what
    [extract_text()] does, and the exception that ends the iteration over
    [reader.pages] early, if one does. *)
Record pdf_pages : Type :=
  mkPages { page_texts : list (outcome pystr); iteration_error : option exn }.

(** What the libraries and services the program calls do. *)
Record Env : Type := mkEnv {
  (** [os.path.dirname(os.path.abspath(__file__))] *)
  module_dir : pystr;
  (** [glob.glob(pattern)] *)
  glob : pystr -> list pystr;
  (** [PyPDFLoader(pdf_file).load()] *)
  PyPDFLoader_load : pystr -> outcome (list Document);
  (** [PDFPlumberLoader(pdf_file).load()] *)
  PDFPlumberLoader_load : pystr -> outcome (list Document);
  (** [pypdf.PdfReader(pdf_file, strict=False)] and its pages *)
  PdfReader : pystr -> outcome pdf_pages;
  (** [convert_from_path(pdf_file)], each image given as what
      [pytesseract.image_to_string] does on it *)
  convert_from_path : pystr -> outcome (list (outcome pystr));
  (** [RecursiveCharacterTextSplitter(...).split_documents(documents)] *)
  split_documents : list Document -> outcome (list Document);
  (** the embedding of the chunks inside [FAISS.from_documents] *)
  embed_documents : list Document -> outcome unit;
  (** the exception [os.makedirs(path, exist_ok=True)] ends in on a disk,
      if it does, and the number of directories it made before *)
  makedirs_error : Disk -> pystr -> option (nat * exn);
  (** the exception [save_local(path)] ends in on a disk, if it does, and
      how far it got *)
  save_local_error : Disk -> pystr -> FAISS -> option (save_stage * exn);
  (** the retriever of [setup_qa_chain]: [similarity_search(question, k)] *)
  similarity_search : FAISS -> pystr -> nat -> outcome (list Document);
  (** the prompt template filled with the context and the question *)
  format_prompt : list Document -> pystr -> pystr;
  (** the language model and the output parser behind it *)
  llm_invoke : pystr -> outcome pystr
}.

End Doc.

Import Doc.

(* ================================================================== *)
(** * [PDFProcessor._load_pdf_with_fallbacks] *)
(* ================================================================== *)

Module Extractor.

Definition log := list log_msg.

(** [print(...)] *)
Definition print (m : log_msg) : M log unit := modify (fun l => l ++ [m]).

(** The check the first two methods run on the loaded pages:
    [[
      has_text = False
      for doc in documents:
          if doc.page_content and doc.page_content.strip():
              has_text = True
              break
    ]] *)
Definition any_has_text (documents : list Document) : bool :=
  existsb (fun doc => has_text (page_content doc)) documents.

(** Method 1, the body of its [try] and its handler.  [Some documents] is
    the [return documents] of the source, [None] falls through. *)
Definition try_PyPDFLoader (E : Env) (pdf_file : pystr)
  : M log (option (list Document)) :=
  try_except
    (print (Trying PyPDF) ;;
     documents <- lift (PyPDFLoader_load E pdf_file) ;;
     if any_has_text documents then
       print (SuccessfullyLoaded PyPDF (List.length documents)) ;;
       ret (Some documents)
     else
       print (NoTextContent PyPDF) ;; ret None)%eff
    (fun e => print (ErrorWith PyPDF e) ;; ret None)%eff.

(** Method 2. *)
Definition try_PDFPlumberLoader (E : Env) (pdf_file : pystr)
  : M log (option (list Document)) :=
  try_except
    (print (Trying Plumber) ;;
     documents <- lift (PDFPlumberLoader_load E pdf_file) ;;
     if any_has_text documents then
       print (SuccessfullyLoaded Plumber (List.length documents)) ;;
       ret (Some documents)
     else
       print (NoTextContent Plumber) ;; ret None)%eff
    (fun e => print (ErrorWith Plumber e) ;; ret None)%eff.

(** The document methods 3 and 4 build for page [i]. *)
Definition page_document (pdf_file : pystr) (i : nat) (text : pystr) : Document :=
  mkDoc text [("source"%string, VStr pdf_file); ("page"%string, VInt (Z.of_nat i))].

(** The page loop of methods 3 and 4: a page whose text cannot be extracted
    is reported and skipped, a page without text is skipped.
    [[
      for i, page in enumerate(pages):
          try:
              text = page.extract_text()
              if text.strip():
                  text_content.append(...)
          except Exception as page_e:
              print(...)
    ]] *)
Fixpoint scan_pages (s : strategy) (pdf_file : pystr) (i : nat)
         (pages : list (outcome pystr)) : M log (list Document) :=
  match pages with
  | [] => ret []
  | page :: rest =>
      (found <- try_except
                  (text <- lift page ;;
                   if truthy (strip text)
                   then ret [page_document pdf_file i text]
                   else ret [])
                  (fun page_e => print (ErrorOnPage s i page_e) ;; ret []) ;;
       more <- scan_pages s pdf_file (S i) rest ;;
       ret (found ++ more))%eff
  end.

(** Method 3. *)
Definition try_direct_PyPDF (E : Env) (pdf_file : pystr)
  : M log (option (list Document)) :=
  try_except
    (print (Trying DirectPyPDF) ;;
     reader <- lift (PdfReader E pdf_file) ;;
     text_content <- scan_pages DirectPyPDF pdf_file 0 (page_texts reader) ;;
     match iteration_error reader with Some e => raise e | None => ret tt end ;;
     match text_content with
     | _ :: _ =>
         print (SuccessfullyLoaded DirectPyPDF (List.length text_content)) ;;
         ret (Some text_content)
     | [] => print (NoTextContent DirectPyPDF) ;; ret None
     end)%eff
    (fun e => print (ErrorWith DirectPyPDF e) ;; ret None)%eff.

(** Method 4. *)
Definition try_OCR (E : Env) (pdf_file : pystr)
  : M log (option (list Document)) :=
  try_except
    (print (Trying OCR) ;;
     print ConvertingToImages ;;
     images <- lift (convert_from_path E pdf_file) ;;
     print (ConvertedToImages (List.length images)) ;;
     text_content <- scan_pages OCR pdf_file 0 images ;;
     match text_content with
     | _ :: _ =>
         print (SuccessfullyLoaded OCR (List.length text_content)) ;;
         ret (Some text_content)
     | [] => print (NoTextContent OCR) ;; ret None
     end)%eff
    (fun e => print (ErrorWith OCR e) ;; ret None)%eff.

(** [_load_pdf_with_fallbacks(pdf_file)] *)
Definition _load_pdf_with_fallbacks (E : Env) (pdf_file : pystr)
  : M log (list Document) :=
  (print (AttemptingToLoad pdf_file) ;;
   r1 <- try_PyPDFLoader E pdf_file ;;
   match r1 with
   | Some documents => ret documents
   | None =>
   r2 <- try_PDFPlumberLoader E pdf_file ;;
   match r2 with
   | Some documents => ret documents
   | None =>
   r3 <- try_direct_PyPDF E pdf_file ;;
   match r3 with
   | Some documents => ret documents
   | None =>
   r4 <- try_OCR E pdf_file ;;
   match r4 with
   | Some documents => ret documents
   | None => print CouldNotExtract ;; ret []
   end end end end)%eff.

End Extractor.

(* ================================================================== *)
(** * [PDFProcessor] *)
(* ================================================================== *)

Module PDFProcessor.

Import Extractor.

(** [MAX_CACHE_SIZE = 5] *)
Definition MAX_CACHE_SIZE : Z := 5.

(** [DOWNLOAD_FOLDER] and [VECTOR_STORE_PATH] *)
Definition DOWNLOAD_FOLDER (E : Env) : pystr :=
  os_path_join (module_dir E) (lit "downloaded_pdfs").

Definition VECTOR_STORE_PATH (E : Env) : pystr :=
  os_path_join (module_dir E) (lit "vector_store").

(** The processor object ([company_vector_stores], [vector_store]), the
    disk with every state it went through, oldest first, and what was
    printed. *)
Record State : Type := mkState {
  company_vector_stores : LRU.LRUCache pystr FAISS;
  vector_store : option FAISS;
  disk : Disk;
  disk_history : list Disk;
  output : log
}.

Definition set_cache (st : State) (c : LRU.LRUCache pystr FAISS) : State :=
  mkState c (vector_store st) (disk st) (disk_history st) (output st).

Definition set_vector_store (vs : option FAISS) : M State unit :=
  modify (fun st =>
            mkState (company_vector_stores st) vs (disk st) (disk_history st)
                    (output st)).

(** The processor after the disk went through [steps]. *)
Definition wrote (st : State) (steps : list Disk) : State :=
  mkState (company_vector_stores st) (vector_store st)
          (last steps (disk st)) (disk_history st ++ steps) (output st).

Definition set_output (st : State) (l : log) : State :=
  mkState (company_vector_stores st) (vector_store st) (disk st)
          (disk_history st) l.

(** A statement of the extractor, run by the processor. *)
Definition with_log {A} (m : M log A) : M State A :=
  fun st => let (r, l) := m (output st) in (r, set_output st l).

Definition say (m : log_msg) : M State unit := with_log (print m).

(** [self.company_vector_stores.get(key)] *)
Definition cache_get (key : pystr) : M State (option FAISS) :=
  fun st =>
    match LRU.get pystr_eq_dec key (company_vector_stores st) with
    | Returns (v, c) => (Returns v, set_cache st c)
    | Raises e => (Raises e, st)
    end.

(** [self.company_vector_stores.put(key, value)] *)
Definition cache_put (key : pystr) (value : FAISS) : M State unit :=
  fun st =>
    match LRU.put pystr_eq_dec key value (company_vector_stores st) with
    | Returns c => (Returns tt, set_cache st c)
    | Raises e => (Raises e, st)
    end.

(** [os.path.exists(path)] *)
Definition os_path_exists (path : pystr) : M State bool :=
  gets (fun st => match disk st path with Absent => false | Dir _ _ => true end).

(** The disk after [os.makedirs(path, exist_ok=True)] made every directory
    that was missing. *)
Definition made (d : Disk) (path : pystr) : Disk :=
  last (makedirs_steps d (passes d path)) d.

(** [os.makedirs(path, exist_ok=True)]: the directories that are missing on
    the path are made one after the other; when it raises, the ones made
    before stay. *)
Definition os_makedirs (E : Env) (path : pystr) : M State unit :=
  fun st =>
    let steps := makedirs_steps (disk st) (passes (disk st) path) in
    match makedirs_error E (disk st) path with
    | Some (n, e) => (Raises e, wrote st (firstn n steps))
    | None => (Returns tt, wrote st steps)
    end.

(** [vector_store.save_local(path)]: the folder is made if it is missing
    ([path.mkdir(exist_ok=True, parents=True)]), then the two files are
    written in place, one after the other; when it raises, what was written
    before stays. *)
Definition save_local (E : Env) (vs : FAISS) (path : pystr) : M State unit :=
  fun st =>
    let dirs := makedirs_steps (disk st) (passes (disk st) path) in
    let files :=
      save_steps (last dirs (disk st)) (target (disk st) path) vs in
    match save_local_error E (disk st) path vs with
    | Some (stage, e) =>
        (Raises e, wrote st (dirs ++ firstn (written stage) files))
    | None => (Returns tt, wrote st (dirs ++ files))
    end.

(** [FAISS.load_local(path, self.embeddings, ...)]: the index is read from
    [index.faiss], the document store from [index.pkl]. *)
Definition FAISS_load_local (path : pystr) : M State FAISS :=
  fun st =>
    match disk st path with
    | Dir (Some index) (Some store) => (Returns (mkStore index store), st)
    | _ => (Raises (LibraryError "load_local"), st)
    end.

(** [get_company_vector_store_path(company_number)]; [str] of a string is
    the string. *)
Definition get_company_vector_store_path (E : Env) (company_number : pystr)
  : pystr :=
  os_path_join (VECTOR_STORE_PATH E) company_number.

(** The loop of [_process_company_pdfs] over the PDF files:
    [[
      for pdf_file in company_pdfs:
          try:
              pdf_documents = self._load_pdf_with_fallbacks(pdf_file)
              for doc in pdf_documents:
                  doc.metadata["company_number"] = company_number
              documents.extend(pdf_documents)
          except Exception as e:
              print(...)
    ]] *)
Fixpoint load_all (E : Env) (company_number : pystr) (company_pdfs : list pystr)
  : M State (list Document) :=
  match company_pdfs with
  | [] => ret []
  | pdf_file :: rest =>
      (loaded <- try_except
                   (pdf_documents <- with_log (_load_pdf_with_fallbacks E pdf_file) ;;
                    ret (map (set_company company_number) pdf_documents))
                   (fun e => say (ErrorProcessing pdf_file e) ;; ret []) ;;
       more <- load_all E company_number rest ;;
       ret (loaded ++ more))%eff
  end.

(** The loop that keeps the documents with text and reports the others. *)
Fixpoint keep_non_empty (documents : list Document) : M State (list Document) :=
  match documents with
  | [] => ret []
  | doc :: rest =>
      (kept <- (if has_text (page_content doc) then ret [doc]
                else say (SkippingEmpty (meta_get "source" (metadata doc))) ;;
                     ret []) ;;
       more <- keep_non_empty rest ;;
       ret (kept ++ more))%eff
  end.

(** [_process_company_pdfs(company_number)] *)
Definition _process_company_pdfs (E : Env) (company_number : pystr)
  : M State bool :=
  if negb (truthy company_number) then
    (say CompanyNumberRequired ;; ret false)%eff
  else
    let company_path := os_path_join (DOWNLOAD_FOLDER E) company_number in
    let company_pdfs := glob E (os_path_join company_path (lit "*.pdf")) in
    match company_pdfs with
    | [] => (say (NoPDFsFound company_number) ;; ret false)%eff
    | _ :: _ =>
    (documents <- load_all E company_number company_pdfs ;;
     match documents with
     | [] => say (NoDocumentsLoaded company_number) ;; ret false
     | _ :: _ =>
     non_empty_documents <- keep_non_empty documents ;;
     match non_empty_documents with
     | [] => say (AllDocumentsEmpty company_number) ;; ret false
     | _ :: _ =>
     chunks <- lift (split_documents E non_empty_documents) ;;
     match chunks with
     | [] => say (NoChunksCreated company_number) ;; ret false
     | _ :: _ =>
     say (CreatedChunks (List.length chunks)) ;;
     try_except
       (say CreatingVectorStore ;;
        lift (embed_documents E chunks) ;;
        let company_vector_store := mkFAISS chunks in
        let company_vector_store_path :=
          get_company_vector_store_path E company_number in
        os_makedirs E company_vector_store_path ;;
        save_local E company_vector_store company_vector_store_path ;;
        cache_put company_number company_vector_store ;;
        say (SavedVectorStore company_number) ;;
        ret true)
       (fun e => say (ErrorCreatingVectorStore e) ;; ret false)
     end end end)%eff
    end.

(** The last statement of [_process_company_pdfs] on its own, the [try]
    that embeds, saves and caches the chunks, for the proofs to name. *)
Definition persist (E : Env) (company_number : pystr) (chunks : list Document)
  : M State bool :=
  try_except
    (say CreatingVectorStore ;;
     lift (embed_documents E chunks) ;;
     os_makedirs E (get_company_vector_store_path E company_number) ;;
     save_local E (mkFAISS chunks) (get_company_vector_store_path E company_number) ;;
     cache_put company_number (mkFAISS chunks) ;;
     say (SavedVectorStore company_number) ;;
     ret true)%eff
    (fun e => say (ErrorCreatingVectorStore e) ;; ret false)%eff.

(** The chain [setup_qa_chain] builds, invoked on a question: the retriever
    takes the 4 nearest chunks of the store, the prompt is filled and the
    model answers. *)
Definition qa_chain (E : Env) (store : FAISS) (question : pystr) : outcome pystr :=
  (context <- similarity_search E store question 4 ;;
   llm_invoke E (format_prompt E context question))%py.

(** [setup_qa_chain()] *)
Definition setup_qa_chain (E : Env) : M State (pystr -> outcome pystr) :=
  (vs <- gets vector_store ;;
   match vs with
   | None => raise (ValueError "Vector store not loaded. Call load_vector_store() or load_and_process_pdfs() first.")
   | Some store => ret (qa_chain E store)
   end)%eff.

(** The three answers of [answer_question] that say there is nothing to
    answer from. *)
Definition msg_failed_to_process (company_number : pystr) : pystr :=
  lit "Failed to process PDFs for company " ++ company_number ++ lit ".".

Definition msg_no_pdfs (company_number : pystr) : pystr :=
  lit "No PDFs found or processing failed for company " ++ company_number
  ++ lit ". Please upload PDFs first.".

Definition msg_no_data (company_number : pystr) : pystr :=
  lit "No data available for company " ++ company_number ++ lit ".".

Definition msg_specify_company : pystr :=
  lit "Please specify a company number to ask questions about.".

(** The part of [answer_question] that finds the vector store.  [Some msg]
    is a [return msg] of the source, [None] goes on to the chain.  A FAISS
    object is truthy, so that [if cached_vs:] tests whether [get] found the
    key. *)
Definition resolve_vector_store (E : Env) (company_number : pystr)
  : M State (option pystr) :=
  (cached_vs <- cache_get company_number ;;
   match cached_vs with
   | Some vs => set_vector_store (Some vs) ;; ret None
   | None =>
       let company_path := get_company_vector_store_path E company_number in
       on_disk <- os_path_exists company_path ;;
       if on_disk then
         try_except
           (vector_store <- FAISS_load_local company_path ;;
            cache_put company_number vector_store ;;
            set_vector_store (Some vector_store) ;;
            ret None)
           (fun e =>
              say (ErrorLoadingVectorStore company_number e) ;;
              _process_company_pdfs E company_number ;;
              vs <- cache_get company_number ;;
              set_vector_store vs ;;
              match vs with
              | None => ret (Some (msg_failed_to_process company_number))
              | Some _ => ret None
              end)
       else
         say (NoVectorStoreFound company_number) ;;
         success <- _process_company_pdfs E company_number ;;
         if success then
           vs <- cache_get company_number ;;
           set_vector_store vs ;;
           ret None
         else ret (Some (msg_no_pdfs company_number))
   end)%eff.

(** [answer_question(question, company_number)] *)
Definition answer_question (E : Env) (question company_number : pystr)
  : M State pystr :=
  if negb (truthy company_number) then ret msg_specify_company
  else
    (resolved <- resolve_vector_store E company_number ;;
     match resolved with
     | Some msg => ret msg
     | None =>
         vs <- gets vector_store ;;
         match vs with
         | None => ret (msg_no_data company_number)
         | Some _ =>
             chain <- setup_qa_chain E ;;
             lift (chain question)
         end
     end)%eff.

(** The vector store the chain of [answer_question] runs on, when the call
    gets to the chain. *)
Definition store_used (E : Env) (company_number : pystr) (st : State)
  : option FAISS :=
  match resolve_vector_store E company_number st with
  | (Returns None, st') => vector_store st'
  | _ => None
  end.

(** [PDFProcessor()] on a given disk: an empty cache of capacity
    [MAX_CACHE_SIZE] and no active vector store. *)
Definition new (d : Disk) : State :=
  mkState (LRU.init pystr FAISS MAX_CACHE_SIZE) None d [d] [].

End PDFProcessor.

(** The functions of the module [process_qa]. *)
Module ProcessQA.

(** [answer_question(question, company_number)]: a new processor for each
    call; the disk is what stays from one call to the next. *)
Definition answer_question (E : Env) (question company_number : pystr)
           (d : Disk) : outcome pystr * Disk :=
  if negb (truthy question) || negb (truthy company_number) then
    (Returns (lit "Both question and company number are required."), d)
  else
    let (r, st) :=
      PDFProcessor.answer_question E question company_number (PDFProcessor.new d)
    in (r, PDFProcessor.disk st).

End ProcessQA.

(* ================================================================== *)
(** * The fallback chain of the specification *)
(* ================================================================== *)

(** The Text Extractor in the specification's words, to compare
    [_load_pdf_with_fallbacks] with: the strategies in fixed priority order,
    the first that succeeds gives the pages, and a strategy succeeds when it
    does not throw and at least one page has text that is not blank. *)
Module Fallback.

(** Text that is not empty and not white space only. *)
Definition nonblank (t : pystr) : bool :=
  existsb (fun c => negb (isspace c)) t.

(** A page-by-page scan: pages are numbered from [i]; a page that fails and
    a page that is blank are skipped. *)
Fixpoint page_by_page (pdf_file : pystr) (i : nat) (pages : list (outcome pystr))
  : list Document :=
  match pages with
  | [] => []
  | Returns t :: rest =>
      if nonblank t
      then Extractor.page_document pdf_file i t :: page_by_page pdf_file (S i) rest
      else page_by_page pdf_file (S i) rest
  | Raises _ :: rest => page_by_page pdf_file (S i) rest
  end.

(** The pages a strategy extracts from a document, or the exception it
    throws. *)
Definition pages_of (E : Env) (s : strategy) (pdf_file : pystr)
  : outcome (list Document) :=
  match s with
  | PyPDF => PyPDFLoader_load E pdf_file
  | Plumber => PDFPlumberLoader_load E pdf_file
  | DirectPyPDF =>
      match PdfReader E pdf_file with
      | Returns r =>
          match iteration_error r with
          | Some e => Raises e
          | None => Returns (page_by_page pdf_file 0 (page_texts r))
          end
      | Raises e => Raises e
      end
  | OCR =>
      match convert_from_path E pdf_file with
      | Returns images => Returns (page_by_page pdf_file 0 images)
      | Raises e => Raises e
      end
  end.

(** Success of a strategy: it does not throw and at least one page yields
    text that is not blank. *)
Definition succeeds (E : Env) (s : strategy) (pdf_file : pystr) : bool :=
  match pages_of E s pdf_file with
  | Returns pages => existsb (fun d => nonblank (page_content d)) pages
  | Raises _ => false
  end.

(** The pages of a strategy, none when it throws. *)
Definition extracted (E : Env) (s : strategy) (pdf_file : pystr)
  : list Document :=
  match pages_of E s pdf_file with
  | Returns pages => pages
  | Raises _ => []
  end.

(** Trying the strategies [ss] in order and stopping at the first success:
    the strategies tried, and the pages extracted (none on total failure). *)
Fixpoint first_success (E : Env) (pdf_file : pystr) (ss : list strategy)
  : list strategy * list Document :=
  match ss with
  | [] => ([], [])
  | s :: rest =>
      if succeeds E s pdf_file then ([s], extracted E s pdf_file)
      else
        let (tried, pages) := first_success E pdf_file rest in
        (s :: tried, pages)
  end.

(** The pages the extractor of the specification returns for a document. *)
Definition extract (E : Env) (pdf_file : pystr) : list Document :=
  snd (first_success E pdf_file strategies).

(** What a method of the source amounts to: it tries its strategy, and
    returns the pages exactly when the strategy succeeds. *)
Definition runs_strategy (E : Env) (s : strategy) (pdf_file : pystr)
           (m : M Extractor.log (option (list Document))) : Prop :=
  forall l0, exists l,
    m l0 = (Returns (if succeeds E s pdf_file
                     then Some (extracted E s pdf_file) else None), l) /\
    attempted l = attempted l0 ++ [s].

End Fallback.

(* ================================================================== *)
(** * The index builder and the answerer of the specification *)
(* ================================================================== *)

(** The words of the specification about [_process_company_pdfs] and
    [answer_question], as definitions to state the claims with. *)
Module Spec.

Import PDFProcessor.

(** The failures of the Index Builder the specification names. *)
Inductive reason : Type := NoInput | NoExtractableText | NoChunks.

(** The documents of a tenant on disk. *)
Definition documents_of (E : Env) (tenant : pystr) : list pystr :=
  glob E (os_path_join (os_path_join (DOWNLOAD_FOLDER E) tenant) (lit "*.pdf")).

(** The pages the extractor yields over all documents of a tenant. *)
Definition extracted_pages (E : Env) (tenant : pystr) : list Document :=
  flat_map (Fallback.extract E) (documents_of E tenant).

Definition non_empty_pages (E : Env) (tenant : pystr) : list Document :=
  filter (fun d => Fallback.nonblank (page_content d)) (extracted_pages E tenant).

(** The pages of a tenant, tagged with the tenant, as they are chunked. *)
Definition tagged_pages (E : Env) (tenant : pystr) : list Document :=
  map (set_company tenant) (non_empty_pages E tenant).

(** The reason for which a build for [tenant] fails before any index is
    built, if there is one. *)
Definition failure_reason (E : Env) (tenant : pystr) : option reason :=
  match documents_of E tenant with
  | [] => Some NoInput
  | _ :: _ =>
      match non_empty_pages E tenant with
      | [] => Some NoExtractableText
      | _ :: _ =>
          match split_documents E (tagged_pages E tenant) with
          | Returns [] => Some NoChunks
          | _ => None
          end
      end
  end.

(** The claim that the result of a build tells the reason of a failure:
    the reason can be read off what the build returns. *)
Definition result_tells_reason (E : Env) : Prop :=
  exists decode : outcome bool -> option reason,
    forall tenant st r,
      failure_reason E tenant = Some r ->
      decode (fst (_process_company_pdfs E tenant st)) = Some r.

(** The line the build prints last for each reason. *)
Definition message_of (r : reason) (tenant : pystr) : log_msg :=
  match r with
  | NoInput => NoPDFsFound tenant
  | NoExtractableText => NoDocumentsLoaded tenant
  | NoChunks => NoChunksCreated tenant
  end.

(** The claim of an atomic publish: in every state the disk goes through
    during a build, a reader of the tenant's path finds what was there
    before the build or what is there after it. *)
Definition atomic_publish (E : Env) (tenant : pystr) (st : State) : Prop :=
  let path := get_company_vector_store_path E tenant in
  let st' := snd (_process_company_pdfs E tenant st) in
  forall d, In d (disk_history st') ->
            d path = disk st path \/ d path = disk st' path.

(** The answers that say there is nothing to answer from. *)
Definition no_index_answers (c : pystr) : list pystr :=
  [msg_specify_company; msg_failed_to_process c; msg_no_pdfs c; msg_no_data c].

(** Where a call of [answer_question] ends: in one of the fixed answers, in
    what the chain does on the store that was found, or in an exception the
    build raised. *)
Definition ends_well (E : Env) (q c : pystr) (st : State) : Prop :=
  exists a st',
    answer_question E q c st = (a, st') /\
    ((exists msg, a = Returns msg /\ In msg (no_index_answers c)) \/
     (exists vs, store_used E c st = Some vs /\ a = qa_chain E vs q) \/
     (exists e st1, a = Raises e /\
                    fst (_process_company_pdfs E c st1) = Raises e)).

(** The claim that [answer_question] never raises. *)
Definition never_raises (E : Env) : Prop :=
  forall question tenant st,
    returned (fst (answer_question E question tenant st)) = true.

(** Every chunk of the store is tagged with the tenant. *)
Definition tagged (tenant : pystr) (vs : FAISS) : Prop :=
  forall d, In d (docstore vs) -> company_of d = Some (VStr tenant).

(** The chunks the retriever of [qa_chain] draws for a question. *)
Definition retrieved (E : Env) (vs : FAISS) (question : pystr) : list Document :=
  match similarity_search E vs question 4 with
  | Returns context => context
  | Raises _ => []
  end.

(** The claim of tenant isolation for one call: the chunks drawn for the
    answer are tagged with the tenant asked for. *)
Definition isolated (E : Env) (question tenant : pystr) (st : State) : Prop :=
  forall vs, store_used E tenant st = Some vs ->
             forall d, In d (retrieved E vs question) ->
                       company_of d = Some (VStr tenant).

(** A tenant identifier that is a relative path: not empty and without a
    leading ["/"]. *)
Definition relative (tenant : pystr) : Prop :=
  match tenant with
  | [] => False
  | c :: _ => c <> 47%N
  end.

(** What the chunker and the retriever are taken to do: a chunk carries the
    tenant of a page it was cut from, and the retriever draws chunks of the
    store it is asked. *)
Definition faithful (E : Env) : Prop :=
  (forall pages chunks,
      split_documents E pages = Returns chunks ->
      forall c, In c chunks ->
                exists p, In p pages /\ company_of c = company_of p) /\
  (forall vs question k context,
      similarity_search E vs question k = Returns context ->
      incl context (docstore vs)).

(** [d'] is [d] with directories made at some of the [places], where they
    were missing, and nothing else changed. *)
Definition dirs_made (places : list place) (d d' : Disk) : Prop :=
  cwd d' = cwd d /\
  forall q,
    look d' q = look d q \/
    (look d q = Absent /\ look d' q = NoIndex /\ In q places).

(** A disk a build for a tenant goes through from the disk [d]: [d] with
    directories made on the tenant's path, or that with the files at the
    place the path leads to holding the tenant's chunks, nothing, or, for
    [index.pkl], what it held. *)
Definition during_build (E : Env) (tenant : pystr) (d x : Disk) : Prop :=
  let path := get_company_vector_store_path E tenant in
  dirs_made (passes d path) d x \/
  exists chunks faiss pkl,
    split_documents E (tagged_pages E tenant) = Returns chunks /\
    x = put_at (made d path) (target d path) (Dir faiss pkl) /\
    (faiss = None \/ faiss = Some chunks) /\
    (pkl = None \/ pkl = Some chunks \/
     pkl = pkl_of (look (made d path) (target d path))).

(** A tenant identifier that is one name of a path: not empty, without
    ["/"], and neither ["."] nor [".."]. *)
Definition plain (tenant : pystr) : Prop :=
  tenant <> [] /\ ~ In 47%N tenant /\
  tenant <> lit "." /\ tenant <> lit "..".

(** The chunks of a tenant: what the chunker makes of the pages with text
    of the PDFs in the tenant's download folder. *)
Definition chunks_of (E : Env) (tenant : pystr) (chunks : list Document)
  : Prop :=
  split_documents E (tagged_pages E tenant) = Returns chunks.

(** A vector store of a tenant: one made of the tenant's chunks. *)
Definition store_of (E : Env) (tenant : pystr) (vs : FAISS) : Prop :=
  exists chunks, chunks_of E tenant chunks /\ vs = mkFAISS chunks.

(** The files of a directory hold the tenant's chunks, where they hold
    any. *)
Definition files_of (E : Env) (tenant : pystr) (e : dir_entry) : Prop :=
  match e with
  | Absent => True
  | Dir faiss pkl =>
      (forall x, faiss = Some x -> chunks_of E tenant x) /\
      (forall x, pkl = Some x -> chunks_of E tenant x)
  end.

(** The place of a tenant's vector store: the folder of the vector stores
    and the tenant's name in it. *)
Definition place_of (E : Env) (d : Disk) (tenant : pystr) : place :=
  target d (get_company_vector_store_path E tenant).

(** Every store in the cache and on disk is partitioned by tenant: for an
    identifier that is one name, the store under its key is a store of the
    tenant, and the files at its place hold the tenant's chunks. *)
Definition partitioned (E : Env) (st : State) : Prop :=
  LRU.wf (LRU.items (company_vector_stores st)) /\
  (forall tenant vs,
      plain tenant ->
      In (tenant, vs) (LRU.items (company_vector_stores st)) ->
      store_of E tenant vs) /\
  (forall tenant,
      plain tenant ->
      files_of E tenant (look (disk st) (place_of E (disk st) tenant))).

End Spec.

(* ================================================================== *)
(** * A deployment to run *)
(* ================================================================== *)

(** The program installed in [/app/backend], with four tenants: one with a
    PDF that has text, one with a scan no method can read, one with a scan
    OCR can read, and one without documents. *)
Module Example.

Import PDFProcessor.

Definition accounts_pdf : pystr :=
  lit "/app/backend/downloaded_pdfs/00445790/accounts.pdf".
Definition blank_pdf : pystr :=
  lit "/app/backend/downloaded_pdfs/00000001/scan.pdf".
Definition scanned_pdf : pystr :=
  lit "/app/backend/downloaded_pdfs/00000002/scan.pdf".

Definition example_glob (pattern : pystr) : list pystr :=
  if pystr_eqb pattern (lit "/app/backend/downloaded_pdfs/00445790/*.pdf")
  then [accounts_pdf]
  else if pystr_eqb pattern (lit "/app/backend/downloaded_pdfs/00000001/*.pdf")
  then [blank_pdf]
  else if pystr_eqb pattern (lit "/app/backend/downloaded_pdfs/00000002/*.pdf")
  then [scanned_pdf]
  else [].

Definition page0 (f text : pystr) : Document :=
  mkDoc text [("source"%string, VStr f); ("page"%string, VInt 0)].

Definition env (llm : pystr -> outcome pystr) : Env :=
  mkEnv
    (lit "/app/backend")
    example_glob
    (fun f => if pystr_eqb f accounts_pdf
              then Returns [page0 f (lit "Net profit: 12")]
              else Returns [page0 f (lit "  ")])
    (fun f => Raises (LibraryError "PDFSyntaxError"))
    (fun f => Returns (mkPages [Returns (lit " "); Raises (LibraryError "PdfReadError")]
                               None))
    (fun f => if pystr_eqb f scanned_pdf
              then Returns [Returns (lit "Balance sheet")]
              else Returns [Returns []])
    (fun pages => Returns pages)
    (fun _ => Returns tt)
    (fun _ _ => None)
    (fun _ _ _ => None)
    (fun vs _ k => Returns (firstn k (docstore vs)))
    (fun context question => flat_map page_content context ++ question)
    llm.

(** A model that repeats its prompt, and one that is out of service. *)
Definition echo (prompt : pystr) : outcome pystr := Returns prompt.
Definition out_of_service (prompt : pystr) : outcome pystr :=
  Raises (LibraryError "ServiceUnavailable").

Definition empty_disk : Disk := mkDisk [] (fun _ => Absent).

Definition question : pystr := lit "What is the net profit?".

(** The tenant with a readable PDF, and a second identifier of its vector
    store path. *)
Definition tenant : pystr := lit "00445790".
Definition alias : pystr := lit "/app/backend/vector_store/00445790".

(** The disk after the tenant was asked about once. *)
Definition disk_after_first_call : Disk :=
  snd (ProcessQA.answer_question (env echo) question tenant empty_disk).

(** The one chunk of the tenant's index. *)
Definition chunk : Document :=
  mkDoc (lit "Net profit: 12")
        [("source"%string, VStr accounts_pdf); ("page"%string, VInt 0);
         ("company_number"%string, VStr tenant)].

(** The tenants without an index to build: no documents, and a scan no
    method reads. *)
Definition no_documents : pystr := lit "99999999".
Definition unreadable : pystr := lit "00000001".

End Example.

(* ================================================================== *)
(** * The other methods of [PDFProcessor] and functions of [process_qa] *)
(* ================================================================== *)

Module Methods.

Import PDFProcessor.

(** What these methods print, next to the lines of the methods above. *)
Inductive line : Type :=
  | Line (m : log_msg)
  | CompanyCodeRequired
  | DirectoryNotFound (company path : pystr)
  | NoPDFFilesFound (company : pystr)
  | RequiredToUpdate
  | RequiredToLoad
  | UsingCached (company : pystr)
  | NoVectorStore (company : pystr)
  | RequiredToProcess.

(** The processor, and everything printed, in order. *)
Record Run : Type := mkRun { proc : State; printed : list line }.

(** A method of the part above, called from here: what it adds to the
    output of the processor goes to the printed lines. *)
Definition call {A} (m : M State A) : M Run A :=
  fun r =>
    let (a, st) := m (proc r) in
    (a, mkRun st (printed r
                  ++ map Line (skipn (List.length (output (proc r))) (output st)))).

Definition tell (l : line) : M Run unit :=
  modify (fun r => mkRun (proc r) (printed r ++ [l])).

(** [self.vector_store = self.company_vector_stores.get(company_number)] *)
Definition activate_cached (company_number : pystr) : M State unit :=
  (vs <- cache_get company_number ;; set_vector_store vs)%eff.

(** [load_and_process_pdfs(specific_company)]; [isdir] is [os.path.isdir]
    on the download folder. *)
Definition load_and_process_pdfs (E : Env) (isdir : pystr -> bool)
           (specific_company : pystr) : M Run bool :=
  if negb (truthy specific_company) then
    (tell CompanyCodeRequired ;; ret false)%eff
  else
    let company_path := os_path_join (DOWNLOAD_FOLDER E) specific_company in
    if negb (isdir company_path) then
      (tell (DirectoryNotFound specific_company company_path) ;; ret false)%eff
    else
      let company_pdfs := glob E (os_path_join company_path (lit "*.pdf")) in
      match company_pdfs with
      | [] => (tell (NoPDFFilesFound specific_company) ;; ret false)%eff
      | _ :: _ =>
          (success <- call (_process_company_pdfs E specific_company) ;;
           (if success : bool then call (activate_cached specific_company)
            else ret tt) ;;
           ret success)%eff
      end.

(** [update_vector_store(company_number)] *)
Definition update_vector_store (E : Env) (company_number : pystr)
  : M Run bool :=
  if negb (truthy company_number) then
    (tell RequiredToUpdate ;; ret false)%eff
  else
    (success <- call (_process_company_pdfs E company_number) ;;
     if success : bool then
       call (activate_cached company_number) ;; ret true
     else ret false)%eff.

(** [load_vector_store(company_number)] *)
Definition load_vector_store (E : Env) (company_number : pystr)
  : M Run bool :=
  if negb (truthy company_number) then
    (tell RequiredToLoad ;; ret false)%eff
  else
    (cached_vs <- call (cache_get company_number) ;;
     match cached_vs with
     | Some vs =>
         tell (UsingCached company_number) ;;
         call (set_vector_store (Some vs)) ;;
         ret true
     | None =>
         let company_path := get_company_vector_store_path E company_number in
         on_disk <- call (os_path_exists company_path) ;;
         if on_disk : bool then
           try_except
             (vector_store <- call (FAISS_load_local company_path) ;;
              call (cache_put company_number vector_store) ;;
              call (set_vector_store (Some vector_store)) ;;
              ret true)
             (fun e =>
                tell (Line (ErrorLoadingVectorStore company_number e)) ;;
                ret false)
         else
           tell (NoVectorStore company_number) ;; ret false
     end)%eff.

(** [PDFProcessor()]: the processor of the run is replaced by a new one on
    the same disk. *)
Definition new_processor : M Run unit :=
  modify (fun r =>
            mkRun (mkState (LRU.init pystr FAISS MAX_CACHE_SIZE) None
                           (disk (proc r)) (disk_history (proc r)) [])
                  (printed r)).

(** The function [process_pdfs(company_number)] of the module: the new
    processor when its PDFs were processed, [None] otherwise. *)
Definition process_pdfs (E : Env) (isdir : pystr -> bool)
           (company_number : pystr) : M Run (option State) :=
  if negb (truthy company_number) then
    (tell RequiredToProcess ;; ret None)%eff
  else
    (new_processor ;;
     success <- load_and_process_pdfs E isdir company_number ;;
     if success : bool then processor <- gets proc ;; ret (Some processor)
     else ret None)%eff.

(** A run that starts with a new processor on a disk. *)
Definition start (d : Disk) : Run := mkRun (new d) [].

(** What holds of the processor when a method reports a build: the index
    built from the tagged pages of the tenant is the active store, is the
    value of the tenant's key in the cache, and is saved at the tenant's
    path. *)
Definition built_and_active (E : Env) (c : pystr) (st : State) : Prop :=
  exists chunks,
    split_documents E (Spec.tagged_pages E c) = Returns chunks /\
    vector_store st = Some (mkFAISS chunks) /\
    disk st (get_company_vector_store_path E c) = Index (mkFAISS chunks) /\
    LRU.getitem pystr_eq_dec c (LRU.items (company_vector_stores st))
    = Returns (mkFAISS chunks).

(** What holds when a method reports no build: the active store and the
    cache are what they were. *)
Definition left_as_it_was (st st' : State) : Prop :=
  vector_store st' = vector_store st /\
  company_vector_stores st' = company_vector_stores st.

(** The cache of a processor in order: no key twice, no more stores than
    its capacity, which is [MAX_CACHE_SIZE]. *)
Definition cache_in_order (st : State) : Prop :=
  LRU.good (company_vector_stores st) /\
  LRU.capacity (company_vector_stores st) = MAX_CACHE_SIZE.

(** [os.path.isdir] on the download folder of the deployment to run. *)
Definition example_isdir (path : pystr) : bool :=
  pystr_eqb path (lit "/app/backend/downloaded_pdfs/00445790")
  || pystr_eqb path (lit "/app/backend/downloaded_pdfs/00000001").

End Methods.

(* ================================================================== *)
(** * [scraper.py]: the name a downloaded PDF is saved under *)
(* ================================================================== *)

(** The statements of [download_company_pdfs] that make the file name and
    the path of a download, from the date and the description of the row,
    the link, the number [i] of the row and the number of files downloaded
    so far.  The browser around them is left out. *)
Module Scraper.

(** [str(n)] of a number that is not negative. *)
Definition str_of_nat (n : nat) : pystr :=
  lit (NilZero.string_of_uint (Nat.to_uint n)).

(** [a or b] on strings. *)
Definition or_else (a b : pystr) : pystr := if truthy a then a else b.

(** [s.strip(x)] for a string [x] of one character. *)
Fixpoint lstrip_char (x : N) (s : pystr) : pystr :=
  match s with
  | [] => []
  | c :: r => if (c =? x)%N then lstrip_char x r else s
  end.

Definition strip_char (x : N) (s : pystr) : pystr :=
  rev (lstrip_char x (rev (lstrip_char x s))).

(** [s.split(sep)] for a separator of one character. *)
Fixpoint split (sep : N) (s : pystr) : list pystr :=
  match s with
  | [] => [[]]
  | c :: r =>
      if (c =? sep)%N then [] :: split sep r
      else match split sep r with
           | w :: ws => (c :: w) :: ws
           | [] => [[c]]
           end
  end.

(** [s] without the prefix [p], when [s] starts with [p]. *)
Fixpoint strip_prefix (p s : pystr) : option pystr :=
  match p, s with
  | [], _ => Some s
  | a :: p', b :: s' => if (a =? b)%N then strip_prefix p' s' else None
  | _ :: _, [] => None
  end.

(** The longest prefix of [s] without the character [x], and the rest. *)
Fixpoint span_not (x : N) (s : pystr) : pystr * pystr :=
  match s with
  | [] => ([], [])
  | c :: r =>
      if (c =? x)%N then ([], s)
      else let (g, rest) := span_not x r in (c :: g, rest)
  end.

(** A match of [/filing-history/([^/]+)/document] that starts at the start
    of [s], as its group 1.  The group is the longest run without ["/"]: a
    shorter one is followed by a character of the run, not by the ["/"] of
    [/document]. *)
Definition match_here (s : pystr) : option pystr :=
  match strip_prefix (lit "/filing-history/") s with
  | None => None
  | Some after =>
      let (group, rest) := span_not 47 after in
      match group, strip_prefix (lit "/document") rest with
      | _ :: _, Some _ => Some group
      | _, _ => None
      end
  end.

(** [re.search(r'/filing-history/([^/]+)/document', s)]: group 1 of the
    leftmost match. *)
Fixpoint re_search (s : pystr) : option pystr :=
  match match_here s with
  | Some group => Some group
  | None =>
      match s with
      | [] => None
      | _ :: r => re_search r
      end
  end.

(** The body of the [try] after a link the pattern does not match; [None]
    is the [IndexError] its handler catches.
    [[
      path_part = link_href.split('?')[0]
      unique_id = path_part.split('/')[-2]
      if not unique_id or unique_id == "filing-history":
          raise IndexError
    ]] *)
Definition id_from_path (link_href : pystr) : option pystr :=
  let path_part := hd [] (split 63 link_href) in
  match nth_error (rev (split 47 path_part)) 1 with
  | None => None
  | Some unique_id =>
      if negb (truthy unique_id) || pystr_eqb unique_id (lit "filing-history")
      then None
      else Some unique_id
  end.

(** The unique id of a link, [n] being [len(downloaded_files)]. *)
Definition unique_id (link_href : pystr) (i n : nat) : pystr :=
  match re_search link_href with
  | Some group => group
  | None =>
      match id_from_path link_href with
      | Some id => id
      | None => lit "doc_" ++ str_of_nat i ++ lit "_" ++ str_of_nat n
      end
  end.

Section Filename.

(** [c.isalnum()], from the Unicode database of the interpreter. *)
Variable isalnum : N -> bool.

(** ["".join(c if c.isalnum() else "_" for c in s)] *)
Definition sanitize (s : pystr) : pystr :=
  map (fun c => if isalnum c then c else 95%N) s.

Definition safe_date (filing_date : pystr) : pystr := sanitize filing_date.

Definition safe_desc (description_text : pystr) : pystr :=
  or_else (strip_char 95 (sanitize (firstn 40 description_text))) (lit "filing").

(** [f"{safe_date}_{safe_desc}_{unique_id}.pdf"] *)
Definition filename (filing_date description_text link_href : pystr) (i n : nat)
  : pystr :=
  safe_date filing_date ++ lit "_" ++ safe_desc description_text ++ lit "_"
  ++ unique_id link_href i n ++ lit ".pdf".

(** [os.path.join(company_specific_folder, filename)] *)
Definition save_path (company_specific_folder filing_date description_text
                        link_href : pystr) (i n : nat) : pystr :=
  os_path_join company_specific_folder
               (filename filing_date description_text link_href i n).

End Filename.

(** [str.isalnum] on the characters of ASCII. *)
Definition ascii_isalnum (c : N) : bool :=
  ((48 <=? c) && (c <=? 57) || (65 <=? c) && (c <=? 90)
   || (97 <=? c) && (c <=? 122))%N.

(** A row of the filing history of a company. *)
Definition example_date : pystr := lit "14 Mar 2024".
Definition example_description : pystr :=
  lit "Total exemption full accounts made up to 30 June 2023".
Definition example_link : pystr :=
  lit "/company/00445790/filing-history/MzQxNTk2NzE3/document?format=pdf&download=0".

End Scraper.

(* ================================================================== *)
(** * [auth.py]: the accounts *)
(* ================================================================== *)

Module Auth.

(** A row of the table of the model [User]. *)
Record User : Type := mkUser {
  id : Z;
  username : pystr;
  password_hash : pystr
}.

(** The table, in the order of the row ids. *)
Definition Table := list User.

(** What the libraries do. *)
Record Lib : Type := mkLib {
  (** [pbkdf2_sha256.hash(password)] with the salt it draws *)
  pbkdf2_hash : pystr -> pystr -> outcome pystr;
  (** [pbkdf2_sha256.verify(password, hash)] *)
  pbkdf2_verify : pystr -> pystr -> outcome bool;
  (** [create_access_token(identity=username)] *)
  create_access_token : pystr -> outcome pystr;
  (** [str(e)] *)
  str_of_exception : exn -> pystr
}.

(** [User.query.filter_by(username=username).first()]; the query is taken
    to reach the database. *)
Definition first_by_username (name : pystr) (db : Table) : option User :=
  find (fun row => pystr_eqb (username row) name) db.

(** The id the database gives a new row: one more than the largest. *)
Definition next_id (db : Table) : Z :=
  (1 + fold_right Z.max 0 (map id db))%Z.

(** [authenticate_user(username, password)] *)
Definition authenticate_user (L : Lib) (name password : pystr) (db : Table)
  : outcome (option pystr) :=
  match first_by_username name db with
  | Some user =>
      (ok <- pbkdf2_verify L password (password_hash user) ;;
       if ok : bool then
         access_token <- create_access_token L name ;;
         Returns (Some access_token)
       else Returns None)%py
  | None => Returns None
  end.

(** [register_user(username, password)]; [salt] is the salt the hash
    draws, and [commit_error] the exception [db.session.commit()] ends in,
    if it does: the session is rolled back and the table stays as it
    was. *)
Definition register_user (L : Lib) (salt : pystr) (commit_error : option exn)
           (name password : pystr) (db : Table)
  : outcome (bool * pystr) * Table :=
  match first_by_username name db with
  | Some existing_user => (Returns (false, lit "Username already exists"), db)
  | None =>
      match pbkdf2_hash L salt password with
      | Raises e => (Raises e, db)
      | Returns h =>
          let new_user := mkUser (next_id db) name h in
          match commit_error with
          | None =>
              (Returns (true, lit "User registered successfully"),
               db ++ [new_user])
          | Some e =>
              (Returns (false, lit "Registration failed: " ++ str_of_exception L e),
               db)
          end
      end
  end.

(** What [passlib] says of its hashes: a password verifies against a hash
    made of it. *)
Definition verifies (L : Lib) : Prop :=
  forall salt password h,
    pbkdf2_hash L salt password = Returns h ->
    pbkdf2_verify L password h = Returns true.

(** A library to run: the hash is the salt and the password side by side. *)
Definition example_lib : Lib :=
  mkLib (fun salt password => Returns (salt ++ lit "$" ++ password))
        (fun password h =>
           Returns (pystr_eqb (skipn (List.length h - List.length password) h)
                              password))
        (fun name => Returns (lit "token-for-" ++ name))
        (fun e => lit "error").

End Auth.

(* ================================================================== *)
(** * Properties of the cache *)
(* ================================================================== *)

Unset Implicit Arguments.

Module LRUProps.

Import LRU.

Section Facts.

Variables K V : Type.
Variable K_eq_dec : forall a b : K, {a = b} + {a <> b}.

#[local] Abbreviation OrderedDict := (OrderedDict K V).
#[local] Abbreviation LRUCache := (LRUCache K V).
#[local] Abbreviation contains := (contains K_eq_dec).
#[local] Abbreviation getitem := (getitem K_eq_dec).
#[local] Abbreviation move_to_end := (move_to_end K_eq_dec).
#[local] Abbreviation setitem := (setitem K_eq_dec).
#[local] Abbreviation without := (without K_eq_dec).
#[local] Abbreviation get := (get K_eq_dec).
#[local] Abbreviation put := (put K_eq_dec).
#[local] Abbreviation put_steps := (put_steps K_eq_dec).
#[local] Abbreviation overflow := (@overflow K V).
#[local] Abbreviation call := (call K_eq_dec).
#[local] Abbreviation call_steps := (call_steps K_eq_dec).
#[local] Abbreviation run := (run K_eq_dec).
#[local] Abbreviation trace := (trace K_eq_dec).
#[local] Abbreviation rest_points := (rest_points K_eq_dec).
#[local] Abbreviation good := (@good K V).

Implicit Types (k : K) (v : V) (d : OrderedDict) (c : LRUCache).

Lemma contains_In k d : contains k d = true <-> In k (keys d).
Proof.
  induction d as [|[k' v'] r IH]; simpl.
  - split; [discriminate | tauto].
  - destruct (K_eq_dec k k') as [->|Hne].
    + split; auto.
    + rewrite IH. split; [auto | intros [E|H]; [congruence | exact H]].
Qed.

Lemma contains_false k d : contains k d = false <-> ~ In k (keys d).
Proof.
  rewrite <- contains_In. destruct (contains k d); split; congruence.
Qed.

(** A present key splits the dictionary at its item. *)
Lemma contains_split k d :
  contains k d = true ->
  exists d1 v d2, d = d1 ++ (k, v) :: d2 /\ ~ In k (keys d1).
Proof.
  induction d as [|[k' v'] r IH]; simpl; [discriminate|].
  destruct (K_eq_dec k k') as [->|Hne]; intros H.
  - exists [], v', r. split; [reflexivity | intros []].
  - destruct (IH H) as (d1 & v & d2 & -> & Hn).
    exists ((k', v') :: d1), v, d2. split; [reflexivity|].
    simpl. intros [E|E]; [congruence | tauto].
Qed.

Lemma getitem_at k v d1 d2 :
  ~ In k (keys d1) -> getitem k (d1 ++ (k, v) :: d2) = Returns v.
Proof.
  induction d1 as [|[k' v'] r IH]; simpl; intros Hn.
  - destruct (K_eq_dec k k); [reflexivity | congruence].
  - destruct (K_eq_dec k k') as [->|Hne]; [tauto | apply IH; tauto].
Qed.

Lemma getitem_absent k d : ~ In k (keys d) -> getitem k d = Raises KeyError.
Proof.
  induction d as [|[k' v'] r IH]; simpl; intros Hn; [reflexivity|].
  destruct (K_eq_dec k k') as [->|Hne]; [tauto | apply IH; tauto].
Qed.

Lemma move_to_end_at k v d1 d2 :
  ~ In k (keys d1) ->
  move_to_end k (d1 ++ (k, v) :: d2) = Returns (d1 ++ d2 ++ [(k, v)]).
Proof.
  induction d1 as [|[k' v'] r IH]; simpl; intros Hn.
  - destruct (K_eq_dec k k); [reflexivity | congruence].
  - destruct (K_eq_dec k k') as [->|Hne]; [tauto|].
    rewrite IH by tauto. reflexivity.
Qed.

Lemma setitem_at k v v' d1 d2 :
  ~ In k (keys d1) ->
  setitem k v' (d1 ++ (k, v) :: d2) = d1 ++ (k, v') :: d2.
Proof.
  induction d1 as [|[k' w] r IH]; simpl; intros Hn.
  - destruct (K_eq_dec k k); [reflexivity | congruence].
  - destruct (K_eq_dec k k') as [->|Hne]; [tauto|].
    rewrite IH by tauto. reflexivity.
Qed.

Lemma setitem_absent k v d : ~ In k (keys d) -> setitem k v d = d ++ [(k, v)].
Proof.
  induction d as [|[k' w] r IH]; simpl; intros Hn; [reflexivity|].
  destruct (K_eq_dec k k') as [->|Hne]; [tauto|].
  rewrite IH by tauto. reflexivity.
Qed.

Lemma keys_app d1 d2 : keys (d1 ++ d2) = keys d1 ++ keys d2.
Proof. apply map_app. Qed.

Lemma without_absent k d : ~ In k (keys d) -> without k d = d.
Proof.
  induction d as [|[k' w] r IH]; simpl; intros Hn; [reflexivity|].
  destruct (K_eq_dec k k') as [->|Hne]; [tauto|].
  rewrite IH by tauto. reflexivity.
Qed.

Lemma without_app k d1 d2 : without k (d1 ++ d2) = without k d1 ++ without k d2.
Proof. apply filter_app. Qed.

Lemma without_here k v : without k [(k, v)] = [].
Proof. simpl. destruct (K_eq_dec k k); [reflexivity | congruence]. Qed.

Lemma without_other k k' v : k <> k' -> without k [(k', v)] = [(k', v)].
Proof. intros H. simpl. destruct (K_eq_dec k k'); [congruence | reflexivity]. Qed.

(** In a well-formed dictionary the key of an item occurs nowhere else. *)
Lemma wf_split k v d1 d2 :
  wf (d1 ++ (k, v) :: d2) -> ~ In k (keys d1) /\ ~ In k (keys d2) /\ wf (d1 ++ d2).
Proof.
  unfold wf. rewrite !keys_app. simpl. intros H.
  pose proof (NoDup_remove_1 _ _ _ H) as H1.
  pose proof (NoDup_remove_2 _ _ _ H) as H2.
  rewrite in_app_iff in H2. tauto.
Qed.

Lemma wf_move k v d1 d2 : wf (d1 ++ (k, v) :: d2) -> wf (d1 ++ d2 ++ [(k, v)]).
Proof.
  unfold wf. intros H.
  apply (Permutation_NoDup (l := keys (d1 ++ (k, v) :: d2))); [|exact H].
  unfold keys. rewrite !map_app. simpl.
  apply Permutation_app_head.
  change (k :: map fst d2) with ([k] ++ map fst d2). apply Permutation_app_comm.
Qed.

Lemma without_at k v d1 d2 :
  wf (d1 ++ (k, v) :: d2) -> without k (d1 ++ (k, v) :: d2) = d1 ++ d2.
Proof.
  intros H. destruct (wf_split _ _ _ _ H) as (H1 & H2 & _).
  change ((k, v) :: d2) with ([(k, v)] ++ d2).
  rewrite !without_app, without_here, !without_absent by assumption.
  reflexivity.
Qed.

Lemma with_items_id c : with_items c (items c) = c.
Proof. destruct c; reflexivity. Qed.

(** [get] on a present key: its value, and the item moved last. *)
Lemma get_hit k v d1 d2 c :
  items c = d1 ++ (k, v) :: d2 -> wf (items c) ->
  get k c = Returns (Some v, with_items c (d1 ++ d2 ++ [(k, v)])).
Proof.
  intros E Hwf. rewrite E in Hwf.
  destruct (wf_split _ _ _ _ Hwf) as (H1 & H2 & _).
  unfold get. rewrite E.
  assert (Hc : contains k (d1 ++ (k, v) :: d2) = true).
  { apply contains_In. rewrite keys_app, in_app_iff. simpl. auto. }
  rewrite Hc. simpl. rewrite move_to_end_at by assumption. simpl.
  rewrite app_assoc, getitem_at; [reflexivity|].
  rewrite keys_app, in_app_iff. tauto.
Qed.

(** [get] on a missing key. *)
Lemma get_miss k c :
  ~ In k (keys (items c)) -> get k c = Returns (None, c).
Proof.
  intros H. unfold get. apply contains_false in H. rewrite H. reflexivity.
Qed.

(** [put] in one equation: the key goes last with the new value, the other
    items keep their order, and on overflow the first item leaves. *)
Lemma put_eq k v c :
  wf (items c) ->
  put k v c =
  Returns (with_items c (overflow (capacity c) (without k (items c) ++ [(k, v)]))).
Proof.
  intros Hwf. unfold put.
  destruct (contains k (items c)) eqn:Hc.
  - destruct (contains_split _ _ Hc) as (d1 & v0 & d2 & E & Hn).
    rewrite E in *. rewrite move_to_end_at by assumption. simpl.
    destruct (wf_split _ _ _ _ Hwf) as (_ & H2 & _).
    rewrite (app_assoc d1 d2), setitem_at
      by (rewrite keys_app, in_app_iff; tauto).
    rewrite without_at by assumption.
    unfold overflow.
    destruct (len ((d1 ++ d2) ++ [(k, v)]) >? capacity c)%Z; [|reflexivity].
    destruct ((d1 ++ d2) ++ [(k, v)]) as [|kv r] eqn:E'; [|reflexivity].
    destruct (d1 ++ d2); discriminate.
  - simpl. apply contains_false in Hc.
    rewrite setitem_absent, without_absent by assumption.
    unfold overflow.
    destruct (len (items c ++ [(k, v)]) >? capacity c)%Z; [|reflexivity].
    destruct (items c ++ [(k, v)]) as [|kv r] eqn:E'; [|reflexivity].
    destruct (items c); discriminate.
Qed.

Lemma wf_without k d : wf d -> wf (without k d).
Proof.
  unfold wf. induction d as [|[k' w] r IH]; simpl; intros H; [constructor|].
  inversion H as [|? ? Hn Hr]; subst.
  destruct (K_eq_dec k k'); [auto|]. simpl. constructor; [|auto].
  intros Hin. apply Hn. unfold keys in *. rewrite in_map_iff in *.
  destruct Hin as (x & Hx & Hf). exists x. split; [exact Hx|].
  apply filter_In in Hf. tauto.
Qed.

Lemma keys_without k k' d :
  In k' (keys (without k d)) <-> In k' (keys d) /\ k' <> k.
Proof.
  unfold keys, without. rewrite !in_map_iff. split.
  - intros ([a b] & E & Hin). apply filter_In in Hin. simpl in *.
    destruct Hin as [Hin Hf]. subst a.
    destruct (K_eq_dec k k'); [discriminate|].
    split; [exists (k', b); auto | congruence].
  - intros [([a b] & E & Hin) Hne]. simpl in E. subst a.
    exists (k', b). split; [reflexivity|]. apply filter_In. split; [exact Hin|].
    simpl. destruct (K_eq_dec k k'); [congruence | reflexivity].
Qed.

Lemma wf_put_items k v d : wf d -> wf (without k d ++ [(k, v)]).
Proof.
  intros H. unfold wf. rewrite keys_app. simpl.
  apply (Permutation_NoDup (l := k :: keys (without k d))).
  - change (k :: keys (without k d)) with ([k] ++ keys (without k d)).
    apply Permutation_app_comm.
  - constructor; [|apply wf_without; exact H].
    rewrite keys_without. tauto.
Qed.

Lemma wf_tl d : wf d -> wf (tl d).
Proof.
  unfold wf. destruct d as [|kv r]; simpl; [auto|].
  intros H. inversion H; assumption.
Qed.

Lemma wf_overflow cap d : wf d -> wf (overflow cap d).
Proof.
  intros H. unfold overflow. destruct (len d >? cap)%Z; [apply wf_tl|]; exact H.
Qed.

Lemma length_without_present k d :
  wf d -> In k (keys d) -> S (List.length (without k d)) = List.length d.
Proof.
  intros Hwf Hin. apply contains_In in Hin.
  destruct (contains_split _ _ Hin) as (d1 & v & d2 & -> & _).
  rewrite without_at by assumption. rewrite !length_app. simpl. lia.
Qed.

Lemma getitem_app_other k k' v d :
  k' <> k -> getitem k' (d ++ [(k, v)]) = getitem k' d.
Proof.
  intros Hne. induction d as [|[a b] r IH]; simpl.
  - destruct (K_eq_dec k' k); [congruence | reflexivity].
  - destruct (K_eq_dec k' a); [reflexivity | exact IH].
Qed.

Lemma getitem_without_other k k' d :
  k' <> k -> getitem k' (without k d) = getitem k' d.
Proof.
  intros Hne. induction d as [|[a b] r IH]; simpl; [reflexivity|].
  destruct (K_eq_dec k a) as [->|Hka]; simpl.
  - destruct (K_eq_dec k' a); [congruence | exact IH].
  - destruct (K_eq_dec k' a); [reflexivity | exact IH].
Qed.

Lemma getitem_last k v d : ~ In k (keys d) -> getitem k (d ++ [(k, v)]) = Returns v.
Proof. intros H. apply getitem_at; exact H. Qed.

(** The statements of [put] and its result agree: [put] ends in the last
    state [put_steps] lists. *)
Lemma put_steps_last k v c :
  put k v c = (l <- put_steps k v c ;; Returns (last l c))%py.
Proof.
  unfold put, put_steps.
  destruct (if contains k (items c) then move_to_end k (items c)
            else Returns (items c)) as [d1|e]; simpl; [|reflexivity].
  destruct (len (setitem k v d1) >? capacity c)%Z; [|reflexivity].
  destruct (popitem_first (setitem k v d1)) as [[kv d3]|e]; reflexivity.
Qed.

(** The states inside a [put], for a well-formed cache. *)
Lemma put_steps_eq k v c :
  wf (items c) ->
  exists d1, List.length d1 = List.length (items c) /\
    put_steps k v c =
    Returns (with_items c d1 :: with_items c (without k (items c) ++ [(k, v)])
             :: (if (len (without k (items c) ++ [(k, v)]) >? capacity c)%Z
                 then [with_items c (tl (without k (items c) ++ [(k, v)]))]
                 else [])).
Proof.
  intros Hwf. unfold put_steps.
  destruct (contains k (items c)) eqn:Hc.
  - destruct (contains_split _ _ Hc) as (d1 & v0 & d2 & E & Hn).
    rewrite E in *. rewrite move_to_end_at by assumption. simpl.
    destruct (wf_split _ _ _ _ Hwf) as (_ & H2 & _).
    exists (d1 ++ d2 ++ [(k, v0)]). split.
    { rewrite !length_app. simpl. lia. }
    rewrite (app_assoc d1 d2), setitem_at
      by (rewrite keys_app, in_app_iff; tauto).
    rewrite without_at by assumption.
    destruct (len ((d1 ++ d2) ++ [(k, v)]) >? capacity c)%Z; [|reflexivity].
    destruct ((d1 ++ d2) ++ [(k, v)]) as [|kv r] eqn:E'; [|reflexivity].
    destruct (d1 ++ d2); discriminate.
  - simpl. apply contains_false in Hc. exists (items c). split; [reflexivity|].
    rewrite setitem_absent, without_absent by assumption.
    destruct (len (items c ++ [(k, v)]) >? capacity c)%Z; [|reflexivity].
    destruct (items c ++ [(k, v)]) as [|kv r] eqn:E'; [|reflexivity].
    destruct (items c); discriminate.
Qed.

Lemma len_without_put k v d : (len (without k d ++ [(k, v)]) <= len d + 1)%Z.
Proof.
  unfold len. rewrite length_app. simpl.
  pose proof (filter_length_le (fun kv => if K_eq_dec k (fst kv) then false else true) d).
  unfold without. lia.
Qed.

Lemma len_overflow cap d :
  (0 <= cap)%Z -> (len d <= cap + 1)%Z -> (len (overflow cap d) <= cap)%Z.
Proof.
  intros H0 H1. unfold overflow. destruct (Z.gtb_spec (len d) cap) as [Hgt|Hle]; [|lia].
  unfold len in *. destruct d; simpl List.length in *; lia.
Qed.


Lemma good_put k v c :
  good c -> exists c', put k v c = Returns c' /\ good c' /\ capacity c' = capacity c.
Proof.
  intros [Hwf Hb]. rewrite put_eq by assumption. eexists. split; [reflexivity|].
  split; [|reflexivity]. split; simpl.
  - apply wf_overflow, wf_put_items, Hwf.
  - unfold within_capacity in *. simpl.
    pose proof (len_without_put k v (items c)).
    apply len_overflow; unfold len in *; lia.
Qed.

Lemma good_get k c :
  good c ->
  exists a c', get k c = Returns (a, c') /\ good c' /\ capacity c' = capacity c.
Proof.
  intros [Hwf Hb]. destruct (contains k (items c)) eqn:Hc.
  - destruct (contains_split _ _ Hc) as (d1 & v & d2 & E & Hn).
    rewrite (get_hit k v d1 d2 c E Hwf). do 2 eexists. split; [reflexivity|].
    split; [|reflexivity]. split; simpl.
    + rewrite E in Hwf. apply wf_move, Hwf.
    + unfold within_capacity in *. simpl. rewrite E in Hb. unfold len in *.
      repeat (rewrite length_app in *; simpl in * ). lia.
  - apply contains_false in Hc. rewrite get_miss by assumption.
    do 2 eexists. split; [reflexivity|]. split; [split; assumption | reflexivity].
Qed.

Lemma good_call o c :
  good c ->
  exists a c', call o c = Returns (a, c') /\ good c' /\ capacity c' = capacity c.
Proof.
  intros H. destruct o as [k|k v]; simpl.
  - apply good_get, H.
  - destruct (good_put k v c H) as (c' & -> & Hg & Hc). simpl. eauto.
Qed.

(** The states inside one call stay within capacity plus one, and the call
    ends in the last of them. *)
Lemma call_steps_bound o c :
  good c ->
  exists l a c', call_steps o c = Returns l /\ call o c = Returns (a, c') /\
    last l c = c' /\
    Forall (fun c1 => (len (items c1) <= capacity c + 1)%Z) l.
Proof.
  intros Hg. destruct o as [k|k v]; simpl.
  - destruct (good_get k c Hg) as (a & c' & E & [_ Hb] & Hc). rewrite E. simpl.
    exists [c'], a, c'. repeat split; auto. constructor; [|constructor].
    unfold within_capacity in Hb. lia.
  - destruct Hg as [Hwf Hb].
    destruct (put_steps_eq k v c Hwf) as (d1 & Hlen & E).
    pose proof (put_steps_last k v c) as Hl. rewrite E in *. simpl in Hl.
    rewrite Hl. simpl. eexists _, None, _. repeat split.
    pose proof (len_without_put k v (items c)) as Hw.
    unfold within_capacity in Hb.
    constructor; [simpl; unfold len in *; lia|].
    constructor; [simpl; lia|].
    destruct (len (without k (items c) ++ [(k, v)]) >? capacity c)%Z;
      constructor; [|constructor]. simpl.
    unfold len in *. destruct (without k (items c) ++ [(k, v)]); simpl in *; lia.
Qed.

Lemma trace_bound ops : forall c,
  good c ->
  exists l, trace ops c = Returns l /\
    Forall (fun c1 => (len (items c1) <= capacity c + 1)%Z) l.
Proof.
  induction ops as [|o r IH]; intros c Hg; simpl.
  - exists [c]. split; [reflexivity|]. constructor; [|constructor].
    destruct Hg as [_ Hb]. unfold within_capacity in Hb. lia.
  - destruct (call_steps_bound o c Hg) as (l1 & a & c' & E1 & E2 & El & Hall).
    destruct (good_call o c Hg) as (a' & c'' & E2' & Hg' & Hcap).
    rewrite E2 in E2'. injection E2' as <- <-.
    rewrite E1. simpl. rewrite El.
    destruct (IH c' Hg') as (l2 & E3 & Hall2). rewrite E3. simpl.
    eexists. split; [reflexivity|].
    constructor.
    { destruct Hg as [_ Hb]. unfold within_capacity in Hb. lia. }
    apply Forall_app. split.
    + apply Forall_forall. intros x Hx. rewrite Forall_forall in Hall.
      apply Hall. destruct l1 as [|y l1]; [destruct Hx|].
      pose proof (@app_removelast_last _ (y :: l1) c ltac:(discriminate)) as Happ.
      rewrite Happ. apply in_or_app. left. exact Hx.
    + rewrite Hcap in Hall2. exact Hall2.
Qed.

Lemma rest_points_bound ops : forall c,
  good c ->
  exists l, rest_points ops c = Returns l /\
    Forall (fun c1 => (len (items c1) <= capacity c)%Z) l.
Proof.
  induction ops as [|o r IH]; intros c Hg; simpl.
  - exists [c]. split; [reflexivity|]. constructor; [|constructor].
    destruct Hg as [_ Hb]. exact Hb.
  - destruct (good_call o c Hg) as (a & c' & E & Hg' & Hcap). rewrite E. simpl.
    destruct (IH c' Hg') as (l & El & Hall). rewrite El. simpl.
    eexists. split; [reflexivity|]. constructor.
    + destruct Hg as [_ Hb]. exact Hb.
    + rewrite Hcap in Hall. exact Hall.
Qed.

Lemma good_init cap : (0 <= cap)%Z -> good (init K V cap).
Proof.
  intros H. split; [constructor|]. unfold within_capacity. simpl. exact H.
Qed.

(** ** The calls return *)

Lemma move_to_end_returns k d :
  contains k d = true ->
  exists d', move_to_end k d = Returns d' /\ contains k d' = true.
Proof.
  intros H. destruct (contains_split _ _ H) as (d1 & v & d2 & -> & Hn).
  rewrite move_to_end_at by assumption. eexists. split; [reflexivity|].
  apply contains_In. rewrite !keys_app, !in_app_iff. simpl. auto.
Qed.

Lemma getitem_returns k d :
  contains k d = true -> exists v, getitem k d = Returns v.
Proof.
  intros H. destruct (contains_split _ _ H) as (d1 & v & d2 & -> & Hn).
  rewrite getitem_at by assumption. eauto.
Qed.

(** [get] never raises: it answers [None] for a missing key and the value
    of a present one. *)
Lemma get_returns k c :
  exists a c', get k c = Returns (a, c') /\ capacity c' = capacity c /\
               (a = None -> c' = c /\ contains k (items c) = false) /\
               (forall v, a = Some v -> getitem k (items c') = Returns v).
Proof.
  unfold get. destruct (contains k (items c)) eqn:Hc; simpl.
  - destruct (move_to_end_returns _ _ Hc) as (d' & -> & Hc'). simpl.
    destruct (getitem_returns _ _ Hc') as (v & Hv). rewrite Hv. simpl.
    do 2 eexists. split; [reflexivity|]. split; [reflexivity|].
    split; [discriminate|]. intros v' E. injection E as <-. exact Hv.
  - do 2 eexists. split; [reflexivity|]. split; [reflexivity|].
    split; [auto | discriminate].
Qed.

Lemma setitem_nonempty k v d : setitem k v d <> [].
Proof.
  destruct d as [|[k' v'] r]; simpl; [discriminate|].
  destruct (K_eq_dec k k'); discriminate.
Qed.

(** [put] never raises. *)
Lemma put_returns k v c :
  exists c', put k v c = Returns c' /\ capacity c' = capacity c.
Proof.
  unfold put.
  assert (H : exists d1, (if contains k (items c) then move_to_end k (items c)
                          else Returns (items c)) = Returns d1).
  { destruct (contains k (items c)) eqn:Hc; [|eauto].
    destruct (move_to_end_returns _ _ Hc) as (d' & -> & _). eauto. }
  destruct H as (d1 & ->). simpl.
  destruct (len (setitem k v d1) >? capacity c)%Z.
  - pose proof (setitem_nonempty k v d1).
    destruct (setitem k v d1); [congruence|]. simpl. eauto.
  - eauto.
Qed.

(** ** What the calls leave in the cache *)

Lemma get_some k v c c' :
  wf (items c) -> get k c = Returns (Some v, c') ->
  In (k, v) (items c) /\ wf (items c') /\
  (forall kv, In kv (items c') <-> In kv (items c)).
Proof.
  intros Hwf Hg. destruct (contains k (items c)) eqn:Hc.
  - destruct (contains_split _ _ Hc) as (d1 & v0 & d2 & E & _).
    rewrite (get_hit k v0 d1 d2 c E Hwf) in Hg. injection Hg as <- <-.
    simpl. rewrite E in *. split; [apply in_elt|].
    split; [apply wf_move, Hwf|].
    intros kv. rewrite !in_app_iff. simpl. tauto.
  - unfold get in Hg. rewrite Hc in Hg. discriminate.
Qed.

Lemma In_overflow cap d kv : In kv (overflow cap d) -> In kv d.
Proof.
  unfold overflow. destruct (len d >? cap)%Z; [|auto].
  destruct d; simpl; auto.
Qed.

Lemma put_items k v c c' :
  wf (items c) -> put k v c = Returns c' ->
  wf (items c') /\
  (forall kv, In kv (items c') -> kv = (k, v) \/ In kv (items c)).
Proof.
  intros Hwf Hp. rewrite (put_eq k v c Hwf) in Hp. injection Hp as <-. simpl.
  split; [apply wf_overflow, wf_put_items, Hwf|].
  intros kv Hin. apply In_overflow in Hin. apply in_app_iff in Hin.
  destruct Hin as [Hin|[<-|[]]]; [|auto].
  right. unfold LRU.without in Hin. apply filter_In in Hin. tauto.
Qed.

(** After [put] with a capacity of at least one the key is the last item. *)
Lemma put_leaves_key_last k v c :
  wf (items c) -> (1 <= capacity c)%Z ->
  exists d',
    put k v c = Returns (with_items c (d' ++ [(k, v)])) /\
    ~ In k (keys d') /\ wf (d' ++ [(k, v)]).
Proof.
  intros Hwf Hcap. rewrite (put_eq k v c Hwf).
  set (d := without k (items c)).
  assert (Hd : ~ In k (keys d)).
  { subst d. rewrite keys_without. tauto. }
  assert (Hwfd : wf (d ++ [(k, v)])) by (apply wf_put_items, Hwf).
  unfold LRU.overflow. destruct (Z.gtb_spec (len (d ++ [(k, v)])) (capacity c)).
  - destruct d as [|kv r].
    + unfold len in *. simpl in *. lia.
    + exists r. simpl. split; [reflexivity|]. split.
      * simpl in Hd. tauto.
      * apply (wf_tl ((kv :: r) ++ [(k, v)]) Hwfd).
  - exists d. auto.
Qed.

(** A key that is the last item is found, and the cache stays as it is. *)
Lemma get_last k v d' c :
  items c = d' ++ [(k, v)] -> wf (items c) ->
  get k c = Returns (Some v, c).
Proof.
  intros E Hwf. rewrite (get_hit k v d' [] c E Hwf).
  simpl. rewrite <- E, with_items_id. reflexivity.
Qed.

(** What [put] stores [get] finds, where the capacity is one at least. *)
Lemma put_get k v c c' :
  wf (items c) -> (1 <= capacity c)%Z ->
  put k v c = Returns c' -> get k c' = Returns (Some v, c').
Proof.
  intros Hwf Hcap Hp.
  destruct (put_leaves_key_last k v c Hwf Hcap) as (d' & Hp' & _ & Hwf').
  rewrite Hp' in Hp. injection Hp as <-.
  apply (get_last k v d'); [reflexivity | exact Hwf'].
Qed.

(** C2, as the code has it: for a capacity [cap >= 0], whatever the calls,
    the cache holds at most [cap] entries between calls, and at most
    [cap + 1] at the points inside a call, where [put] has inserted and not
    yet evicted. *)
Theorem capacity_bound_between_calls cap ops :
  (0 <= cap)%Z ->
  (exists l, rest_points ops (init K V cap) = Returns l /\
             Forall (fun c => (len (items c) <= cap)%Z) l) /\
  (exists l, trace ops (init K V cap) = Returns l /\
             Forall (fun c => (len (items c) <= cap + 1)%Z) l).
Proof.
  intros H. split.
  - apply (rest_points_bound ops _ (good_init cap H)).
  - apply (trace_bound ops _ (good_init cap H)).
Qed.

(** C9: [get] on a key that is not in the cache returns [None] and the cache
    it was called on, item for item and in the same order. *)
Theorem get_absent_unchanged k c :
  ~ In k (keys (items c)) -> get k c = Returns (None, c).
Proof. apply get_miss. Qed.

(** C10: in a cache within its capacity, [put] on a present key evicts
    nothing: the key is last with the new value, the other items keep their
    order and values, and the size and the set of keys are what they were. *)
Theorem put_present_replaces k v c :
  wf (items c) -> within_capacity c -> In k (keys (items c)) ->
  exists c',
    put k v c = Returns c' /\
    capacity c' = capacity c /\
    items c' = without k (items c) ++ [(k, v)] /\
    getitem k (items c') = Returns v /\
    List.length (items c') = List.length (items c) /\
    (forall k', In k' (keys (items c')) <-> In k' (keys (items c))) /\
    (forall k', k' <> k -> getitem k' (items c') = getitem k' (items c)).
Proof.
  intros Hwf Hb Hin. rewrite put_eq by assumption.
  pose proof (length_without_present k (items c) Hwf Hin) as Hlen.
  assert (Hover : overflow (capacity c) (without k (items c) ++ [(k, v)])
                  = without k (items c) ++ [(k, v)]).
  { unfold overflow, within_capacity, len in *. rewrite length_app. simpl.
    destruct (Z.gtb_spec (Z.of_nat (List.length (without k (items c)) + 1))
                         (capacity c)); [lia | reflexivity]. }
  eexists. split; [reflexivity|]. simpl. rewrite Hover.
  repeat split.
  - apply getitem_last. rewrite keys_without. tauto.
  - rewrite length_app. simpl. lia.
  - rewrite keys_app, in_app_iff, keys_without. simpl.
    intros [[H _]|[<-|[]]]; assumption.
  - intros H. rewrite keys_app, in_app_iff, keys_without. simpl.
    destruct (K_eq_dec k k'); [right; left; assumption | left; split; congruence].
  - intros k' Hne. rewrite getitem_app_other, getitem_without_other by assumption.
    reflexivity.
Qed.

(** ** The cache of the source refines the recency cache *)

#[local] Abbreviation entry := (Recency.entry K V).
#[local] Abbreviation e_key := (@Recency.e_key K V).
#[local] Abbreviation e_val := (@Recency.e_val K V).
#[local] Abbreviation e_used := (@Recency.e_used K V).
#[local] Abbreviation item := (@Recency.item K V).
#[local] Abbreviation find := (Recency.find K_eq_dec).
#[local] Abbreviation touch := (Recency.touch K_eq_dec).
#[local] Abbreviation lru := (@Recency.lru K V).
#[local] Abbreviation remove := (Recency.remove K_eq_dec).
#[local] Abbreviation evict := (Recency.evict K_eq_dec).
#[local] Abbreviation ordered_as := (@Recency.ordered_as K V).
#[local] Abbreviation refines := (@Recency.refines K V).

Lemma sorted_app_inv (a b : list nat) :
  StronglySorted lt (a ++ b) ->
  StronglySorted lt a /\ StronglySorted lt b /\
  (forall x y, In x a -> In y b -> x < y).
Proof.
  induction a as [|x a IH]; simpl; intros H.
  - repeat split; [constructor | exact H | intros ? ? []].
  - apply StronglySorted_inv in H. destruct H as [Hs Hall].
    destruct (IH Hs) as (Ha & Hb & Hab).
    rewrite Forall_app in Hall. destruct Hall as [H1 H2].
    repeat split; [constructor; assumption | assumption |].
    intros p q [<-|Hp] Hq.
    + rewrite Forall_forall in H2. auto.
    + auto.
Qed.

Lemma sorted_app (a b : list nat) :
  StronglySorted lt a -> StronglySorted lt b ->
  (forall x y, In x a -> In y b -> x < y) ->
  StronglySorted lt (a ++ b).
Proof.
  induction a as [|x a IH]; simpl; intros Ha Hb Hab; [exact Hb|].
  apply StronglySorted_inv in Ha. destruct Ha as [Ha Hall].
  constructor.
  - apply IH; auto.
  - apply Forall_app. split; [exact Hall|].
    apply Forall_forall. intros y Hy. apply Hab; auto.
Qed.

(** Moving one time stamp to the end with a value above all others keeps
    the list sorted. *)
Lemma sorted_move (a b : list nat) (t now : nat) :
  StronglySorted lt (a ++ t :: b) ->
  Forall (fun x => x < now) (a ++ t :: b) ->
  StronglySorted lt (a ++ b ++ [now]).
Proof.
  intros Hs Hall.
  destruct (sorted_app_inv _ _ Hs) as (Ha & Htb & Hab).
  apply StronglySorted_inv in Htb. destruct Htb as [Hb Htb].
  rewrite Forall_app in Hall. destruct Hall as [Hla Hlb].
  inversion Hlb as [|? ? _ Hlb']; subst.
  apply sorted_app; [exact Ha | |].
  - apply sorted_app; [exact Hb | repeat constructor |].
    intros x y Hx [<-|[]]. rewrite Forall_forall in Hlb'. auto.
  - intros x y Hx Hy. apply in_app_iff in Hy. destruct Hy as [Hy|[<-|[]]].
    + apply Hab; simpl; auto.
    + rewrite Forall_forall in Hla. auto.
Qed.

Lemma Permutation_filter {A} (f : A -> bool) (l l' : list A) :
  Permutation l l' -> Permutation (filter f l) (filter f l').
Proof.
  induction 1 as [|x l l' _ IH|x y l|l l' l'' _ IH1 _ IH2]; simpl.
  - constructor.
  - destruct (f x); [constructor|]; exact IH.
  - destruct (f x), (f y); try apply Permutation_refl. apply perm_swap.
  - eapply Permutation_trans; eassumption.
Qed.

Lemma keys_items (l : list entry) : map e_key l = keys (map item l).
Proof. unfold keys. rewrite map_map. reflexivity. Qed.

Lemma find_none k (es : list entry) :
  ~ In k (map e_key es) -> find k es = None.
Proof.
  induction es as [|e r IH]; simpl; intros H; [reflexivity|].
  destruct (K_eq_dec k (e_key e)); [exfalso; auto | apply IH; tauto].
Qed.

Lemma find_unique (es : list entry) (e : entry) :
  NoDup (map e_key es) -> In e es -> find (e_key e) es = Some e.
Proof.
  induction es as [|e' r IH]; simpl; intros Hnd Hin; [destruct Hin|].
  inversion Hnd as [|? ? Hn Hr]; subst.
  destruct Hin as [->|Hin].
  - destruct (K_eq_dec (e_key e) (e_key e)); [reflexivity | congruence].
  - destruct (K_eq_dec (e_key e) (e_key e')) as [E|_]; [|auto].
    exfalso. apply Hn. rewrite <- E. apply in_map. exact Hin.
Qed.

Lemma touch_other k now nv (l : list entry) :
  ~ In k (map e_key l) -> touch k now nv l = l.
Proof.
  induction l as [|e r IH]; simpl; intros H; [reflexivity|].
  destruct (K_eq_dec k (e_key e)); [exfalso; auto|].
  f_equal. apply IH. tauto.
Qed.

Lemma remove_other k (l : list entry) :
  ~ In k (map e_key l) -> remove k l = l.
Proof.
  induction l as [|e r IH]; simpl; intros H; [reflexivity|].
  destruct (K_eq_dec k (e_key e)); [exfalso; auto|].
  f_equal. apply IH. tauto.
Qed.

Lemma wf_keys d d' : keys d = keys d' -> wf d -> wf d'.
Proof. unfold wf. intros ->. auto. Qed.

Lemma ordered_keys d es now :
  ordered_as d es now -> Permutation (map e_key es) (keys d) /\ NoDup (map e_key es).
Proof.
  intros (l & Hp & Hm & _ & _ & Hwf).
  assert (Hk : Permutation (map e_key es) (keys d)).
  { rewrite <- Hm, <- keys_items. apply Permutation_map, Hp. }
  split; [exact Hk|].
  apply (Permutation_NoDup (Permutation_sym Hk)). exact Hwf.
Qed.

Lemma ordered_length d es now :
  ordered_as d es now -> List.length es = List.length d.
Proof.
  intros (l & Hp & Hm & _). rewrite (Permutation_length Hp), <- Hm.
  symmetry. apply length_map.
Qed.

Lemma ordered_later d es now now' :
  now <= now' -> ordered_as d es now -> ordered_as d es now'.
Proof.
  intros Hle (l & Hp & Hm & Hs & Hall & Hwf). exists l. repeat split; auto.
  eapply Forall_impl; [|exact Hall]. simpl. intros. lia.
Qed.

Lemma ordered_find_absent d es now k :
  ordered_as d es now -> ~ In k (keys d) -> find k es = None.
Proof.
  intros H Hn. apply find_none. destruct (ordered_keys _ _ _ H) as [Hp _].
  intros Hin. apply Hn. eapply Permutation_in; eassumption.
Qed.

(** The sorted entries behind a dictionary split where the dictionary does. *)
Lemma items_split (l : list entry) k v d1 d2 :
  map item l = d1 ++ (k, v) :: d2 ->
  exists l1 e l2, l = l1 ++ e :: l2 /\ map item l1 = d1 /\
                  e_key e = k /\ e_val e = v /\ map item l2 = d2.
Proof.
  intros H. apply map_eq_app in H. destruct H as (l1 & l2' & -> & H1 & H2).
  apply map_eq_cons in H2. destruct H2 as (e & l2 & -> & He & H2).
  exists l1, e, l2. unfold Recency.item in He. injection He as Hk Hv.
  repeat split; assumption.
Qed.

Lemma ordered_find_present d1 d2 es now k v :
  ordered_as (d1 ++ (k, v) :: d2) es now ->
  exists e, find k es = Some e /\ e_val e = v.
Proof.
  intros H. destruct (ordered_keys _ _ _ H) as [_ Hnd].
  destruct H as (l & Hp & Hm & _).
  destruct (items_split _ _ _ _ _ Hm) as (l1 & e & l2 & -> & _ & Hk & Hv & _).
  exists e. split; [|exact Hv]. rewrite <- Hk. apply find_unique; [exact Hnd|].
  apply (Permutation_in _ (Permutation_sym Hp)). apply in_elt.
Qed.

(** Touching the entry of a present key is moving its item last. *)
Lemma ordered_touch d1 d2 es now k v0 nv :
  ordered_as (d1 ++ (k, v0) :: d2) es now ->
  ordered_as (d1 ++ d2 ++ [(k, match nv with Some v => v | None => v0 end)])
             (touch k now nv es) (S now).
Proof.
  intros (l & Hp & Hm & Hs & Hall & Hwf).
  destruct (items_split _ _ _ _ _ Hm) as (l1 & e & l2 & -> & H1 & Hk & Hv & H2).
  destruct (wf_split _ _ _ _ Hwf) as (Hn1 & Hn2 & _).
  rewrite <- H1, <- keys_items in Hn1. rewrite <- H2, <- keys_items in Hn2.
  set (v' := match nv with Some v => v | None => v0 end).
  exists (l1 ++ l2 ++ [Recency.mkEntry k v' now]). repeat split.
  - apply (Permutation_trans (Permutation_map _ Hp)).
    change (Permutation (touch k now nv (l1 ++ e :: l2))
                        (l1 ++ l2 ++ [Recency.mkEntry k v' now])).
    unfold Recency.touch. rewrite map_app. simpl.
    fold (touch k now nv l1). fold (touch k now nv l2).
    rewrite !touch_other by assumption.
    destruct (K_eq_dec k (e_key e)) as [_|Hne]; [|congruence].
    rewrite Hk, Hv. fold v'. apply Permutation_app_head.
    apply Permutation_cons_append.
  - rewrite !map_app, H1, H2. reflexivity.
  - assert (Hall' : Forall (fun x => x < now) (map e_used (l1 ++ e :: l2)))
      by (rewrite Forall_map; exact Hall).
    rewrite !map_app in *. simpl in *.
    apply (sorted_move _ _ (e_used e)); assumption.
  - rewrite Forall_app in *. destruct Hall as [Ha Hb].
    inversion Hb as [|? ? _ Hb']; subst.
    split; [|apply Forall_app; split].
    + eapply Forall_impl; [|exact Ha]. simpl. intros. lia.
    + eapply Forall_impl; [|exact Hb']. simpl. intros. lia.
    + repeat constructor.
  - apply wf_move in Hwf. revert Hwf. apply wf_keys.
    rewrite !keys_app. reflexivity.
Qed.

(** Adding an entry for a new key is adding its item last. *)
Lemma ordered_append d es now k v :
  ordered_as d es now -> ~ In k (keys d) ->
  ordered_as (d ++ [(k, v)]) (es ++ [Recency.mkEntry k v now]) (S now).
Proof.
  intros (l & Hp & Hm & Hs & Hall & Hwf) Hn.
  exists (l ++ [Recency.mkEntry k v now]). repeat split.
  - apply Permutation_app_tail, Hp.
  - rewrite map_app, Hm. reflexivity.
  - rewrite map_app. simpl. apply sorted_app; [exact Hs | repeat constructor |].
    intros x y Hx [<-|[]]. apply in_map_iff in Hx. destruct Hx as (e & <- & He).
    rewrite Forall_forall in Hall. auto.
  - apply Forall_app. split; [|repeat constructor].
    eapply Forall_impl; [|exact Hall]. simpl. intros. lia.
  - rewrite <- (without_absent k d Hn). apply wf_put_items, Hwf.
Qed.

(** The least recently used entry is one of the entries and none was used
    before it. *)
Lemma lru_least (es : list entry) :
  es <> [] ->
  exists m, lru es = Some m /\ In m es /\
            Forall (fun e => e_used m <= e_used e) es.
Proof.
  induction es as [|e r IH]; [congruence|]. intros _. simpl.
  destruct r as [|e' r'].
  - exists e. simpl. repeat split; auto.
  - destruct IH as (m & -> & Hin & Hall); [discriminate|].
    destruct (Nat.leb_spec (e_used e) (e_used m)) as [Hle|Hgt].
    + exists e. repeat split; [left; reflexivity|].
      constructor; [lia|]. eapply Forall_impl; [|exact Hall]. simpl. intros. lia.
    + exists m. repeat split; [right; exact Hin|].
      constructor; [lia | exact Hall].
Qed.

(** Evicting the least recently used entry is dropping the first item. *)
Lemma ordered_evict d es now :
  ordered_as d es now -> d <> [] -> ordered_as (tl d) (evict es) now.
Proof.
  intros H Hd. destruct (ordered_keys _ _ _ H) as [_ Hnd].
  destruct H as (l & Hp & Hm & Hs & Hall & Hwf).
  destruct l as [|e0 l']; [destruct d; [congruence | discriminate]|].
  simpl in Hm. subst d. simpl in *.
  apply StronglySorted_inv in Hs. destruct Hs as [Hs Hlt].
  unfold wf in Hwf. simpl in Hwf. inversion Hwf as [|? ? Hn0 Hwf']; subst.
  assert (Hes : es <> []).
  { intros ->. apply Permutation_nil in Hp. discriminate. }
  destruct (lru_least es Hes) as (m & Hlru & Hin & Hmin).
  assert (Hm0 : m = e0).
  { pose proof (Permutation_in _ Hp Hin) as Hin'. destruct Hin' as [E|Hin']; [auto|].
    exfalso. rewrite Forall_forall in Hlt, Hmin.
    assert (e_used e0 < e_used m) by (apply Hlt, in_map, Hin').
    assert (e_used m <= e_used e0).
    { apply Hmin. apply (Permutation_in _ (Permutation_sym Hp)). left. reflexivity. }
    lia. }
  subst m. exists l'. repeat split; auto.
  - unfold Recency.evict. rewrite Hlru.
    apply (Permutation_trans (Permutation_filter _ _ _ Hp)). simpl.
    destruct (K_eq_dec (e_key e0) (e_key e0)); [|congruence].
    fold (remove (e_key e0) l'). rewrite remove_other; [apply Permutation_refl|].
    rewrite keys_items. exact Hn0.
  - inversion Hall; assumption.
Qed.

Lemma get_refines k c s :
  refines c s ->
  exists a c' s', get k c = Returns (a, c') /\
                  Recency.get K_eq_dec k s = (a, s') /\ refines c' s'.
Proof.
  intros [Hcap Hord]. pose proof Hord as (_ & _ & _ & _ & _ & Hwf).
  unfold Recency.get. destruct (contains k (items c)) eqn:Hc.
  - destruct (contains_split _ _ Hc) as (d1 & v & d2 & E & _).
    rewrite (get_hit k v d1 d2 c E Hwf). rewrite E in Hord.
    destruct (ordered_find_present _ _ _ _ _ _ Hord) as (e & -> & <-).
    do 3 eexists. split; [reflexivity|]. split; [reflexivity|].
    split; [exact Hcap|]. simpl.
    apply (ordered_touch d1 d2 _ _ k (e_val e) None Hord).
  - apply contains_false in Hc. rewrite (get_miss k c Hc).
    rewrite (ordered_find_absent _ _ _ k Hord Hc).
    do 3 eexists. split; [reflexivity|]. split; [reflexivity|].
    split; assumption.
Qed.

Lemma put_refines k v c s :
  refines c s ->
  exists c', put k v c = Returns c' /\ refines c' (Recency.put K_eq_dec k v s).
Proof.
  intros [Hcap Hord]. pose proof Hord as (_ & _ & _ & _ & _ & Hwf).
  rewrite (put_eq k v c Hwf). eexists. split; [reflexivity|].
  split; [exact Hcap|]. unfold Recency.put. simpl.
  set (es1 := match find k (Recency.entries s) with
              | Some _ => touch k (Recency.clock s) (Some v) (Recency.entries s)
              | None => Recency.entries s ++ [Recency.mkEntry k v (Recency.clock s)]
              end).
  assert (Hpre : ordered_as (without k (items c) ++ [(k, v)]) es1
                            (S (Recency.clock s))).
  { subst es1. destruct (contains k (items c)) eqn:Hc.
    - destruct (contains_split _ _ Hc) as (d1 & v0 & d2 & E & _).
      rewrite E in Hord, Hwf.
      destruct (ordered_find_present _ _ _ _ _ _ Hord) as (e & -> & _).
      rewrite E, without_at, <- app_assoc by exact Hwf.
      apply (ordered_touch d1 d2 _ _ k v0 (Some v) Hord).
    - apply contains_false in Hc.
      rewrite (ordered_find_absent _ _ _ k Hord Hc), without_absent by exact Hc.
      apply ordered_append; assumption. }
  unfold overflow, len. rewrite <- (ordered_length _ _ _ Hpre), <- Hcap.
  destruct (Z.of_nat (List.length es1) >? capacity c)%Z; [|exact Hpre].
  apply ordered_evict; [exact Hpre|].
  destruct (without k (items c)); discriminate.
Qed.

Lemma call_refines o c s :
  refines c s ->
  exists a c' s', call o c = Returns (a, c') /\
                  Recency.call K_eq_dec o s = (a, s') /\ refines c' s'.
Proof.
  intros H. destruct o as [k|k v]; simpl.
  - apply get_refines, H.
  - destruct (put_refines k v c s H) as (c' & -> & H'). simpl.
    do 3 eexists. split; [reflexivity|]. split; [reflexivity | exact H'].
Qed.

Lemma run_refines ops : forall c s,
  refines c s ->
  exists outs c' s', run ops c = Returns (outs, c') /\
                     Recency.run K_eq_dec ops s = (outs, s') /\ refines c' s'.
Proof.
  induction ops as [|o r IH]; intros c s H; simpl.
  - do 3 eexists. split; [reflexivity|]. split; [reflexivity | exact H].
  - destruct (call_refines o c s H) as (a & c1 & s1 & -> & -> & H1). simpl.
    destruct (IH c1 s1 H1) as (l & c2 & s2 & -> & -> & H2). simpl.
    do 3 eexists. split; [reflexivity|]. split; [reflexivity | exact H2].
Qed.

Lemma refines_init cap : refines (init K V cap) (Recency.init K V cap).
Proof.
  split; [reflexivity|]. exists []. simpl.
  repeat split; constructor.
Qed.

(** Distinct new keys that fit are appended in order, nothing is evicted. *)
Lemma puts_fit val ks : forall c,
  wf (items c) -> NoDup ks ->
  (forall k, In k ks -> ~ In k (keys (items c))) ->
  (len (items c) + Z.of_nat (List.length ks) <= capacity c)%Z ->
  exists outs,
    run (puts val ks) c =
    Returns (outs, with_items c (items c ++ map (fun k => (k, val k)) ks)).
Proof.
  induction ks as [|k r IH]; intros c Hwf Hnd Hnew Hfit; simpl.
  - rewrite app_nil_r, with_items_id. eexists. reflexivity.
  - inversion Hnd as [|? ? Hk Hr]; subst.
    rewrite (put_eq k (val k) c Hwf). simpl.
    rewrite without_absent by (apply Hnew; left; reflexivity).
    assert (Hov : overflow (capacity c) (items c ++ [(k, val k)])
                  = items c ++ [(k, val k)]).
    { unfold overflow, len in *. rewrite length_app. simpl in *.
      destruct (Z.gtb_spec (Z.of_nat (List.length (items c) + 1)) (capacity c));
        [lia | reflexivity]. }
    rewrite Hov.
    destruct (IH (with_items c (items c ++ [(k, val k)]))) as (outs & E).
    + simpl. rewrite <- (without_absent k (items c)) at 1
        by (apply Hnew; left; reflexivity).
      apply wf_put_items, Hwf.
    + exact Hr.
    + simpl. intros k' Hin. rewrite keys_app, in_app_iff. simpl.
      intros [H|[<-|[]]]; [|exact (Hk Hin)].
      apply (Hnew k'); [right; exact Hin | exact H].
    + simpl. unfold len in *. rewrite length_app. simpl in *. lia.
    + rewrite E. simpl. rewrite <- app_assoc. simpl. eexists. reflexivity.
Qed.

(** After [cap + 1] distinct keys are put in order into the empty cache, the
    first one is gone and the others are there, in order. *)
Lemma puts_one_too_many val cap ks :
  (0 <= cap)%Z -> NoDup ks -> List.length ks = S (Z.to_nat cap) ->
  exists outs c,
    run (puts val ks) (init K V cap) = Returns (outs, c) /\
    keys (items c) = tl ks.
Proof.
  intros Hcap Hnd Hlen.
  destruct (exists_last (l := ks)) as (ks' & kl & ->);
    [intros ->; discriminate|].
  rewrite length_app in Hlen. simpl in Hlen.
  apply NoDup_remove in Hnd. rewrite app_nil_r in Hnd. destruct Hnd as [Hnd Hkl].
  unfold puts. rewrite map_app. simpl.
  destruct (puts_fit val ks' (init K V cap)) as (outs & E).
  { constructor. } { exact Hnd. } { intros ? _ []. }
  { simpl. unfold len. simpl. lia. }
  simpl in E. unfold puts in E.
  assert (Hrun : forall l1 l2 c o1 c1,
             run l1 c = Returns (o1, c1) ->
             run (l1 ++ l2) c =
             (' (o2, c2) <- run l2 c1 ;; Returns (o1 ++ o2, c2))%py).
  { induction l1 as [|o l1 IH1]; intros l2 c o1 c1 H; simpl in *.
    - injection H as <- <-. destruct (run l2 c) as [[? ?]|]; reflexivity.
    - destruct (call o c) as [[a cx]|]; simpl in *; [|discriminate].
      destruct (run l1 cx) as [[ox cy]|] eqn:Ex; simpl in *; [|discriminate].
      injection H as <- <-. rewrite (IH1 l2 cx ox cy Ex).
      destruct (run l2 cy) as [[? ?]|]; reflexivity. }
  rewrite (Hrun _ [Put kl (val kl)] _ _ _ E). simpl.
  rewrite put_eq; simpl.
  2:{ unfold wf, keys. rewrite map_map. simpl. rewrite map_id. exact Hnd. }
  assert (Hk : keys (map (fun k => (k, val k)) ks') = ks').
  { unfold keys. rewrite map_map. simpl. apply map_id. }
  rewrite without_absent by (rewrite Hk; exact Hkl).
  unfold overflow, len. rewrite length_app, length_map. simpl.
  destruct (Z.gtb_spec (Z.of_nat (List.length ks' + 1)) cap); [|lia].
  do 2 eexists. split; [reflexivity|]. simpl.
  destruct ks' as [|k0 r]; simpl; [reflexivity|].
  rewrite keys_app. simpl. f_equal.
  unfold keys. rewrite map_map. simpl. apply map_id.
Qed.

(** C3: the recency law.  [get] on a present key returns its value and moves
    the key last; [put] moves or adds the key last with the new value, and
    when the size then exceeds the capacity the first item leaves; in the
    dictionary the items stand in the order of their last use, so that the
    cache answers every sequence of calls as the recency cache of the
    specification does and holds the same entries; and [cap + 1] distinct
    keys put in order evict the first of them and no other. *)
Theorem lru_recency_law :
  (forall k v c, wf (items c) -> In (k, v) (items c) ->
     get k c = Returns (Some v, with_items c (without k (items c) ++ [(k, v)]))) /\
  (forall k v c, wf (items c) ->
     put k v c =
     Returns (with_items c
                (overflow (capacity c) (without k (items c) ++ [(k, v)])))) /\
  (forall cap ops, exists outs c s,
     run ops (init K V cap) = Returns (outs, c) /\
     Recency.run K_eq_dec ops (Recency.init K V cap) = (outs, s) /\
     refines c s) /\
  (forall val cap ks,
     (0 <= cap)%Z -> NoDup ks -> List.length ks = S (Z.to_nat cap) ->
     exists outs c,
       run (puts val ks) (init K V cap) = Returns (outs, c) /\
       keys (items c) = tl ks).
Proof.
  split; [|split; [|split]].
  - intros k v c Hwf Hin. apply in_split in Hin. destruct Hin as (d1 & d2 & E).
    rewrite (get_hit k v d1 d2 c E Hwf). rewrite E in Hwf.
    rewrite E, without_at, <- app_assoc by exact Hwf. reflexivity.
  - apply put_eq.
  - intros cap ops. apply run_refines, refines_init.
  - apply puts_one_too_many.
Qed.

End Facts.

End LRUProps.

Module LRUChecks.

Import LRU LRUExample.

(** C2 as stated fails: with capacity 1, the second [put] of a new key
    holds two entries after its insertion and before its eviction. *)
Lemma capacity_exceeded_inside_put :
  ~ bounded_at_every_point Nat.eq_dec 1 [Put 1 10; Put 2 20].
Proof.
  intros H. specialize (H _ eq_refl).
  repeat match goal with
         | H : Forall _ (_ :: _) |- _ => inversion H; clear H; subst
         end.
  simpl in *. unfold len in *. simpl in *. lia.
Qed.

Lemma capacity_bound_between_calls_witness :
  (exists l, rest_points Nat.eq_dec [Put 1 10; Put 2 20] (init K V 1) = Returns l /\
             Forall (fun c => (len (items c) <= 1)%Z) l) /\
  (exists l, trace Nat.eq_dec [Put 1 10; Put 2 20] (init K V 1) = Returns l /\
             Forall (fun c => (len (items c) <= 1 + 1)%Z) l).
Proof.
  apply (LRUProps.capacity_bound_between_calls K V Nat.eq_dec 1 [Put 1 10; Put 2 20]).
  lia.
Defined.

Lemma get_absent_unchanged_witness :
  get 7 (cache 5 [(1, 10); (2, 20)]) = Returns (None, cache 5 [(1, 10); (2, 20)]).
Proof.
  apply (LRUProps.get_absent_unchanged K V Nat.eq_dec 7 (cache 5 [(1, 10); (2, 20)])).
  simpl. lia.
Defined.

Lemma put_present_replaces_witness :
  exists c',
    put 1 11 (cache 2 [(1, 10); (2, 20)]) = Returns c' /\
    capacity c' = 2%Z /\
    items c' = [(2, 20); (1, 11)].
Proof.
  destruct (LRUProps.put_present_replaces K V Nat.eq_dec 1 11
              (cache 2 [(1, 10); (2, 20)])) as (c' & H1 & H2 & H3 & _).
  - repeat constructor; simpl; lia.
  - unfold within_capacity, len. simpl. lia.
  - simpl. auto.
  - exists c'. auto.
Defined.

Lemma lru_recency_law_witness :
  exists outs c,
    run Nat.eq_dec (puts (fun k => 10 * k) [1; 2; 3]) (init K V 2) = Returns (outs, c) /\
    keys (items c) = [2; 3].
Proof.
  destruct (LRUProps.lru_recency_law K V Nat.eq_dec) as (_ & _ & _ & H).
  apply (H (fun k => 10 * k) 2%Z [1; 2; 3]).
  - lia.
  - repeat constructor; simpl; lia.
  - reflexivity.
Defined.

End LRUChecks.

(* ================================================================== *)
(** * Properties of the extractor *)
(* ================================================================== *)

Module ExtractorProps.

Import Extractor Fallback.

(** ** White space *)

Lemma truthy_lstrip t : truthy (lstrip t) = nonblank t.
Proof.
  induction t as [|c r IH]; simpl; [reflexivity|].
  destruct (isspace c); simpl; [exact IH | reflexivity].
Qed.

Lemma nonblank_app a b : nonblank (a ++ b) = nonblank a || nonblank b.
Proof. apply existsb_app. Qed.

Lemma nonblank_rev t : nonblank (rev t) = nonblank t.
Proof.
  induction t as [|c r IH]; simpl; [reflexivity|].
  rewrite nonblank_app, IH. simpl. rewrite orb_false_r. apply orb_comm.
Qed.

Lemma nonblank_lstrip t : nonblank (lstrip t) = nonblank t.
Proof.
  induction t as [|c r IH]; simpl; [reflexivity|].
  destruct (isspace c) eqn:E; simpl; [exact IH | rewrite E; reflexivity].
Qed.

Lemma truthy_rev t : truthy (rev t) = truthy t.
Proof.
  destruct t as [|c r]; simpl; [reflexivity|].
  destruct (rev r); reflexivity.
Qed.

(** A string has something left after [strip()] exactly when one of its
    characters is not white space. *)
Lemma truthy_strip t : truthy (strip t) = nonblank t.
Proof.
  unfold strip, rstrip.
  rewrite truthy_rev, truthy_lstrip, nonblank_rev, nonblank_lstrip.
  reflexivity.
Qed.

Lemma has_text_nonblank t : has_text t = nonblank t.
Proof.
  unfold has_text. rewrite truthy_strip.
  destruct t; reflexivity.
Qed.

Lemma any_has_text_nonblank docs :
  any_has_text docs = existsb (fun d => nonblank (page_content d)) docs.
Proof.
  unfold any_has_text. induction docs as [|d r IH]; simpl; [reflexivity|].
  rewrite has_text_nonblank, IH. reflexivity.
Qed.

(** ** The log *)

Lemma attempted_app a b : attempted (a ++ b) = attempted a ++ attempted b.
Proof.
  induction a as [|m r IH]; simpl; [reflexivity|].
  destruct m; simpl; rewrite IH; reflexivity.
Qed.

(** ** The page loop *)

Lemma scan_pages_eq s f pages : forall i l0,
  exists l, scan_pages s f i pages l0 = (Returns (page_by_page f i pages), l) /\
            attempted l = attempted l0.
Proof.
  induction pages as [|p r IH]; intros i l0; simpl.
  - exists l0. split; reflexivity.
  - unfold bind, try_except, lift. destruct p as [t|e]; simpl.
    + rewrite truthy_strip. destruct (nonblank t); simpl;
        destruct (IH (S i) l0) as (l & -> & Hl); exists l; split; auto.
    + unfold print, modify. simpl.
      destruct (IH (S i) (l0 ++ [ErrorOnPage s i e])) as (l & -> & Hl).
      exists l. split; [reflexivity|]. rewrite Hl, attempted_app. simpl.
      apply app_nil_r.
Qed.

Lemma page_by_page_nonblank f pages : forall i,
  existsb (fun d => nonblank (page_content d)) (page_by_page f i pages)
  = match page_by_page f i pages with [] => false | _ :: _ => true end.
Proof.
  induction pages as [|p r IH]; intros i; simpl; [reflexivity|].
  destruct p as [t|e]; [|apply IH].
  destruct (nonblank t) eqn:E; [|apply IH]. simpl. rewrite E. reflexivity.
Qed.

(** ** Each method is its strategy *)


Ltac step_log :=
  unfold bind, try_except, lift, print, modify, ret, raise; simpl.

Ltac close_log :=
  eexists; split; [reflexivity|];
  repeat (rewrite attempted_app; simpl); rewrite ?app_nil_r; reflexivity.

Lemma try_PyPDFLoader_eq E f : runs_strategy E PyPDF f (try_PyPDFLoader E f).
Proof.
  intros l0. unfold try_PyPDFLoader, succeeds, extracted. simpl. step_log.
  destruct (PyPDFLoader_load E f) as [docs|e]; simpl; [|close_log].
  rewrite any_has_text_nonblank.
  destruct (existsb _ docs); simpl; close_log.
Qed.

Lemma try_PDFPlumberLoader_eq E f :
  runs_strategy E Plumber f (try_PDFPlumberLoader E f).
Proof.
  intros l0. unfold try_PDFPlumberLoader, succeeds, extracted. simpl. step_log.
  destruct (PDFPlumberLoader_load E f) as [docs|e]; simpl; [|close_log].
  rewrite any_has_text_nonblank.
  destruct (existsb _ docs); simpl; close_log.
Qed.

Lemma try_direct_PyPDF_eq E f :
  runs_strategy E DirectPyPDF f (try_direct_PyPDF E f).
Proof.
  intros l0. unfold try_direct_PyPDF, succeeds, extracted. simpl. step_log.
  destruct (PdfReader E f) as [[texts err]|e]; simpl; [|close_log].
  destruct (scan_pages_eq DirectPyPDF f texts 0 (l0 ++ [Trying DirectPyPDF]))
    as (l & -> & Hl).
  rewrite attempted_app in Hl. simpl in Hl.
  destruct err as [e|]; simpl.
  - eexists. split; [reflexivity|]. rewrite attempted_app, Hl. simpl.
    rewrite app_nil_r. reflexivity.
  - rewrite page_by_page_nonblank.
    destruct (page_by_page f 0 texts); simpl;
      (eexists; split; [reflexivity|]; rewrite attempted_app, Hl; simpl;
       rewrite app_nil_r; reflexivity).
Qed.

Lemma try_OCR_eq E f : runs_strategy E OCR f (try_OCR E f).
Proof.
  intros l0. unfold try_OCR, succeeds, extracted. simpl. step_log.
  destruct (convert_from_path E f) as [images|e]; simpl; [|close_log].
  destruct (scan_pages_eq OCR f images 0
              (((l0 ++ [Trying OCR]) ++ [ConvertingToImages])
               ++ [ConvertedToImages (List.length images)]))
    as (l & -> & Hl).
  repeat (rewrite attempted_app in Hl; simpl in Hl). rewrite !app_nil_r in Hl.
  rewrite page_by_page_nonblank.
  destruct (page_by_page f 0 images); simpl;
    (eexists; split; [reflexivity|]; rewrite attempted_app, Hl; simpl;
     rewrite app_nil_r; reflexivity).
Qed.

(** One link of the chain: a method that runs its strategy, followed by
    what the function does when the method falls through. *)
Lemma chain_link E f s rest m (k : M log (list Document)) l0 :
  runs_strategy E s f m ->
  (forall l1, exists l,
      k l1 = (Returns (snd (first_success E f rest)), l) /\
      attempted l = attempted l1 ++ fst (first_success E f rest)) ->
  exists l,
    (r <- m ;; match r with Some documents => ret documents | None => k end)%eff l0
    = (Returns (snd (first_success E f (s :: rest))), l) /\
    attempted l = attempted l0 ++ fst (first_success E f (s :: rest)).
Proof.
  intros Hm Hk. unfold bind. destruct (Hm l0) as (l1 & -> & H1). simpl.
  destruct (succeeds E s f); simpl.
  - exists l1. split; [reflexivity | exact H1].
  - destruct (Hk l1) as (l & -> & Hl).
    destruct (first_success E f rest) as [tried pages]. simpl in *.
    exists l. split; [reflexivity|]. rewrite Hl, H1, <- app_assoc. reflexivity.
Qed.

(** The function is the fallback chain of the specification: it returns the
    pages of the first strategy that succeeds, and it tries the strategies
    up to that one and no other. *)
Lemma load_pdf_eq E f l0 :
  exists l,
    _load_pdf_with_fallbacks E f l0
    = (Returns (snd (first_success E f strategies)), l) /\
    attempted l = attempted l0 ++ fst (first_success E f strategies).
Proof.
  unfold _load_pdf_with_fallbacks, strategies.
  unfold bind at 1. unfold print at 1, modify. cbv beta iota.
  assert (Ha : attempted (l0 ++ [AttemptingToLoad f]) = attempted l0).
  { rewrite attempted_app. simpl. apply app_nil_r. }
  rewrite <- Ha.
  apply chain_link; [apply try_PyPDFLoader_eq|]. intros l1.
  apply chain_link; [apply try_PDFPlumberLoader_eq|]. intros l2.
  apply chain_link; [apply try_direct_PyPDF_eq|]. intros l3.
  apply chain_link; [apply try_OCR_eq|]. intros l4.
  simpl. step_log. eexists. split; [reflexivity|].
  rewrite attempted_app. reflexivity.
Qed.

(** ** The chain of the specification *)

Lemma first_success_at E f s skipped : forall tried,
  (forall s', In s' tried -> succeeds E s' f = false) ->
  succeeds E s f = true ->
  first_success E f (tried ++ s :: skipped) = (tried ++ [s], extracted E s f).
Proof.
  induction tried as [|t r IH]; simpl; intros Hfail Hs.
  - rewrite Hs. reflexivity.
  - rewrite (Hfail t) by auto. rewrite IH by auto. reflexivity.
Qed.

Lemma first_success_none E f : forall ss,
  (forall s, In s ss -> succeeds E s f = false) ->
  first_success E f ss = (ss, []).
Proof.
  induction ss as [|t r IH]; simpl; intros Hfail; [reflexivity|].
  rewrite (Hfail t) by auto. rewrite IH by auto. reflexivity.
Qed.

Lemma first_success_next E f s next skipped : forall tried,
  (forall s', In s' tried -> succeeds E s' f = false) ->
  succeeds E s f = false ->
  In next (fst (first_success E f (tried ++ s :: next :: skipped))).
Proof.
  induction tried as [|t r IH]; simpl; intros Hfail Hs.
  - rewrite Hs. destruct (succeeds E next f).
    + simpl. auto.
    + destruct (first_success E f skipped). simpl. auto.
  - rewrite (Hfail t) by auto.
    specialize (IH (fun s' H => Hfail s' (or_intror H)) Hs).
    destruct (first_success E f (r ++ s :: next :: skipped)). simpl in *. auto.
Qed.

(** C4: the extractor returns, whatever the libraries do: a strategy that
    throws has failed and the next one is tried, and when all four strategies
    fail the result is the empty list. *)
Theorem extractor_never_raises E f l0 :
  exists documents l,
    _load_pdf_with_fallbacks E f l0 = (Returns documents, l) /\
    (forall tried s e next skipped,
        strategies = tried ++ s :: next :: skipped ->
        (forall s', In s' tried -> succeeds E s' f = false) ->
        pages_of E s f = Raises e ->
        In next (attempted l)) /\
    ((forall s, In s strategies -> succeeds E s f = false) -> documents = []).
Proof.
  destruct (load_pdf_eq E f l0) as (l & Heq & Hl).
  exists (snd (first_success E f strategies)), l.
  split; [exact Heq|]. split.
  - intros tried s e next skipped Hs Hfail He.
    rewrite Hl, Hs. apply in_or_app. right.
    apply first_success_next; [exact Hfail|].
    unfold succeeds. rewrite He. reflexivity.
  - intros Hfail. rewrite (first_success_none E f strategies Hfail). reflexivity.
Qed.

(** C5: the extractor tries the four strategies in the order of the list
    [strategies] and stops at the first that succeeds: it returns the pages
    of that strategy, the strategies it tried are those up to that one, and
    the ones after it are not tried; success of a strategy is that it does
    not throw and one page has text that is not blank. *)
Theorem fallback_order_short_circuit E f l0 :
  exists l,
    _load_pdf_with_fallbacks E f l0
    = (Returns (snd (first_success E f strategies)), l) /\
    attempted l = attempted l0 ++ fst (first_success E f strategies) /\
    (forall tried s skipped,
        strategies = tried ++ s :: skipped ->
        (forall s', In s' tried -> succeeds E s' f = false) ->
        succeeds E s f = true ->
        first_success E f strategies = (tried ++ [s], extracted E s f)) /\
    ((forall s, In s strategies -> succeeds E s f = false) ->
     first_success E f strategies = (strategies, [])) /\
    (forall t, has_text t = nonblank t /\ truthy (strip t) = nonblank t).
Proof.
  destruct (load_pdf_eq E f l0) as (l & Heq & Hl).
  exists l. split; [exact Heq|]. split; [exact Hl|]. split; [|split].
  - intros tried s skipped -> Hfail Hs. apply first_success_at; assumption.
  - apply first_success_none.
  - intros t. split; [apply has_text_nonblank | apply truthy_strip].
Qed.

End ExtractorProps.

(* ================================================================== *)
(** * Properties of the file system *)
(* ================================================================== *)

Module FSProps.

Import PDFProcessor Spec.

(** ** Lists *)

Lemma last_cons_default {A} (a : A) (r : list A) (x : A) :
  last (a :: r) x = last r a.
Proof.
  revert a x. induction r as [|b t IH]; intros a x; [reflexivity|].
  change (last (a :: b :: t) x) with (last (b :: t) x).
  rewrite (IH b x), (IH b a). reflexivity.
Qed.

Lemma last_app_default {A} (a b : list A) (x : A) :
  last (a ++ b) x = last b (last a x).
Proof.
  revert x. induction a as [|y r IH]; intros x; [reflexivity|].
  change ((y :: r) ++ b) with (y :: (r ++ b)).
  rewrite !last_cons_default. apply IH.
Qed.

Lemma wrote_wrote st a b : wrote (wrote st a) b = wrote st (a ++ b).
Proof.
  unfold wrote. simpl. rewrite last_app_default, app_assoc. reflexivity.
Qed.

Lemma wrote_nil st : wrote st [] = st.
Proof. unfold wrote. simpl. rewrite app_nil_r. destruct st; reflexivity. Qed.

(** ** Looking at a place *)

Lemma look_put_same d p f k : look (put_at d p (Dir f k)) p = Dir f k.
Proof.
  unfold look, put_at. simpl.
  destruct (place_eq_dec p p); [reflexivity | congruence].
Qed.

Lemma look_put_other d p x q : q <> p -> look (put_at d p x) q = look d q.
Proof.
  intros Hq. unfold look, put_at. simpl.
  destruct (place_eq_dec q p); [congruence | reflexivity].
Qed.

Lemma is_dir_root d : is_dir d [] = true.
Proof.
  unfold is_dir, look. destruct (at_place d []); [|reflexivity].
  destruct (place_eq_dec [] []); [reflexivity | congruence].
Qed.

Lemma is_dir_cwd d : is_dir d (cwd d) = true.
Proof.
  unfold is_dir, look. destruct (at_place d (cwd d)); [|reflexivity].
  destruct (place_eq_dec (cwd d) []); [reflexivity|].
  destruct (place_eq_dec (cwd d) (cwd d)); [reflexivity | congruence].
Qed.

Lemma origin_cases d path : origin d path = [] \/ origin d path = cwd d.
Proof.
  unfold origin. destruct path as [|c r]; [auto|].
  destruct c as [|p]; [auto|].
  do 6 (destruct p as [p|p|]; auto).
Qed.

Lemma origin_cwd d d' path : cwd d' = cwd d -> origin d' path = origin d path.
Proof.
  intros H. unfold origin. rewrite H. reflexivity.
Qed.

Lemma is_dir_origin d path : is_dir d (origin d path) = true.
Proof.
  destruct (origin_cases d path) as [-> | ->];
    [apply is_dir_root | apply is_dir_cwd].
Qed.

Lemma is_dir_look d q : is_dir d q = true <-> look d q <> Absent.
Proof.
  unfold is_dir. destruct (look d q); split; congruence.
Qed.

(** A write of files into a directory leaves every directory one. *)
Lemma is_dir_put d p f k q :
  is_dir d p = true -> is_dir (put_at d p (Dir f k)) q = is_dir d q.
Proof.
  intros Hp. unfold is_dir at 1. destruct (place_eq_dec q p) as [->|Hq].
  - rewrite look_put_same, Hp. reflexivity.
  - rewrite look_put_other by exact Hq. reflexivity.
Qed.

(** ** Walking a path *)

Lemma walk_same d d' :
  (forall q, is_dir d' q = is_dir d q) ->
  forall names cur, walk d' cur names = walk d cur names.
Proof.
  intros H. induction names as [|n r IH]; intros cur; simpl; [reflexivity|].
  rewrite H, IH. reflexivity.
Qed.

Lemma resolve_same d d' path :
  cwd d' = cwd d -> (forall q, is_dir d' q = is_dir d q) ->
  resolve d' path = resolve d path.
Proof.
  intros Hc H. unfold resolve. destruct path as [|c r]; [reflexivity|].
  rewrite (origin_cwd d d' _ Hc). apply walk_same, H.
Qed.

Lemma walk_target d names : forall cur p,
  walk d cur names = Some p -> p = fold_left step names cur.
Proof.
  induction names as [|n r IH]; intros cur p; simpl.
  - intros H. injection H as <-. reflexivity.
  - destruct (is_dir d cur); [apply IH | discriminate].
Qed.

Lemma resolve_target d path p :
  resolve d path = Some p -> p = target d path.
Proof.
  unfold resolve, target. destruct path as [|c r]; [discriminate|].
  apply walk_target.
Qed.

Lemma walk_route d names : forall cur,
  is_dir d cur = true ->
  (forall q, In q (route cur names) -> is_dir d q = true) ->
  walk d cur names = Some (fold_left step names cur).
Proof.
  induction names as [|n r IH]; intros cur Hc Hr; simpl; [reflexivity|].
  rewrite Hc. apply IH.
  - apply Hr. left. reflexivity.
  - intros q Hq. apply Hr. right. exact Hq.
Qed.

Lemma route_last names : forall cur,
  names <> [] -> In (fold_left step names cur) (route cur names).
Proof.
  induction names as [|n r IH]; intros cur Hn; [congruence|]. simpl.
  destruct r as [|m t]; [left; reflexivity|].
  right. apply IH. discriminate.
Qed.

Lemma names_of_nonempty path : names_of path <> [].
Proof.
  destruct path as [|c r]; simpl; [discriminate|].
  destruct (c =? 47)%N; [discriminate|]. destruct (names_of r); discriminate.
Qed.

Lemma target_passed d path : In (target d path) (passes d path).
Proof. apply route_last, names_of_nonempty. Qed.

(** A path resolves where the directories it passes are there. *)
Lemma resolve_passes d path :
  path <> [] ->
  (forall q, In q (passes d path) -> is_dir d q = true) ->
  resolve d path = Some (target d path).
Proof.
  intros Hp H. unfold resolve. destruct path as [|c r]; [congruence|].
  apply walk_route; [apply is_dir_origin | exact H].
Qed.

(** What a path finds after files were written into a directory. *)
Lemma read_put d p f k path :
  is_dir d p = true ->
  (put_at d p (Dir f k)) path
  = match resolve d path with
    | Some q => if place_eq_dec q p then Dir f k else look d q
    | None => Absent
    end.
Proof.
  intros Hp. unfold read.
  rewrite (resolve_same d (put_at d p (Dir f k)) path eq_refl
             (fun q => is_dir_put d p f k q Hp)).
  destruct (resolve d path) as [q|]; [|reflexivity].
  destruct (place_eq_dec q p) as [->|Hq];
    [apply look_put_same | apply look_put_other, Hq].
Qed.

(** ** Making directories *)

Lemma dirs_made_refl places d : dirs_made places d d.
Proof. split; [reflexivity | auto]. Qed.

Lemma dirs_made_trans places d1 d2 d3 :
  dirs_made places d1 d2 -> dirs_made places d2 d3 -> dirs_made places d1 d3.
Proof.
  intros [Hc1 H1] [Hc2 H2]. split; [congruence|]. intros q.
  destruct (H2 q) as [E2|(A2 & N2 & I2)]; destruct (H1 q) as [E1|(A1 & N1 & I1)].
  - left. congruence.
  - right. rewrite E2. auto.
  - right. rewrite <- E1. auto.
  - rewrite N1 in A2. discriminate.
Qed.

Lemma dirs_made_put places d p :
  look d p = Absent -> In p places -> dirs_made places d (put_at d p NoIndex).
Proof.
  intros Ha Hin. split; [reflexivity|]. intros q.
  destruct (place_eq_dec q p) as [->|Hq].
  - right. split; [exact Ha|]. split; [apply look_put_same | exact Hin].
  - left. apply look_put_other, Hq.
Qed.

Lemma dirs_made_is_dir places d d' q :
  dirs_made places d d' -> is_dir d q = true -> is_dir d' q = true.
Proof.
  intros [_ H] Hq. unfold is_dir in *.
  destruct (H q) as [->|(Ha & -> & _)]; [exact Hq | reflexivity].
Qed.

Lemma dirs_made_incl places places' d d' :
  incl places places' -> dirs_made places d d' -> dirs_made places' d d'.
Proof.
  intros Hi [Hc H]. split; [exact Hc|]. intros q.
  destruct (H q) as [E|(A & N & I)]; auto.
Qed.

(** [os.makedirs] makes directories where they are missing on the path and
    changes nothing else; after it every place the path passes is a
    directory. *)
Lemma makedirs_steps_spec places : forall ps d,
  incl ps places ->
  Forall (dirs_made places d) (makedirs_steps d ps) /\
  dirs_made places d (last (makedirs_steps d ps) d) /\
  (forall q, In q ps -> is_dir (last (makedirs_steps d ps) d) q = true).
Proof.
  induction ps as [|p r IH]; intros d Hi.
  - simpl. split; [constructor|]. split; [apply dirs_made_refl | intros q []].
  - assert (Hr : incl r places) by (intros x Hx; apply Hi; right; exact Hx).
    simpl. destruct (look d p) as [|f k] eqn:Hl.
    + set (d1 := put_at d p NoIndex).
      assert (H1 : dirs_made places d d1).
      { apply dirs_made_put; [exact Hl | apply Hi; left; reflexivity]. }
      destruct (IH d1 Hr) as (Hall & Hlast & Hdirs).
      rewrite last_cons_default. split; [|split].
      * constructor; [exact H1|].
        apply Forall_forall. intros x Hx.
        apply (dirs_made_trans places d d1 x H1).
        exact (proj1 (Forall_forall _ _) Hall x Hx).
      * exact (dirs_made_trans places d d1 _ H1 Hlast).
      * intros q [<-|Hq]; [|apply Hdirs, Hq].
        apply (dirs_made_is_dir places d1 _ p Hlast).
        unfold is_dir, d1, NoIndex. rewrite look_put_same. reflexivity.
    + destruct (IH d Hr) as (Hall & Hlast & Hdirs).
      split; [exact Hall|]. split; [exact Hlast|].
      intros q [<-|Hq]; [|apply Hdirs, Hq].
      apply (dirs_made_is_dir places d _ p Hlast).
      unfold is_dir. rewrite Hl. reflexivity.
Qed.

(** Where every directory is there, [os.makedirs] makes none. *)
Lemma makedirs_steps_nil : forall ps d,
  (forall q, In q ps -> is_dir d q = true) -> makedirs_steps d ps = [].
Proof.
  induction ps as [|p r IH]; intros d H; simpl; [reflexivity|].
  pose proof (H p (or_introl eq_refl)) as Hp. unfold is_dir in Hp.
  destruct (look d p); [discriminate|].
  apply IH. intros q Hq. apply H. right. exact Hq.
Qed.

Lemma made_spec d path :
  dirs_made (passes d path) d (made d path) /\
  Forall (dirs_made (passes d path) d) (makedirs_steps d (passes d path)) /\
  (forall q, In q (passes d path) -> is_dir (made d path) q = true) /\
  passes (made d path) path = passes d path /\
  target (made d path) path = target d path.
Proof.
  destruct (makedirs_steps_spec (passes d path) (passes d path) d
              (fun x H => H)) as (Hall & Hlast & Hdirs).
  split; [exact Hlast|]. split; [exact Hall|]. split; [exact Hdirs|].
  destruct Hlast as [Hc _]. fold (made d path) in Hc.
  unfold passes, target. rewrite (origin_cwd d (made d path) path Hc).
  split; reflexivity.
Qed.

(** After [os.makedirs] the path names the place it leads to, a
    directory, and a second [os.makedirs] makes nothing. *)
Lemma made_resolves d path :
  path <> [] ->
  resolve (made d path) path = Some (target d path) /\
  is_dir (made d path) (target d path) = true /\
  makedirs_steps (made d path) (passes (made d path) path) = [].
Proof.
  intros Hp. destruct (made_spec d path) as (_ & _ & Hdirs & Hpass & Htar).
  split; [|split].
  - rewrite <- Htar. apply resolve_passes; [exact Hp|].
    rewrite Hpass. exact Hdirs.
  - apply Hdirs, target_passed.
  - apply makedirs_steps_nil. rewrite Hpass. exact Hdirs.
Qed.

(** What the three cases of a directory are to the program. *)
Lemma entry_cases (e : dir_entry) :
  e = Absent \/
  (e <> Absent /\ forall vs, e <> Index vs) \/
  exists vs, e = Index vs.
Proof.
  destruct e as [|[i|] [k|]]; auto.
  - right. right. exists (mkStore i k). reflexivity.
  - right. left. split; [discriminate|]. intros vs. discriminate.
  - right. left. split; [discriminate|]. intros vs. discriminate.
  - right. left. split; [discriminate|]. intros vs. discriminate.
Qed.

Lemma Index_inj vs vs' : Index vs = Index vs' -> vs = vs'.
Proof.
  destruct vs, vs'. unfold Index. simpl. intros H. injection H as -> ->.
  reflexivity.
Qed.

End FSProps.

(* ================================================================== *)
(** * Properties of the index builder and the answerer *)
(* ================================================================== *)

Module ProcessorProps.

Import Extractor Fallback PDFProcessor Spec.

#[local] Abbreviation cache_t := (LRU.LRUCache pystr FAISS).

(** ** The state *)

Lemma set_output_same st : set_output st (output st) = st.
Proof. destruct st; reflexivity. Qed.

Lemma say_eq m st : say m st = (Returns tt, set_output st (output st ++ [m])).
Proof. reflexivity. Qed.

(** ** The loops of the builder *)


Lemma load_all_eq E c pdfs : forall st,
  exists l,
    load_all E c pdfs st
    = (Returns (map (set_company c) (flat_map (extract E) pdfs)), set_output st l).
Proof.
  induction pdfs as [|f r IH]; intros st; simpl.
  - exists (output st). rewrite set_output_same. reflexivity.
  - unfold bind, try_except, with_log.
    destruct (ExtractorProps.load_pdf_eq E f (output st)) as (l1 & -> & _).
    simpl. destruct (IH (set_output st l1)) as (l2 & ->).
    exists l2. rewrite map_app. reflexivity.
Qed.

Lemma keep_non_empty_eq docs : forall st,
  exists l,
    keep_non_empty docs st
    = (Returns (filter (fun d => nonblank (page_content d)) docs), set_output st l).
Proof.
  induction docs as [|d r IH]; intros st; simpl.
  - exists (output st). rewrite set_output_same. reflexivity.
  - unfold bind. rewrite ExtractorProps.has_text_nonblank.
    destruct (nonblank (page_content d)); simpl.
    + destruct (IH st) as (l & ->). exists l. reflexivity.
    + destruct (IH (set_output st
                      (output st ++ [SkippingEmpty (meta_get "source" (metadata d))])))
        as (l & ->).
      exists l. reflexivity.
Qed.

Lemma filter_set_company c docs :
  filter (fun d => nonblank (page_content d)) (map (set_company c) docs)
  = map (set_company c) (filter (fun d => nonblank (page_content d)) docs).
Proof.
  induction docs as [|d r IH]; simpl; [reflexivity|].
  destruct (nonblank (page_content d)); simpl; rewrite IH; reflexivity.
Qed.

(** What the extractor returns has a page with text, or is empty. *)
Lemma first_success_has_text E f : forall ss,
  filter (fun d => nonblank (page_content d)) (snd (first_success E f ss)) = [] ->
  snd (first_success E f ss) = [].
Proof.
  induction ss as [|s r IH]; simpl; [reflexivity|].
  destruct (succeeds E s f) eqn:Hs; simpl.
  - unfold succeeds, extracted in *.
    destruct (pages_of E s f) as [pages|e]; [|reflexivity].
    intros Hf. exfalso. apply existsb_exists in Hs. destruct Hs as (d & Hin & Hd).
    assert (Hin' : In d (filter (fun d => nonblank (page_content d)) pages))
      by (apply filter_In; auto).
    rewrite Hf in Hin'. destruct Hin'.
  - destruct (first_success E f r). simpl in *. exact IH.
Qed.

Lemma no_text_no_pages E (pdfs : list pystr) :
  filter (fun d => nonblank (page_content d)) (flat_map (extract E) pdfs) = [] ->
  flat_map (extract E) pdfs = [].
Proof.
  induction pdfs as [|f r IH]; simpl; [reflexivity|].
  rewrite filter_app. intros H. apply app_eq_nil in H. destruct H as [H1 H2].
  unfold extract in *. rewrite (first_success_has_text E f strategies H1).
  simpl. apply IH, H2.
Qed.

(** ** The builder, case by case *)

Lemma process_unfold E c st :
  truthy c = true ->
  exists l1 l2,
    _process_company_pdfs E c st =
    match documents_of E c with
    | [] => (Returns false, set_output st (output st ++ [NoPDFsFound c]))
    | _ :: _ =>
        match extracted_pages E c with
        | [] => (Returns false, set_output st (l1 ++ [NoDocumentsLoaded c]))
        | _ :: _ =>
            match tagged_pages E c with
            | [] => (Returns false, set_output st (l2 ++ [AllDocumentsEmpty c]))
            | _ :: _ =>
                match split_documents E (tagged_pages E c) with
                | Raises e => (Raises e, set_output st l2)
                | Returns [] =>
                    (Returns false, set_output st (l2 ++ [NoChunksCreated c]))
                | Returns (ch :: chs) =>
                    persist E c (ch :: chs)
                            (set_output st
                               (l2 ++ [CreatedChunks (List.length (ch :: chs))]))
                end
            end
        end
    end.
Proof.
  intros Hc. unfold _process_company_pdfs. rewrite Hc.
  change (negb true) with false. cbv match.
  fold (documents_of E c). unfold tagged_pages, non_empty_pages, extracted_pages.
  fold (extract E).
  destruct (load_all_eq E c (documents_of E c) st) as (l1 & Hl1).
  remember (flat_map (extract E) (documents_of E c)) as pages eqn:Hp.
  destruct (keep_non_empty_eq (map (set_company c) pages) (set_output st l1))
    as (l2 & Hl2).
  rewrite filter_set_company in Hl2.
  remember (filter (fun d => nonblank (page_content d)) pages) as texts eqn:Ht.
  exists l1, l2.
  remember (documents_of E c) as pdfs eqn:Hd.
  destruct pdfs as [|f pdfs']; [reflexivity|].
  cbv match. unfold bind at 1. rewrite Hl1.
  destruct pages as [|d ds]; [reflexivity|].
  change (map (set_company c) (d :: ds))
    with (set_company c d :: map (set_company c) ds) in *.
  cbv match. unfold bind at 1. rewrite Hl2.
  destruct texts as [|t ts]; [reflexivity|].
  change (map (set_company c) (t :: ts))
    with (set_company c t :: map (set_company c) ts) in *.
  cbv match. unfold bind at 1. unfold lift at 1.
  destruct (split_documents E _) as [[|ch chs]|e]; reflexivity.
Qed.

Ltac step_state :=
  unfold persist, bind, try_except, lift, say, with_log, print, modify, ret,
    raise, cache_put, set_cache, set_output; simpl.

Lemma os_path_join_nonempty a b : b <> [] -> os_path_join a b <> [].
Proof.
  intros Hb. unfold os_path_join. destruct b as [|c r]; [congruence|].
  assert (H : forall x : pystr, x <> [] ->
                match a with
                | [] => c :: r
                | _ :: _ => x
                end <> []).
  { intros x Hx. destruct a; [discriminate | exact Hx]. }
  destruct c as [|p]; [apply H|].
  - destruct a as [|a0 a']; [discriminate|].
    destruct (last (a0 :: a') 0 =? 47)%N; discriminate.
  - assert (Hj : (match a with
                  | [] => N.pos p :: r
                  | _ :: _ =>
                      if (last a 0 =? 47)%N then a ++ N.pos p :: r
                      else a ++ 47%N :: N.pos p :: r
                  end) <> []).
    { destruct a as [|a0 a']; [discriminate|].
      destruct (last (a0 :: a') 0 =? 47)%N; discriminate. }
    do 6 (destruct p as [p|p|]; try exact Hj); discriminate.
Qed.

(** The path of a vector store is not the empty string. *)
Lemma path_nonempty E c : get_company_vector_store_path E c <> [].
Proof.
  unfold get_company_vector_store_path.
  destruct c as [|x r]; [|apply os_path_join_nonempty; discriminate].
  assert (Hv : VECTOR_STORE_PATH E <> [])
    by (apply os_path_join_nonempty; discriminate).
  unfold os_path_join. destruct (VECTOR_STORE_PATH E) as [|a0 a']; [congruence|].
  destruct (last (a0 :: a') 0 =? 47)%N; discriminate.
Qed.

(** [persist], step by step: the embedding, the directories, the two
    files, the cache. *)
Lemma persist_eq E c chunks st :
  let path := get_company_vector_store_path E c in
  let vs := mkFAISS chunks in
  let d := disk st in
  let dirs := makedirs_steps d (passes d path) in
  let files := save_steps (made d path) (target d path) vs in
  let failed e steps :=
    (Returns false,
     mkState (company_vector_stores st) (vector_store st) (last steps d)
             (disk_history st ++ steps)
             (output st ++ [CreatingVectorStore; ErrorCreatingVectorStore e])) in
  persist E c chunks st =
  match embed_documents E chunks with
  | Raises e => failed e []
  | Returns _ =>
      match makedirs_error E d path with
      | Some (n, e) => failed e (firstn n dirs)
      | None =>
          match save_local_error E (made d path) path vs with
          | Some (stage, e) => failed e (dirs ++ firstn (written stage) files)
          | None =>
              match LRU.put pystr_eq_dec c vs (company_vector_stores st) with
              | Returns c' =>
                  (Returns true,
                   mkState c' (vector_store st) (last (dirs ++ files) d)
                           (disk_history st ++ dirs ++ files)
                           (output st
                            ++ [CreatingVectorStore; SavedVectorStore c]))
              | Raises e => failed e (dirs ++ files)
              end
          end
      end
  end.
Proof.
  intros path vs d dirs files failed. subst failed dirs files.
  destruct (FSProps.made_spec d path) as (_ & _ & Hdirs & Hpass & Htar).
  assert (Hnil : makedirs_steps (made d path) (passes (made d path) path) = []).
  { apply FSProps.makedirs_steps_nil. rewrite Hpass. exact Hdirs. }
  step_state. fold path.
  destruct (embed_documents E chunks) as [[]|e]; simpl.
  2:{ rewrite app_nil_r, <- app_assoc. reflexivity. }
  unfold os_makedirs. simpl. fold d.
  destruct (makedirs_error E d path) as [[n e]|]; simpl.
  { rewrite <- app_assoc. reflexivity. }
  unfold save_local. simpl. fold (made d path). rewrite Hnil, Htar. simpl.
  fold vs.
  destruct (save_local_error E (made d path) path vs) as [[stage e]|]; simpl.
  { rewrite FSProps.last_app_default, <- !app_assoc. reflexivity. }
  destruct (LRU.put pystr_eq_dec c vs (company_vector_stores st)) as [c'|e];
    simpl; rewrite FSProps.last_app_default, <- !app_assoc; reflexivity.
Qed.

(** The disks a build goes through at its end: directories are made on
    the path, and files are written at the place the path leads to. *)
Lemma save_steps_spec d p vs x :
  is_dir d p = true ->
  In x (save_steps d p vs) ->
  exists f k,
    x = put_at d p (Dir f k) /\
    (f = None \/ f = Some (indexed vs)) /\
    (k = None \/ k = Some (docstore vs) \/ k = pkl_of (look d p)).
Proof.
  intros _ [<-|[<-|[<-|[<-|[]]]]]; do 2 eexists; (split; [reflexivity|]); auto.
Qed.

(** C8, as the code has it: for each of the three reasons the build returns
    the same value [False] and leaves the processor and the disk as they
    were; the reason is in the line it prints last, and only there. *)
Theorem build_failure_printed E c st r :
  truthy c = true ->
  failure_reason E c = Some r ->
  (exists l,
      _process_company_pdfs E c st
      = (Returns false, set_output st (l ++ [message_of r c]))) /\
  (forall r', message_of r' c = message_of r c -> r' = r).
Proof.
  intros Hc Hr. split.
  - destruct (process_unfold E c st Hc) as (l1 & l2 & ->).
    unfold failure_reason in Hr.
    destruct (documents_of E c) as [|f pdfs] eqn:Hd.
    { injection Hr as <-. eexists. reflexivity. }
    destruct (non_empty_pages E c) as [|t ts] eqn:Hn.
    { injection Hr as <-.
      unfold non_empty_pages, extracted_pages in *.
      fold (extract E) in *. rewrite (no_text_no_pages E _ Hn).
      eexists. reflexivity. }
    assert (Hx : extracted_pages E c <> []).
    { intros Hx. unfold non_empty_pages in Hn. rewrite Hx in Hn. discriminate. }
    destruct (extracted_pages E c) as [|x xs]; [congruence|].
    unfold tagged_pages in *. rewrite Hn in *.
    change (map (set_company c) (t :: ts))
      with (set_company c t :: map (set_company c) ts) in *.
    cbv match.
    destruct (split_documents E _) as [[|ch chs]|e]; try discriminate.
    injection Hr as <-. eexists. reflexivity.
  - intros r'. destruct r', r; simpl; intros H; congruence.
Qed.

(** ** What a build leaves *)

Lemma process_no_company E c st :
  truthy c = false ->
  _process_company_pdfs E c st
  = (Returns false, set_output st (output st ++ [CompanyNumberRequired])).
Proof. intros H. unfold _process_company_pdfs. rewrite H. reflexivity. Qed.

(** The disk at the end of a save, and what the path finds on it. *)
Lemma saved_disk d path vs :
  last (makedirs_steps d (passes d path)
        ++ save_steps (made d path) (target d path) vs) d
  = put_at (made d path) (target d path) (Index vs).
Proof. rewrite FSProps.last_app_default. reflexivity. Qed.

Lemma saved_read d path vs :
  path <> [] ->
  (put_at (made d path) (target d path) (Index vs)) path = Index vs.
Proof.
  intros Hp. destruct (FSProps.made_resolves d path Hp) as (Hr & Hd & _).
  unfold Index. rewrite (FSProps.read_put (made d path) _ _ _ path Hd), Hr.
  destruct (place_eq_dec (target d path) (target d path));
    [reflexivity | congruence].
Qed.

(** A build, to the end: the conditions under which it returns [True], and
    the state it leaves then. *)
Lemma process_true_full E c st st' :
  _process_company_pdfs E c st = (Returns true, st') ->
  let path := get_company_vector_store_path E c in
  let d := disk st in
  exists chunks c' l,
    truthy c = true /\ tagged_pages E c <> [] /\ chunks <> [] /\
    split_documents E (tagged_pages E c) = Returns chunks /\
    embed_documents E chunks = Returns tt /\
    makedirs_error E d path = None /\
    save_local_error E (made d path) path (mkFAISS chunks) = None /\
    LRU.put pystr_eq_dec c (mkFAISS chunks) (company_vector_stores st)
    = Returns c' /\
    st' = mkState c' (vector_store st)
            (put_at (made d path) (target d path) (Index (mkFAISS chunks)))
            (disk_history st
             ++ makedirs_steps d (passes d path)
             ++ save_steps (made d path) (target d path) (mkFAISS chunks))
            l.
Proof.
  intros H path d. destruct (truthy c) eqn:Hc.
  2:{ rewrite (process_no_company E c st Hc) in H. discriminate. }
  destruct (process_unfold E c st Hc) as (l1 & l2 & Hu). rewrite Hu in H.
  destruct (documents_of E c); [discriminate|].
  destruct (extracted_pages E c); [discriminate|].
  destruct (tagged_pages E c) as [|t ts] eqn:Ht; [discriminate|].
  destruct (split_documents E (t :: ts)) as [[|ch chs]|e] eqn:Hs;
    try discriminate.
  rewrite persist_eq in H. simpl in H. fold path d in H.
  destruct (embed_documents E (ch :: chs)) as [[]|e] eqn:He; [|discriminate].
  destruct (makedirs_error E d path) as [[n e]|] eqn:Hm; [discriminate|].
  destruct (save_local_error E (made d path) path (mkFAISS (ch :: chs)))
    as [[stage e]|] eqn:Hsv; [discriminate|].
  destruct (LRU.put pystr_eq_dec c (mkFAISS (ch :: chs)) (company_vector_stores st))
    as [c'|e] eqn:Hput; [|discriminate].
  injection H as <-. rewrite saved_disk.
  exists (ch :: chs), c'. eexists.
  split; [reflexivity|]. split; [discriminate|]. split; [discriminate|].
  repeat (split; [first [reflexivity | assumption]|]). reflexivity.
Qed.

(** A build that returns [True] has saved the index it built at the path
    of the tenant and put it in the cache. *)
Lemma process_true E c st st' :
  _process_company_pdfs E c st = (Returns true, st') ->
  let path := get_company_vector_store_path E c in
  exists chunks c' (d' : Disk) h l,
    split_documents E (tagged_pages E c) = Returns chunks /\
    LRU.put pystr_eq_dec c (mkFAISS chunks) (company_vector_stores st) = Returns c' /\
    d' path = Index (mkFAISS chunks) /\
    st' = mkState c' (vector_store st) d' h l.
Proof.
  intros H path.
  destruct (process_true_full E c st st' H)
    as (chunks & c' & l & _ & _ & _ & Hs & _ & _ & _ & Hput & ->).
  exists chunks, c'. do 3 eexists.
  split; [exact Hs|]. split; [exact Hput|]. split; [|reflexivity].
  apply saved_read, path_nonempty.
Qed.

(** A build that returns [False] leaves the cache and the active store. *)
Lemma process_false E c st st' :
  _process_company_pdfs E c st = (Returns false, st') ->
  company_vector_stores st' = company_vector_stores st /\
  vector_store st' = vector_store st.
Proof.
  intros H. destruct (truthy c) eqn:Hc.
  2:{ rewrite (process_no_company E c st Hc) in H. injection H as <-.
      simpl. auto. }
  destruct (process_unfold E c st Hc) as (l1 & l2 & Hu). rewrite Hu in H.
  destruct (documents_of E c); [injection H as <-; simpl; auto|].
  destruct (extracted_pages E c); [injection H as <-; simpl; auto|].
  destruct (tagged_pages E c) as [|t ts] eqn:Ht; [injection H as <-; simpl; auto|].
  destruct (split_documents E (t :: ts)) as [[|ch chs]|e];
    [injection H as <-; simpl; auto | | discriminate].
  rewrite persist_eq in H. simpl in H.
  destruct (embed_documents E (ch :: chs)) as [[]|e];
    [|injection H as <-; simpl; auto].
  destruct (makedirs_error E _ _) as [[n e]|];
    [injection H as <-; simpl; auto|].
  destruct (save_local_error E _ _ _) as [[stage e]|];
    [injection H as <-; simpl; auto|].
  destruct (LRU.put pystr_eq_dec c _ _) as [c'|e];
    [discriminate | injection H as <-; simpl; auto].
Qed.

Lemma Forall_firstn {A} (P : A -> Prop) n (l : list A) :
  Forall P l -> Forall P (firstn n l).
Proof.
  intros H. rewrite <- (firstn_skipn n l) in H.
  apply Forall_app in H. tauto.
Qed.

(** The disks a build goes through, however it ends. *)
Lemma process_disk E c st :
  exists steps,
    disk_history (snd (_process_company_pdfs E c st)) = disk_history st ++ steps /\
    disk (snd (_process_company_pdfs E c st)) = last steps (disk st) /\
    Forall (during_build E c (disk st)) steps.
Proof.
  assert (Hnone : forall l,
             exists steps,
               disk_history (set_output st l) = disk_history st ++ steps /\
               disk (set_output st l) = last steps (disk st) /\
               Forall (during_build E c (disk st)) steps).
  { intros l. exists []. simpl. rewrite app_nil_r. auto. }
  destruct (truthy c) eqn:Hc.
  2:{ rewrite (process_no_company E c st Hc). apply Hnone. }
  destruct (process_unfold E c st Hc) as (l1 & l2 & ->).
  destruct (documents_of E c) as [|f0 pdfs]; [apply Hnone|].
  destruct (extracted_pages E c) as [|x0 xs]; [apply Hnone|].
  destruct (tagged_pages E c) as [|t ts] eqn:Ht; [apply Hnone|].
  destruct (split_documents E (t :: ts)) as [[|ch chs]|e] eqn:Hs;
    [apply Hnone | | apply Hnone].
  rewrite persist_eq. simpl.
  set (d := disk st). set (path := get_company_vector_store_path E c).
  set (vs := mkFAISS (ch :: chs)).
  destruct (FSProps.made_spec d path) as (Hmade & Hall & Hdirs & _ & _).
  assert (Hd : Forall (during_build E c d) (makedirs_steps d (passes d path))).
  { apply Forall_forall. intros x Hx. left.
    exact (proj1 (Forall_forall _ _) Hall x Hx). }
  assert (Hf : Forall (during_build E c d)
                 (save_steps (made d path) (target d path) vs)).
  { apply Forall_forall. intros x Hx. right.
    destruct (save_steps_spec (made d path) (target d path) vs x
                (Hdirs _ (FSProps.target_passed d path)) Hx)
      as (f & k & -> & Hf & Hk).
    exists (ch :: chs), f, k. fold path d. rewrite Ht. auto. }
  assert (Hboth : forall n,
             Forall (during_build E c d)
               (makedirs_steps d (passes d path)
                ++ firstn n (save_steps (made d path) (target d path) vs))).
  { intros n. apply Forall_app. split; [exact Hd | apply Forall_firstn, Hf]. }
  assert (Hall4 : Forall (during_build E c d)
               (makedirs_steps d (passes d path)
                ++ save_steps (made d path) (target d path) vs)).
  { apply Forall_app. split; assumption. }
  destruct (embed_documents E (ch :: chs)) as [[]|e].
  2:{ exists []. simpl. rewrite app_nil_r. auto. }
  destruct (makedirs_error E d path) as [[n e]|].
  { eexists. simpl. split; [reflexivity|]. split; [reflexivity|].
    apply Forall_firstn, Hd. }
  destruct (save_local_error E (made d path) path vs) as [[stage e]|].
  { eexists. simpl. split; [reflexivity|]. split; [reflexivity|]. apply Hboth. }
  destruct (LRU.put pystr_eq_dec c vs (company_vector_stores st)) as [c'|e];
    eexists; simpl; (split; [reflexivity|]); (split; [reflexivity|]);
    exact Hall4.
Qed.

(** ** The answerer, case by case *)

Lemma set_cache_same st : set_cache st (company_vector_stores st) = st.
Proof. destruct st; reflexivity. Qed.

(** [answer_question] after the vector store is found or not. *)
Lemma answer_question_eq E q c st :
  truthy c = true ->
  answer_question E q c st =
  match resolve_vector_store E c st with
  | (Returns (Some msg), st') => (Returns msg, st')
  | (Returns None, st') =>
      match vector_store st' with
      | None => (Returns (msg_no_data c), st')
      | Some vs => (qa_chain E vs q, st')
      end
  | (Raises e, st') => (Raises e, st')
  end.
Proof.
  intros Hc. unfold answer_question. rewrite Hc. simpl. unfold bind at 1.
  destruct (resolve_vector_store E c st) as [[[msg|]|e] st']; try reflexivity.
  unfold bind, gets, setup_qa_chain, bind, gets, lift, ret. simpl.
  destruct (vector_store st') eqn:Hv; [|reflexivity].
  rewrite Hv. reflexivity.
Qed.

(** A hit in the cache: the cached store is the one used; the disk is not
    read and nothing is built. *)
Lemma resolve_hit E c st :
  LRU.contains pystr_eq_dec c (LRU.items (company_vector_stores st)) = true ->
  exists vs c',
    LRU.get pystr_eq_dec c (company_vector_stores st) = Returns (Some vs, c') /\
    resolve_vector_store E c st
    = (Returns None,
       mkState c' (Some vs) (disk st) (disk_history st) (output st)).
Proof.
  intros Hin.
  destruct (LRUProps.get_returns pystr FAISS pystr_eq_dec c (company_vector_stores st))
    as (a & c' & Hg & _ & Hnone & _).
  destruct a as [vs|].
  2:{ destruct (Hnone eq_refl) as [_ Hf]. congruence. }
  exists vs, c'. split; [exact Hg|].
  unfold resolve_vector_store, bind, cache_get. rewrite Hg. reflexivity.
Qed.

Lemma cache_get_miss c st :
  LRU.contains pystr_eq_dec c (LRU.items (company_vector_stores st)) = false ->
  cache_get c st = (Returns None, st).
Proof.
  intros Hc. unfold cache_get, LRU.get. rewrite Hc. simpl.
  rewrite set_cache_same. reflexivity.
Qed.

(** A miss in the cache and an index on disk: the index is loaded, put in
    the cache and used; nothing is built. *)
Lemma resolve_load E c st vs :
  LRU.contains pystr_eq_dec c (LRU.items (company_vector_stores st)) = false ->
  disk st (get_company_vector_store_path E c) = Index vs ->
  exists c',
    LRU.put pystr_eq_dec c vs (company_vector_stores st) = Returns c' /\
    resolve_vector_store E c st
    = (Returns None,
       mkState c' (Some vs) (disk st) (disk_history st) (output st)).
Proof.
  intros Hc Hd.
  destruct (LRUProps.put_returns pystr FAISS pystr_eq_dec c vs (company_vector_stores st))
    as (c' & Hp & _).
  exists c'. split; [exact Hp|].
  destruct vs as [index store]. unfold Index in Hd. simpl in Hd.
  unfold resolve_vector_store. unfold bind at 1. rewrite (cache_get_miss c st Hc).
  unfold bind at 1. unfold os_path_exists, gets. rewrite Hd.
  unfold try_except, bind, FAISS_load_local. rewrite Hd.
  unfold cache_put. rewrite Hp. reflexivity.
Qed.

(** A miss in the cache and nothing at the path: the index is built. *)
Lemma resolve_build E c st :
  LRU.contains pystr_eq_dec c (LRU.items (company_vector_stores st)) = false ->
  disk st (get_company_vector_store_path E c) = Absent ->
  resolve_vector_store E c st =
  match _process_company_pdfs E c
          (set_output st (output st ++ [NoVectorStoreFound c])) with
  | (Returns true, st1) =>
      match cache_get c st1 with
      | (Returns vs, st2) =>
          (Returns None,
           mkState (company_vector_stores st2) vs (disk st2) (disk_history st2)
                   (output st2))
      | (Raises e, st2) => (Raises e, st2)
      end
  | (Returns false, st1) => (Returns (Some (msg_no_pdfs c)), st1)
  | (Raises e, st1) => (Raises e, st1)
  end.
Proof.
  intros Hc Hd.
  unfold resolve_vector_store. unfold bind at 1. rewrite (cache_get_miss c st Hc).
  unfold bind at 1. unfold os_path_exists, gets. rewrite Hd.
  unfold bind at 1. rewrite say_eq. unfold bind at 1.
  destruct (_process_company_pdfs E c _) as [[[|]|e] st1]; reflexivity.
Qed.

(** A miss in the cache and a directory whose index does not load: the
    index is built. *)
Lemma resolve_rebuild E c st :
  LRU.contains pystr_eq_dec c (LRU.items (company_vector_stores st)) = false ->
  disk st (get_company_vector_store_path E c) <> Absent ->
  (forall vs, disk st (get_company_vector_store_path E c) <> Index vs) ->
  resolve_vector_store E c st =
  match _process_company_pdfs E c
          (set_output st
             (output st
              ++ [ErrorLoadingVectorStore c (LibraryError "load_local")])) with
  | (Returns _, st1) =>
      match cache_get c st1 with
      | (Returns (Some vs), st2) =>
          (Returns None,
           mkState (company_vector_stores st2) (Some vs) (disk st2)
                   (disk_history st2) (output st2))
      | (Returns None, st2) =>
          (Returns (Some (msg_failed_to_process c)),
           mkState (company_vector_stores st2) None (disk st2)
                   (disk_history st2) (output st2))
      | (Raises e, st2) => (Raises e, st2)
      end
  | (Raises e, st1) => (Raises e, st1)
  end.
Proof.
  intros Hc Hd Hno.
  unfold resolve_vector_store. unfold bind at 1. rewrite (cache_get_miss c st Hc).
  unfold bind at 1. unfold os_path_exists, gets.
  unfold try_except. unfold bind at 1. unfold FAISS_load_local. cbv beta.
  destruct (disk st (get_company_vector_store_path E c))
    as [|[index|] [store|]] eqn:Hentry;
    [congruence | destruct (Hno (mkStore index store) eq_refl) | | |];
    (cbv beta match; unfold bind at 1; rewrite Hentry; cbv beta match;
     unfold bind at 1; rewrite say_eq; unfold bind at 1;
     destruct (_process_company_pdfs E c _) as [[b|e] st1]; [|reflexivity];
     unfold bind at 1;
     destruct (cache_get c st1) as [[[vs|]|e] st2]; reflexivity).
Qed.

Lemma cache_get_returns c st :
  exists a st', cache_get c st = (Returns a, st') /\
                disk st' = disk st /\ output st' = output st /\
                disk_history st' = disk_history st.
Proof.
  destruct (LRUProps.get_returns pystr FAISS pystr_eq_dec c (company_vector_stores st))
    as (a & c' & Hg & _).
  unfold cache_get. rewrite Hg. do 2 eexists. split; [reflexivity|].
  simpl. auto.
Qed.


Lemma ends_well_of_resolve E q c st r st' :
  truthy c = true ->
  resolve_vector_store E c st = (r, st') ->
  (r = Returns None \/
   (exists msg, r = Returns (Some msg) /\ In msg (no_index_answers c)) \/
   (exists e st1, r = Raises e /\ fst (_process_company_pdfs E c st1) = Raises e)) ->
  ends_well E q c st.
Proof.
  intros Hc Hr Hcases. unfold ends_well.
  rewrite (answer_question_eq E q c st Hc). unfold store_used. rewrite Hr.
  destruct Hcases as [->|[(msg & -> & Hin)|(e & st1 & -> & He)]].
  - destruct (vector_store st') as [vs|] eqn:Hv.
    + do 2 eexists. split; [reflexivity|]. right. left. eauto.
    + do 2 eexists. split; [reflexivity|]. left. eexists. split; [reflexivity|].
      simpl. auto.
  - do 2 eexists. split; [reflexivity|]. left. eauto.
  - do 2 eexists. split; [reflexivity|]. right. right. eauto.
Qed.

Lemma answer_question_ends_well E q c st : ends_well E q c st.
Proof.
  destruct (truthy c) eqn:Hc.
  2:{ unfold ends_well, answer_question. rewrite Hc. simpl.
      do 2 eexists. split; [reflexivity|]. left. eexists. split; [reflexivity|].
      simpl. auto. }
  destruct (LRU.contains pystr_eq_dec c (LRU.items (company_vector_stores st)))
    eqn:Hin.
  { destruct (resolve_hit E c st Hin) as (vs & c' & _ & Hr).
    apply (ends_well_of_resolve E q c st _ _ Hc Hr). auto. }
  destruct (FSProps.entry_cases (disk st (get_company_vector_store_path E c)))
    as [Hd|[[Hd Hno]|[vs Hd]]].
  - pose proof (resolve_build E c st Hin Hd) as Hr.
    destruct (_process_company_pdfs E c _) as [[[|]|e] st1] eqn:Hp.
    + destruct (cache_get_returns c st1) as (a & st2 & Hg & _).
      rewrite Hg in Hr.
      apply (ends_well_of_resolve E q c st _ _ Hc Hr). auto.
    + apply (ends_well_of_resolve E q c st _ _ Hc Hr). right. left.
      eexists. split; [reflexivity|]. simpl. auto.
    + apply (ends_well_of_resolve E q c st _ _ Hc Hr). right. right.
      exists e. eexists. split; [reflexivity|]. rewrite Hp. reflexivity.
  - pose proof (resolve_rebuild E c st Hin Hd Hno) as Hr.
    destruct (_process_company_pdfs E c _) as [[b|e] st1] eqn:Hp.
    + destruct (cache_get_returns c st1) as ([vs|] & st2 & Hg & _);
        rewrite Hg in Hr;
        apply (ends_well_of_resolve E q c st _ _ Hc Hr); [auto|].
      right. left. eexists. split; [reflexivity|]. simpl. auto.
    + apply (ends_well_of_resolve E q c st _ _ Hc Hr). right. right.
      exists e. eexists. split; [reflexivity|]. rewrite Hp. reflexivity.
  - destruct (resolve_load E c st vs Hin Hd) as (c' & _ & Hr).
    apply (ends_well_of_resolve E q c st _ _ Hc Hr). auto.
Qed.

(** After a build that returned [True], with room in the cache, the store
    that was built is the one the cache gives back. *)
Lemma built_then_cached E c st st1 :
  LRU.wf (LRU.items (company_vector_stores st)) ->
  (1 <= LRU.capacity (company_vector_stores st))%Z ->
  _process_company_pdfs E c st = (Returns true, st1) ->
  exists chunks,
    split_documents E (tagged_pages E c) = Returns chunks /\
    disk st1 (get_company_vector_store_path E c) = Index (mkFAISS chunks) /\
    cache_get c st1 = (Returns (Some (mkFAISS chunks)), st1).
Proof.
  intros Hwf Hcap Hp.
  destruct (process_true E c st st1 Hp)
    as (chunks & c' & d' & h & l & Hs & Hput & Hd & ->).
  exists chunks. split; [exact Hs|]. split; [exact Hd|].
  unfold cache_get. simpl.
  rewrite (LRUProps.put_get pystr FAISS pystr_eq_dec c (mkFAISS chunks)
             (company_vector_stores st) c' Hwf Hcap Hput).
  reflexivity.
Qed.

(** C6, as the code has it: the vector store is looked for in the cache,
    then on disk, then built.  A store found in the cache or loaded from the
    disk is the one the chain runs on.  Without one, the build runs: when it
    returns [False] the call returns a fixed answer; when it returns [True]
    the chain runs on the store that was built, which the cache of a
    processor keeps; when it raises, the exception goes to the caller.  The
    call ends as the chain does, in the answer of the model or in the
    exception the retriever or the model raised, which goes to the
    caller. *)
Theorem answer_question_resolution E q c st :
  let cache := company_vector_stores st in
  let path := get_company_vector_store_path E c in
  let missing := LRU.contains pystr_eq_dec c (LRU.items cache) = false in
  let unloadable :=
    disk st path <> Absent /\ forall vs, disk st path <> Index vs in
  let room := LRU.wf (LRU.items cache) /\ (1 <= LRU.capacity cache)%Z in
  let build_after m :=
    _process_company_pdfs E c (set_output st (output st ++ [m])) in
  let built st1 :=
    exists chunks,
      split_documents E (tagged_pages E c) = Returns chunks /\
      disk st1 path = Index (mkFAISS chunks) /\
      answer_question E q c st
      = (qa_chain E (mkFAISS chunks) q,
         mkState (company_vector_stores st1) (Some (mkFAISS chunks))
                 (disk st1) (disk_history st1) (output st1)) in
  (truthy c = false ->
   answer_question E q c st = (Returns msg_specify_company, st)) /\
  (truthy c = true ->
   forall vs c', LRU.get pystr_eq_dec c cache = Returns (Some vs, c') ->
     answer_question E q c st
     = (qa_chain E vs q,
        mkState c' (Some vs) (disk st) (disk_history st) (output st))) /\
  (truthy c = true -> missing ->
   forall vs, disk st path = Index vs ->
     exists c', LRU.put pystr_eq_dec c vs cache = Returns c' /\
       answer_question E q c st
       = (qa_chain E vs q,
          mkState c' (Some vs) (disk st) (disk_history st) (output st))) /\
  (truthy c = true -> missing -> disk st path = Absent ->
   forall st1,
     (build_after (NoVectorStoreFound c) = (Returns false, st1) ->
      answer_question E q c st = (Returns (msg_no_pdfs c), st1)) /\
     (build_after (NoVectorStoreFound c) = (Returns true, st1) ->
      room -> built st1) /\
     (forall e,
         build_after (NoVectorStoreFound c) = (Raises e, st1) ->
         answer_question E q c st = (Raises e, st1))) /\
  (truthy c = true -> missing -> unloadable ->
   forall st1,
     let m := ErrorLoadingVectorStore c (LibraryError "load_local") in
     (build_after m = (Returns false, st1) ->
      answer_question E q c st
      = (Returns (msg_failed_to_process c),
         mkState (company_vector_stores st1) None (disk st1) (disk_history st1)
                 (output st1))) /\
     (build_after m = (Returns true, st1) -> room -> built st1) /\
     (forall e,
         build_after m = (Raises e, st1) ->
         answer_question E q c st = (Raises e, st1))) /\
  ends_well E q c st.
Proof.
  intros cache path missing unloadable room build_after built.
  subst cache path missing unloadable room build_after built. cbv beta.
  split; [|split; [|split; [|split; [|split]]]].
  - intros Hc. unfold answer_question. rewrite Hc. reflexivity.
  - intros Hc vs c' Hg.
    assert (Hin : LRU.contains pystr_eq_dec c
                    (LRU.items (company_vector_stores st)) = true).
    { unfold LRU.get in Hg.
      destruct (LRU.contains pystr_eq_dec c (LRU.items (company_vector_stores st)));
        [reflexivity | discriminate]. }
    destruct (resolve_hit E c st Hin) as (vs' & c'' & Hg' & Hr).
    rewrite Hg in Hg'. injection Hg' as <- <-.
    rewrite (answer_question_eq E q c st Hc), Hr. reflexivity.
  - intros Hc Hin vs Hd.
    destruct (resolve_load E c st vs Hin Hd) as (c' & Hp & Hr).
    exists c'. split; [exact Hp|].
    rewrite (answer_question_eq E q c st Hc), Hr. reflexivity.
  - intros Hc Hin Hd st1.
    rewrite (answer_question_eq E q c st Hc), (resolve_build E c st Hin Hd).
    split; [|split].
    + intros Hp. rewrite Hp. reflexivity.
    + intros Hp [Hwf Hcap].
      destruct (built_then_cached E c
                  (set_output st (output st ++ [NoVectorStoreFound c]))
                  st1 Hwf Hcap Hp)
        as (chunks & Hs & Hd1 & Hg).
      exists chunks. split; [exact Hs|]. split; [exact Hd1|].
      rewrite Hp, Hg. reflexivity.
    + intros e Hp. rewrite Hp. reflexivity.
  - intros Hc Hin [Hd Hno] st1.
    rewrite (answer_question_eq E q c st Hc),
      (resolve_rebuild E c st Hin Hd Hno).
    split; [|split].
    + intros Hp. rewrite Hp.
      destruct (process_false E c _ _ Hp) as (Hcache & _).
      simpl in Hcache.
      assert (Hin1 : LRU.contains pystr_eq_dec c
                       (LRU.items (company_vector_stores st1)) = false)
        by (rewrite Hcache; exact Hin).
      rewrite (cache_get_miss c st1 Hin1). reflexivity.
    + intros Hp [Hwf Hcap].
      destruct (built_then_cached E c
                  (set_output st
                     (output st
                      ++ [ErrorLoadingVectorStore c (LibraryError "load_local")]))
                  st1 Hwf Hcap Hp)
        as (chunks & Hs & Hd1 & Hg).
      exists chunks. split; [exact Hs|]. split; [exact Hd1|].
      rewrite Hp, Hg. reflexivity.
    + intros e Hp. rewrite Hp. reflexivity.
  - apply answer_question_ends_well.
Qed.

Lemma dirs_made_pkl places d d' q :
  dirs_made places d d' -> pkl_of (look d' q) = pkl_of (look d q).
Proof.
  intros [_ H]. destruct (H q) as [->|(-> & -> & _)]; reflexivity.
Qed.

(** C7, as the code has it: a build that succeeds writes in place.  It makes
    the directories that are missing on the tenant's path, one after the
    other; then, in the directory the path leads to, [index.faiss] is
    emptied and written, and after it [index.pkl] is emptied and written,
    with the chunks of the tenant.  A reader of the path finds, in these
    four states, no index that loads, or the new [index.faiss] beside the
    [index.pkl] from before, and the complete new index in the last only.
    After the build the path holds the index built, which is also in the
    cache, and no other place has changed but for the directories made. *)
Theorem publish_in_place E c st st' :
  _process_company_pdfs E c st = (Returns true, st') ->
  let path := get_company_vector_store_path E c in
  let d := disk st in
  let here := target d path in
  let before := pkl_of (look d here) in
  exists chunks,
    split_documents E (tagged_pages E c) = Returns chunks /\
    dirs_made (passes d path) d (made d path) /\
    Forall (dirs_made (passes d path) d) (makedirs_steps d (passes d path)) /\
    resolve (made d path) path = Some here /\
    disk_history st'
    = disk_history st ++ makedirs_steps d (passes d path)
      ++ [put_at (made d path) here (Dir None before);
          put_at (made d path) here (Dir (Some chunks) before);
          put_at (made d path) here (Dir (Some chunks) None);
          disk st'] /\
    (put_at (made d path) here (Dir None before)) path = Dir None before /\
    (put_at (made d path) here (Dir (Some chunks) before)) path
    = Dir (Some chunks) before /\
    (put_at (made d path) here (Dir (Some chunks) None)) path
    = Dir (Some chunks) None /\
    disk st' path = Index (mkFAISS chunks) /\
    (forall q, q <> here -> look (disk st') q = look (made d path) q) /\
    LRU.put pystr_eq_dec c (mkFAISS chunks) (company_vector_stores st)
    = Returns (company_vector_stores st').
Proof.
  intros H path d here before.
  destruct (process_true_full E c st st' H)
    as (chunks & c' & l & _ & _ & _ & Hs & _ & _ & _ & Hput & ->).
  fold path d here. simpl.
  destruct (FSProps.made_spec d path) as (Hmade & Hall & _).
  destruct (FSProps.made_resolves d path (path_nonempty E c)) as (Hr & Hdir & _).
  fold here in Hr, Hdir.
  assert (Hread : forall f k,
             (put_at (made d path) here (Dir f k)) path = Dir f k).
  { intros f k. rewrite (FSProps.read_put (made d path) here f k path Hdir), Hr.
    destruct (place_eq_dec here here); [reflexivity | congruence]. }
  exists chunks. split; [exact Hs|]. split; [exact Hmade|].
  split; [exact Hall|]. split; [exact Hr|]. split.
  { unfold save_steps. fold here.
    rewrite (dirs_made_pkl (passes d path) d (made d path) here Hmade).
    reflexivity. }
  split; [apply Hread|]. split; [apply Hread|]. split; [apply Hread|].
  split; [apply Hread|]. split; [|exact Hput].
  intros q Hq. apply FSProps.look_put_other, Hq.
Qed.

(** ** Tenant isolation *)

Lemma meta_get_set key v md : meta_get key (meta_set key v md) = Some v.
Proof.
  induction md as [|[k w] r IH]; simpl.
  - rewrite String.eqb_refl. reflexivity.
  - destruct (String.eqb key k) eqn:E; simpl; rewrite E; [reflexivity | exact IH].
Qed.

Lemma company_of_set_company c d : company_of (set_company c d) = Some (VStr c).
Proof. apply meta_get_set. Qed.

(** [os.path.join] before a relative path. *)
Lemma os_path_join_relative a b c :
  c <> 47%N ->
  os_path_join a (c :: b)
  = match a with
    | [] => c :: b
    | _ :: _ => if (last a 0 =? 47)%N then a ++ c :: b else a ++ 47%N :: c :: b
    end.
Proof.
  intros Hc. unfold os_path_join. destruct c as [|p]; [reflexivity|].
  do 6 (destruct p as [p|p|]; try reflexivity). congruence.
Qed.

(** The path of the vector store tells relative identifiers apart. *)
Lemma path_injective E t t' :
  relative t -> relative t' ->
  get_company_vector_store_path E t = get_company_vector_store_path E t' ->
  t = t'.
Proof.
  unfold get_company_vector_store_path, relative.
  intros Ht Ht'.
  destruct t as [|a r]; [destruct Ht|]. destruct t' as [|a' r']; [destruct Ht'|].
  rewrite !os_path_join_relative by assumption. intros H.
  destruct (VECTOR_STORE_PATH E) as [|b s]; [exact H|].
  destruct (last (b :: s) 0 =? 47)%N; apply app_inv_head in H; congruence.
Qed.

(** Where the program is installed under an absolute directory, the path of
    a tenant's vector store, given as an identifier, has that same path:
    [os.path.join] drops the folder before an absolute identifier. *)
Lemma path_alias E r t :
  module_dir E = 47%N :: r ->
  get_company_vector_store_path E (get_company_vector_store_path E t)
  = get_company_vector_store_path E t.
Proof.
  intros Hd.
  assert (Habs : exists s, get_company_vector_store_path E t = 47%N :: s).
  { unfold get_company_vector_store_path.
    assert (Hv : exists s, VECTOR_STORE_PATH E = 47%N :: s).
    { unfold VECTOR_STORE_PATH. rewrite Hd. unfold os_path_join. simpl.
      match goal with |- context [if ?b then _ else _] => destruct b end;
        simpl; eauto. }
    destruct Hv as (s & ->).
    destruct t as [|a t'].
    { unfold os_path_join.
      match goal with |- context [if ?b then _ else _] => destruct b end;
        simpl; eauto. }
    destruct (N.eq_dec a 47) as [->|Hne]; [simpl; eauto|].
    rewrite (os_path_join_relative (47%N :: s) t' a Hne).
    match goal with |- context [if ?b then _ else _] => destruct b end;
      simpl; eauto. }
  destruct Habs as (s & Hs). rewrite Hs. reflexivity.
Qed.

(** The index a build makes has the chunks of the tenant only. *)
Lemma built_tagged E c chunks :
  faithful E ->
  split_documents E (tagged_pages E c) = Returns chunks ->
  tagged c (mkFAISS chunks).
Proof.
  intros [Hsplit _] Hs d Hd. simpl in Hd.
  destruct (Hsplit _ _ Hs d Hd) as (p & Hp & ->).
  unfold tagged_pages in Hp. apply in_map_iff in Hp.
  destruct Hp as (p0 & <- & _). apply company_of_set_company.
Qed.

Lemma process_raises E c st e st' :
  _process_company_pdfs E c st = (Raises e, st') ->
  exists l, st' = set_output st l.
Proof.
  intros H. destruct (truthy c) eqn:Hc.
  2:{ rewrite (process_no_company E c st Hc) in H. discriminate. }
  destruct (process_unfold E c st Hc) as (l1 & l2 & Hu). rewrite Hu in H.
  destruct (documents_of E c); [discriminate|].
  destruct (extracted_pages E c); [discriminate|].
  destruct (tagged_pages E c) as [|t ts] eqn:Ht; [discriminate|].
  destruct (split_documents E (t :: ts)) as [[|ch chs]|e'];
    [discriminate | | injection H as _ <-; eauto].
  rewrite persist_eq in H. simpl in H.
  destruct (embed_documents E (ch :: chs)) as [[]|e1]; [|discriminate].
  destruct (makedirs_error E _ _) as [[n e1]|]; [discriminate|].
  destruct (save_local_error E _ _ _) as [[stage e1]|]; [discriminate|].
  destruct (LRU.put pystr_eq_dec c _ _) as [c'|e1]; discriminate.
Qed.

(** *** The place of a tenant *)

Lemma names_of_plain t : ~ In 47%N t -> names_of t = [t].
Proof.
  induction t as [|a r IH]; simpl; intros H; [reflexivity|].
  destruct (a =? 47)%N eqn:E.
  - apply N.eqb_eq in E. tauto.
  - rewrite IH by tauto. reflexivity.
Qed.

Lemma names_of_sep a b : names_of (a ++ 47%N :: b) = names_of a ++ names_of b.
Proof.
  induction a as [|x r IH]; simpl; [reflexivity|].
  rewrite IH. destruct (x =? 47)%N; [reflexivity|].
  pose proof (FSProps.names_of_nonempty r) as Hn.
  destruct (names_of r); [congruence | reflexivity].
Qed.

Lemma step_plain cur t : plain t -> step cur t = cur ++ [t].
Proof.
  intros (H1 & _ & H2 & H3). unfold step.
  destruct (pystr_eq_dec t []); [congruence|].
  destruct (pystr_eq_dec t (lit ".")); [congruence|].
  destruct (pystr_eq_dec t (lit "..")); [congruence | reflexivity].
Qed.

Lemma origin_app d a b : a <> [] -> origin d (a ++ b) = origin d a.
Proof. intros Ha. destruct a; [congruence | reflexivity]. Qed.

(** The place of a tenant whose identifier is one name is that name in
    one folder, the same for all of them. *)
Lemma place_of_plain E d :
  exists base, forall t, plain t -> place_of E d t = base ++ [t].
Proof.
  assert (Hv : VECTOR_STORE_PATH E <> [])
    by (apply os_path_join_nonempty; discriminate).
  set (V := VECTOR_STORE_PATH E) in *.
  destruct (last V 0 =? 47)%N eqn:Hlast.
  - exists (fold_left step (names_of (removelast V)) (origin d V)).
    intros t Ht. pose proof Ht as (Hne & Hns & _).
    unfold place_of, target, get_company_vector_store_path. fold V.
    destruct t as [|x r]; [congruence|].
    assert (Hx : x <> 47%N) by (intros ->; apply Hns; left; reflexivity).
    rewrite (os_path_join_relative V r x Hx).
    destruct V as [|v0 v'] eqn:EV; [congruence|]. rewrite Hlast, <- EV.
    rewrite (origin_app d V (x :: r)) by (rewrite EV; discriminate).
    assert (EV' : V = removelast V ++ [47%N]).
    { apply N.eqb_eq in Hlast. rewrite <- Hlast, EV.
      apply app_removelast_last. discriminate. }
    rewrite EV' at 1. rewrite <- app_assoc. simpl app.
    rewrite names_of_sep, (names_of_plain (x :: r) Hns), fold_left_app. simpl.
    apply step_plain, Ht.
  - exists (fold_left step (names_of V) (origin d V)).
    intros t Ht. pose proof Ht as (Hne & Hns & _).
    unfold place_of, target, get_company_vector_store_path. fold V.
    destruct t as [|x r]; [congruence|].
    assert (Hx : x <> 47%N) by (intros ->; apply Hns; left; reflexivity).
    rewrite (os_path_join_relative V r x Hx).
    destruct V as [|v0 v'] eqn:EV; [congruence|]. rewrite Hlast, <- EV.
    rewrite (origin_app d V (47%N :: x :: r)) by (rewrite EV; discriminate).
    rewrite names_of_sep, (names_of_plain (x :: r) Hns), fold_left_app. simpl.
    apply step_plain, Ht.
Qed.

Lemma place_of_injective E d t t' :
  plain t -> plain t' -> place_of E d t = place_of E d t' -> t = t'.
Proof.
  intros Ht Ht'. destruct (place_of_plain E d) as (base & Hb).
  rewrite (Hb t Ht), (Hb t' Ht'). intros H. apply app_inv_head in H.
  congruence.
Qed.

Lemma place_of_cwd E d d' t : cwd d' = cwd d -> place_of E d' t = place_of E d t.
Proof.
  intros H. unfold place_of, target.
  rewrite (FSProps.origin_cwd d d' _ H). reflexivity.
Qed.

(** *** The stores stay partitioned *)

Lemma chunks_of_unique E t x y : chunks_of E t x -> chunks_of E t y -> x = y.
Proof. unfold chunks_of. intros Hx Hy. congruence. Qed.

Lemma files_of_made E t places d d' q :
  dirs_made places d d' -> files_of E t (look d q) -> files_of E t (look d' q).
Proof.
  intros [_ H] Hf. destruct (H q) as [->|(_ & -> & _)]; [exact Hf|].
  split; intros x Hx; discriminate.
Qed.

(** A disk a build for [c] goes through keeps the files of every tenant
    its own. *)
Lemma during_build_files E c d x :
  plain c ->
  (forall t, plain t -> files_of E t (look d (place_of E d t))) ->
  during_build E c d x ->
  cwd x = cwd d /\
  forall t, plain t -> files_of E t (look x (place_of E x t)).
Proof.
  intros Hc Hinv [Hm|(chunks & f & k & Hs & -> & Hf & Hk)].
  - split; [exact (proj1 Hm)|]. intros t Ht.
    rewrite (place_of_cwd E d x t (proj1 Hm)).
    exact (files_of_made E t _ d x _ Hm (Hinv t Ht)).
  - set (path := get_company_vector_store_path E c) in *.
    destruct (FSProps.made_spec d path) as (Hmade & _).
    assert (Hcwd : cwd (put_at (made d path) (target d path) (Dir f k)) = cwd d)
      by exact (proj1 Hmade).
    split; [exact Hcwd|]. intros t Ht.
    rewrite (place_of_cwd E d _ t Hcwd).
    destruct (place_eq_dec (place_of E d t) (target d path)) as [Eq|Hne].
    + assert (t = c) by (apply (place_of_injective E d t c Ht Hc); exact Eq).
      subst t. rewrite Eq, FSProps.look_put_same. split.
      * intros y Hy. destruct Hf as [->| ->]; [discriminate|].
        injection Hy as <-. exact Hs.
      * intros y Hy. destruct Hk as [->|[->| ->]]; [discriminate| |].
        -- injection Hy as <-. exact Hs.
        -- rewrite (dirs_made_pkl _ d (made d path) _ Hmade) in Hy.
           pose proof (Hinv c Hc) as Hold. unfold place_of in Hold.
           fold path in Hold.
           destruct (look d (target d path)) as [|f0 k0]; [discriminate|].
           simpl in Hy. apply (proj2 Hold y Hy).
    + rewrite FSProps.look_put_other by exact Hne.
      exact (files_of_made E t _ d (made d path) _ Hmade (Hinv t Ht)).
Qed.

Lemma last_Forall {A} (P : A -> Prop) (l : list A) (x : A) :
  P x -> Forall P l -> P (last l x).
Proof.
  intros Hx Hl. revert x Hx. induction Hl as [|y r Hy _ IH]; intros x Hx.
  - exact Hx.
  - rewrite FSProps.last_cons_default. apply IH, Hy.
Qed.

(** A build for an identifier that is one name keeps the stores
    partitioned. *)
Lemma process_partitioned E c st :
  plain c -> partitioned E st ->
  partitioned E (snd (_process_company_pdfs E c st)).
Proof.
  intros Hpl (Hwf & Hcache & Hdisk).
  assert (Hfiles : forall t, plain t ->
             files_of E t
               (look (disk (snd (_process_company_pdfs E c st)))
                     (place_of E (disk (snd (_process_company_pdfs E c st))) t))).
  { destruct (process_disk E c st) as (steps & _ & -> & Hall).
    apply (last_Forall
             (fun x => forall t, plain t -> files_of E t (look x (place_of E x t)))).
    - exact Hdisk.
    - apply Forall_forall. intros x Hx.
      exact (proj2 (during_build_files E c (disk st) x Hpl Hdisk
                      (proj1 (Forall_forall _ _) Hall x Hx))). }
  destruct (_process_company_pdfs E c st) as [[[|]|e] st'] eqn:Hp;
    simpl in *.
  - destruct (process_true E c st st' Hp)
      as (chunks & c' & d' & h & l & Hs & Hput & _ & ->).
    destruct (LRUProps.put_items pystr FAISS pystr_eq_dec c (mkFAISS chunks)
                (company_vector_stores st) c' Hwf Hput) as (Hwf' & Hin).
    split; [exact Hwf'|]. split; simpl; [|exact Hfiles].
    intros t vs Ht Hi. destruct (Hin _ Hi) as [E0|Hi'].
    + injection E0 as -> ->. exists chunks. split; [exact Hs | reflexivity].
    + apply Hcache; assumption.
  - destruct (process_false E c st st' Hp) as (Hc & _).
    split; [rewrite Hc; exact Hwf|]. split; [|exact Hfiles].
    rewrite Hc. exact Hcache.
  - destruct (process_raises E c st e st' Hp) as (l & ->).
    split; [exact Hwf|]. split; [exact Hcache | exact Hfiles].
Qed.

Lemma partitioned_output E st l :
  partitioned E st -> partitioned E (set_output st l).
Proof. intros H. exact H. Qed.

(** What [cache_get] answers is in the cache, and the cache stays
    partitioned. *)
Lemma cache_get_partitioned E c st a st' :
  partitioned E st -> cache_get c st = (Returns a, st') ->
  partitioned E st' /\
  (forall vs, a = Some vs -> In (c, vs) (LRU.items (company_vector_stores st))).
Proof.
  intros (Hwf & Hcache & Hdisk) Hg. unfold cache_get in Hg.
  destruct (LRUProps.get_returns pystr FAISS pystr_eq_dec c (company_vector_stores st))
    as (a' & c' & Hget & _ & Hnone & _).
  rewrite Hget in Hg. injection Hg as <- <-.
  destruct a' as [vs|].
  - destruct (LRUProps.get_some pystr FAISS pystr_eq_dec c vs _ _ Hwf Hget)
      as (Hin & Hwf' & Hsame).
    split.
    + split; [exact Hwf'|]. split; simpl; [|exact Hdisk].
      intros t vs' Ht Hi. apply (Hcache t vs' Ht). apply Hsame, Hi.
    + intros vs' E0. injection E0 as <-. exact Hin.
  - destruct (Hnone eq_refl) as [-> _]. rewrite set_cache_same.
    split; [split; [exact Hwf | split; assumption] | discriminate].
Qed.

(** An index the path of a tenant finds on a partitioned disk is a store of
    the tenant. *)
Lemma loaded_store_of E c st vs :
  plain c -> partitioned E st ->
  disk st (get_company_vector_store_path E c) = Index vs ->
  store_of E c vs.
Proof.
  intros Hpl (_ & _ & Hdisk) Hd. unfold read in Hd.
  destruct (resolve (disk st) (get_company_vector_store_path E c)) as [p|] eqn:Hr;
    [|discriminate].
  apply FSProps.resolve_target in Hr. subst p.
  pose proof (Hdisk c Hpl) as Hf. unfold place_of in Hf. rewrite Hd in Hf.
  destruct vs as [index store]. unfold Index in Hf. simpl in Hf.
  destruct Hf as [Hi Hk].
  pose proof (Hi index eq_refl) as Hci. pose proof (Hk store eq_refl) as Hck.
  exists index. split; [exact Hci|].
  rewrite (chunks_of_unique E c store index Hck Hci). reflexivity.
Qed.

(** The vector store found for an identifier that is one name is a store of
    that tenant, and the stores stay partitioned. *)
Lemma resolve_partitioned E c st :
  plain c -> partitioned E st ->
  partitioned E (snd (resolve_vector_store E c st)) /\
  (forall vs, store_used E c st = Some vs -> store_of E c vs).
Proof.
  intros Hpl Hpart. pose proof Hpart as (Hwf & Hcache & Hdisk).
  unfold store_used.
  destruct (LRU.contains pystr_eq_dec c (LRU.items (company_vector_stores st)))
    eqn:Hin.
  { destruct (resolve_hit E c st Hin) as (vs & c' & Hg & ->). simpl.
    destruct (LRUProps.get_some pystr FAISS pystr_eq_dec c vs _ _ Hwf Hg)
      as (Hi & Hwf' & Hsame).
    split.
    - split; [exact Hwf'|]. split; simpl; [|exact Hdisk].
      intros t vs' Ht Hi'. apply (Hcache t vs' Ht). apply Hsame, Hi'.
    - intros vs' E0. injection E0 as <-. apply (Hcache c vs Hpl Hi). }
  destruct (FSProps.entry_cases (disk st (get_company_vector_store_path E c)))
    as [Hd|[[Hd Hno]|[vs Hd]]].
  - rewrite (resolve_build E c st Hin Hd).
    pose proof (process_partitioned E c
                  (set_output st (output st ++ [NoVectorStoreFound c]))
                  Hpl (partitioned_output E st _ Hpart)) as Hp1.
    destruct (_process_company_pdfs E c _) as [[[|]|e] st1]; simpl in Hp1;
      [|simpl; split; [exact Hp1 | discriminate]
       |simpl; split; [exact Hp1 | discriminate]].
    destruct (cache_get_returns c st1) as (a & st2 & Hg & _). rewrite Hg. simpl.
    destruct (cache_get_partitioned E c st1 a st2 Hp1 Hg) as (Hp2 & Ha).
    split; [exact Hp2|].
    intros vs Ea. destruct Hp1 as (_ & Hc1 & _). apply (Hc1 c vs Hpl), Ha, Ea.
  - rewrite (resolve_rebuild E c st Hin Hd Hno).
    pose proof (process_partitioned E c
                  (set_output st
                     (output st
                      ++ [ErrorLoadingVectorStore c (LibraryError "load_local")]))
                  Hpl (partitioned_output E st _ Hpart)) as Hp1.
    destruct (_process_company_pdfs E c _) as [[b|e] st1]; simpl in Hp1;
      [|simpl; split; [exact Hp1 | discriminate]].
    destruct (cache_get_returns c st1) as (a & st2 & Hg & _). rewrite Hg.
    destruct (cache_get_partitioned E c st1 a st2 Hp1 Hg) as (Hp2 & Ha).
    destruct a as [vs|]; simpl.
    + split; [exact Hp2|].
      intros vs' E0. injection E0 as <-.
      destruct Hp1 as (_ & Hc1 & _). apply (Hc1 c vs Hpl), Ha. reflexivity.
    + split; [exact Hp2 | discriminate].
  - pose proof (loaded_store_of E c st vs Hpl Hpart Hd) as Hstore.
    destruct (resolve_load E c st vs Hin Hd) as (c' & Hput & ->). simpl.
    destruct (LRUProps.put_items pystr FAISS pystr_eq_dec c vs _ c' Hwf Hput)
      as (Hwf' & Hi).
    split.
    + split; [exact Hwf'|]. split; simpl; [|exact Hdisk].
      intros t vs' Ht Hi'. destruct (Hi _ Hi') as [E0|Hold].
      * injection E0 as -> ->. exact Hstore.
      * apply (Hcache t vs' Ht Hold).
    + intros vs' E0. injection E0 as <-. exact Hstore.
Qed.

(** X19: Isolation, where the code has it: with identifiers that are one
    name of a path, and the PDFs in the download folders the same
    throughout, a call answers from a store made of the chunks of the
    tenant asked for, cut from the PDFs in that tenant's download folder;
    where the chunker keeps the tenant of a page and the retriever draws
    from the store it is asked, the chunks drawn are tagged with the tenant;
    and the call leaves the cache and the disk partitioned by tenant for
    the calls after it. *)
Lemma tenant_isolation E q c st :
  plain c -> partitioned E st ->
  (forall vs, store_used E c st = Some vs -> store_of E c vs) /\
  (faithful E -> isolated E q c st) /\
  partitioned E (snd (answer_question E q c st)).
Proof.
  intros Hpl Hpart.
  destruct (resolve_partitioned E c st Hpl Hpart) as (Hp & Hstore).
  split; [exact Hstore|]. split.
  - intros HE vs Hs d Hd.
    destruct (Hstore vs Hs) as (chunks & Hch & ->).
    apply (built_tagged E c chunks HE Hch).
    unfold retrieved in Hd. destruct HE as [_ Hret].
    destruct (similarity_search E (mkFAISS chunks) q 4) as [ctx|e] eqn:Hq;
      [|destruct Hd].
    apply (Hret (mkFAISS chunks) q 4 ctx Hq). exact Hd.
  - assert (Hc : truthy c = true).
    { destruct Hpl as (Hne & _). destruct c; [congruence | reflexivity]. }
    rewrite (answer_question_eq E q c st Hc).
    destruct (resolve_vector_store E c st) as [[[msg|]|e] st']; simpl in *;
      try exact Hp.
    destruct (vector_store st'); exact Hp.
Qed.

End ProcessorProps.

(* ================================================================== *)
(** * The deployment, run *)
(* ================================================================== *)

Module ExtractorChecks.

Import Extractor Fallback Example.

Lemma extractor_never_raises_witness :
  exists l, _load_pdf_with_fallbacks (env echo) blank_pdf [] = (Returns [], l).
Proof.
  destruct (ExtractorProps.extractor_never_raises (env echo) blank_pdf [])
    as (documents & l & Heq & _ & Hnone).
  exists l. rewrite Heq. rewrite Hnone; [reflexivity|].
  intros s Hs. simpl in Hs.
  destruct Hs as [<-|[<-|[<-|[<-|[]]]]]; vm_compute; reflexivity.
Defined.

Lemma fallback_order_short_circuit_witness :
  (exists l, _load_pdf_with_fallbacks (env echo) accounts_pdf []
             = (Returns (extracted (env echo) PyPDF accounts_pdf), l) /\
             attempted l = [PyPDF]) /\
  (exists l, _load_pdf_with_fallbacks (env echo) scanned_pdf []
             = (Returns (extracted (env echo) OCR scanned_pdf), l) /\
             attempted l = [PyPDF; Plumber; DirectPyPDF; OCR]).
Proof.
  split.
  - destruct (ExtractorProps.fallback_order_short_circuit (env echo) accounts_pdf [])
      as (l & Heq & Hl & Hat & _).
    assert (Hf : first_success (env echo) accounts_pdf strategies
                 = ([] ++ [PyPDF], extracted (env echo) PyPDF accounts_pdf)).
    { apply (Hat [] PyPDF [Plumber; DirectPyPDF; OCR]);
        [reflexivity | intros ? [] | vm_compute; reflexivity]. }
    rewrite Hf in Heq, Hl. exists l. split; assumption.
  - destruct (ExtractorProps.fallback_order_short_circuit (env echo) scanned_pdf [])
      as (l & Heq & Hl & Hat & _).
    assert (Hf : first_success (env echo) scanned_pdf strategies
                 = ([PyPDF; Plumber; DirectPyPDF] ++ [OCR],
                    extracted (env echo) OCR scanned_pdf)).
    { apply (Hat [PyPDF; Plumber; DirectPyPDF] OCR []);
        [reflexivity
        | intros s' [<-|[<-|[<-|[]]]]; vm_compute; reflexivity
        | vm_compute; reflexivity]. }
    rewrite Hf in Heq, Hl. exists l. split; assumption.
Defined.

End ExtractorChecks.

Module ProcessorChecks.

Import PDFProcessor Spec Example.

(** C6 as stated fails: with an index in reach and the model out of
    service, the exception of the model reaches the caller. *)
Lemma provider_failure_is_raised : ~ never_raises (env out_of_service).
Proof.
  intros H. specialize (H question tenant (new empty_disk)).
  vm_compute in H. discriminate.
Qed.

Lemma answer_question_resolution_witness :
  fst (answer_question (env echo) question no_documents (new empty_disk))
  = Returns (msg_no_pdfs no_documents) /\
  fst (answer_question (env echo) question tenant (new empty_disk))
  = Returns (page_content chunk ++ question).
Proof.
  split.
  - destruct (ProcessorProps.answer_question_resolution
                (env echo) question no_documents (new empty_disk))
      as (_ & _ & _ & Hbuild & _).
    pose (X := _process_company_pdfs (env echo) no_documents
                 (set_output (new empty_disk)
                    (output (new empty_disk)
                     ++ [NoVectorStoreFound no_documents]))).
    assert (HX : X = (Returns false, snd X)).
    { assert (Hf : fst X = Returns false) by (vm_compute; reflexivity).
      destruct X as [r s]. simpl in *. rewrite Hf. reflexivity. }
    destruct (Hbuild eq_refl eq_refl eq_refl (snd X)) as (Hfalse & _).
    rewrite (Hfalse HX). reflexivity.
  - destruct (ProcessorProps.answer_question_resolution
                (env echo) question tenant (new empty_disk))
      as (_ & _ & _ & Hbuild & _).
    pose (X := _process_company_pdfs (env echo) tenant
                 (set_output (new empty_disk)
                    (output (new empty_disk) ++ [NoVectorStoreFound tenant]))).
    assert (HX : X = (Returns true, snd X)).
    { assert (Hf : fst X = Returns true) by (vm_compute; reflexivity).
      destruct X as [r s]. simpl in *. rewrite Hf. reflexivity. }
    destruct (Hbuild eq_refl eq_refl eq_refl (snd X)) as (_ & Htrue & _).
    destruct (Htrue HX) as (chunks & Hs & _ & ->).
    + split; [constructor | vm_compute; discriminate].
    + vm_compute in Hs. injection Hs as <-. vm_compute. reflexivity.
Defined.

(** C7 as stated fails: during the first build for a tenant the path
    exists without an index, which is neither what was there before nor
    what is there after; and during a build over a saved index the path
    holds [index.pkl] beside an empty [index.faiss], which is neither the
    index from before nor the new one. *)
Lemma path_seen_without_index :
  ~ atomic_publish (env echo) tenant (new empty_disk) /\
  ~ atomic_publish (env echo) tenant (new disk_after_first_call).
Proof.
  unfold atomic_publish. split; intros H.
  - set (st' := snd (_process_company_pdfs (env echo) tenant (new empty_disk)))
      in H.
    assert (Hin : In (nth 4 (disk_history st') empty_disk) (disk_history st')).
    { apply nth_In. vm_compute. lia. }
    destruct (H _ Hin) as [E|E]; vm_compute in E; discriminate.
  - set (st' := snd (_process_company_pdfs (env echo) tenant
                       (new disk_after_first_call))) in H.
    assert (Hin : In (nth 1 (disk_history st') empty_disk) (disk_history st')).
    { apply nth_In. vm_compute. lia. }
    destruct (H _ Hin) as [E|E]; vm_compute in E; discriminate.
Qed.

Lemma publish_in_place_witness :
  disk (snd (_process_company_pdfs (env echo) tenant (new empty_disk)))
       (get_company_vector_store_path (env echo) tenant)
  = Index (mkFAISS [chunk]).
Proof.
  pose (X := _process_company_pdfs (env echo) tenant (new empty_disk)).
  assert (HX : X = (Returns true, snd X)).
  { assert (Hf : fst X = Returns true) by (vm_compute; reflexivity).
    destruct X as [r s]. simpl in *. rewrite Hf. reflexivity. }
  destruct (ProcessorProps.publish_in_place (env echo) tenant (new empty_disk)
              (snd X) HX)
    as (chunks & Hs & _ & _ & _ & _ & _ & _ & _ & Hd & _).
  vm_compute in Hs. injection Hs as <-. exact Hd.
Defined.

(** C8 as stated fails: a tenant without documents and a tenant whose scan
    no method reads get the same result from the build. *)
Lemma same_result_for_two_reasons : ~ result_tells_reason (env echo).
Proof.
  intros [decode H].
  pose proof (H no_documents (new empty_disk) NoInput eq_refl) as H1.
  pose proof (H unreadable (new empty_disk) NoExtractableText eq_refl) as H2.
  assert (E1 : fst (_process_company_pdfs (env echo) no_documents (new empty_disk))
               = Returns false) by (vm_compute; reflexivity).
  assert (E2 : fst (_process_company_pdfs (env echo) unreadable (new empty_disk))
               = Returns false) by (vm_compute; reflexivity).
  rewrite E1 in H1. rewrite E2 in H2. congruence.
Qed.

Lemma build_failure_printed_witness :
  exists l,
    _process_company_pdfs (env echo) unreadable (new empty_disk)
    = (Returns false,
       set_output (new empty_disk) (l ++ [NoDocumentsLoaded unreadable])).
Proof.
  destruct (ProcessorProps.build_failure_printed
              (env echo) unreadable (new empty_disk) NoExtractableText)
    as [(l & Hl) _]; [reflexivity | vm_compute; reflexivity |].
  exists l. exact Hl.
Defined.

(** C1 fails for an identifier that is the path of another tenant's vector
    store: asked about [alias], the program answers from the index of
    [tenant], whose chunk is tagged [tenant]. *)
Theorem alias_answers_from_other_tenant :
  get_company_vector_store_path (env echo) alias
  = get_company_vector_store_path (env echo) tenant /\
  fst (ProcessQA.answer_question (env echo) question alias disk_after_first_call)
  = Returns (page_content chunk ++ question) /\
  store_used (env echo) alias (new disk_after_first_call) = Some (mkFAISS [chunk]) /\
  company_of chunk = Some (VStr tenant) /\
  ~ isolated (env echo) question alias (new disk_after_first_call).
Proof.
  assert (Hs : store_used (env echo) alias (new disk_after_first_call)
               = Some (mkFAISS [chunk])) by (vm_compute; reflexivity).
  split; [vm_compute; reflexivity|].
  split; [vm_compute; reflexivity|].
  split; [exact Hs|].
  split; [reflexivity|].
  intros H. specialize (H _ Hs chunk).
  assert (Hin : In chunk (retrieved (env echo) (mkFAISS [chunk]) question))
    by (vm_compute; left; reflexivity).
  specialize (H Hin). vm_compute in H. discriminate.
Qed.

(** With the identifier of the tenant itself a call from the empty disk is
    isolated, and leaves the stores partitioned. *)
Lemma tenant_isolation_witness :
  isolated (env echo) question tenant (new empty_disk) /\
  partitioned (env echo)
    (snd (answer_question (env echo) question tenant (new empty_disk))).
Proof.
  destruct (ProcessorProps.tenant_isolation (env echo) question tenant
              (new empty_disk)) as (_ & Hiso & Hpart).
  - split; [discriminate|]. split; [|split; discriminate].
    intros H. vm_compute in H.
    repeat (destruct H as [H|H]; [discriminate H|]). exact H.
  - split; [constructor|]. split.
    + intros t vs _ [].
    + intros t _. unfold look. simpl.
      destruct (place_eq_dec _ _); [|exact I].
      split; intros x Hx; discriminate.
  - split; [apply Hiso | exact Hpart].
    split.
    + intros pages chunks E c Hc. injection E as <-. exists c. auto.
    + intros vs q k ctx E. injection E as <-. intros d Hd.
      rewrite <- (firstn_skipn k (docstore vs)). apply in_or_app. left. exact Hd.
Defined.

End ProcessorChecks.

(* ================================================================== *)
(** * More on the cache *)
(* ================================================================== *)

Module LRUMore.

Import LRU.

Section Facts.

Variables K V : Type.
Variable K_eq_dec : forall a b : K, {a = b} + {a <> b}.

#[local] Abbreviation LRUCache := (LRUCache K V).
#[local] Abbreviation getitem := (getitem K_eq_dec).
#[local] Abbreviation without := (without K_eq_dec).
#[local] Abbreviation get := (get K_eq_dec).
#[local] Abbreviation put := (put K_eq_dec).
#[local] Abbreviation run := (run K_eq_dec).

Implicit Types (k : K) (v : V) (c : LRUCache).

(** X1: With a capacity of at least one, what [put] stores [get] finds: the
    value just put comes back, and the second call leaves the cache as the
    first left it, the key being last already. *)
Theorem put_then_get k v c :
  wf (items c) -> (1 <= capacity c)%Z ->
  exists c1,
    put k v c = Returns c1 /\ get k c1 = Returns (Some v, c1).
Proof.
  intros Hwf Hcap.
  destruct (LRUProps.put_leaves_key_last K V K_eq_dec k v c Hwf Hcap)
    as (d' & Hp & _ & Hwf').
  eexists. split; [exact Hp|].
  apply (LRUProps.get_last K V K_eq_dec k v d'); [reflexivity | exact Hwf'].
Qed.

(** X2: A cache of capacity zero or less keeps nothing: from the empty cache,
    whatever the calls, every [get] answers [None] and the cache is empty
    after the last call. *)
Theorem nothing_kept_without_capacity cap ops :
  (cap <= 0)%Z ->
  run ops (init K V cap)
  = Returns (map (fun _ => None) ops, init K V cap).
Proof.
  intros Hcap. induction ops as [|o r IH]; simpl; [reflexivity|].
  assert (Hcall : call K_eq_dec o (init K V cap) = Returns (None, init K V cap)).
  { destruct o as [k|k v]; simpl; [reflexivity|].
    unfold LRU.put. simpl.
    destruct (Z.gtb_spec (len [(k, v)]) cap) as [_|Hle]; [reflexivity|].
    unfold len in Hle. simpl in Hle. lia. }
  rewrite Hcall. simpl. rewrite IH. reflexivity.
Qed.

(** X3: A hit changes the order and nothing else: the cache holds the same
    items, as many as before, and every key has the value it had. *)
Theorem get_hit_keeps_contents k c :
  wf (items c) -> In k (keys (items c)) ->
  exists v c',
    get k c = Returns (Some v, c') /\
    capacity c' = capacity c /\
    Permutation (items c') (items c) /\
    (forall k', getitem k' (items c') = getitem k' (items c)).
Proof.
  intros Hwf Hin. apply (LRUProps.contains_In K V K_eq_dec) in Hin.
  destruct (LRUProps.contains_split K V K_eq_dec _ _ Hin) as (d1 & v & d2 & E & Hn).
  rewrite (LRUProps.get_hit K V K_eq_dec k v d1 d2 c E Hwf).
  exists v. eexists. split; [reflexivity|]. split; [reflexivity|]. simpl.
  rewrite E in *.
  destruct (LRUProps.wf_split K V k v d1 d2 Hwf) as (_ & Hn2 & _).
  split.
  - apply Permutation_app_head. apply Permutation_sym, Permutation_cons_append.
  - intros k'. destruct (K_eq_dec k' k) as [->|Hne].
    + rewrite (LRUProps.getitem_at K V K_eq_dec k v d1 d2 Hn).
      rewrite app_assoc. apply LRUProps.getitem_at.
      rewrite LRUProps.keys_app, in_app_iff. tauto.
    + rewrite app_assoc, LRUProps.getitem_app_other by exact Hne.
      clear -Hne. induction d1 as [|[a b] r IH]; simpl.
      * destruct (K_eq_dec k' k); [congruence | reflexivity].
      * destruct (K_eq_dec k' a); [reflexivity | exact IH].
Qed.

(** X4: [put] of a new key into a full cache drops the oldest item and no
    other: the items after the first stay in their order, the new one comes
    last, and the first key is not found any more. *)
Theorem put_into_full_cache k v k0 v0 d c :
  items c = (k0, v0) :: d -> wf (items c) ->
  len (items c) = capacity c -> ~ In k (keys (items c)) ->
  exists c',
    put k v c = Returns c' /\
    items c' = d ++ [(k, v)] /\
    getitem k0 (items c') = Raises KeyError /\
    (forall k', k' <> k0 -> k' <> k ->
                getitem k' (items c') = getitem k' (items c)).
Proof.
  intros E Hwf Hfull Hnew. rewrite (LRUProps.put_eq K V K_eq_dec k v c Hwf).
  eexists. split; [reflexivity|]. simpl.
  rewrite (LRUProps.without_absent K V K_eq_dec k (items c) Hnew).
  assert (Hov : overflow (capacity c) (items c ++ [(k, v)]) = d ++ [(k, v)]).
  { unfold overflow. rewrite <- Hfull, E.
    destruct (Z.gtb_spec (len (((k0, v0) :: d) ++ [(k, v)])) (len ((k0, v0) :: d)))
      as [_|Hle]; [reflexivity|].
    unfold len in Hle. rewrite length_app in Hle. simpl in Hle. lia. }
  rewrite Hov. split; [reflexivity|]. rewrite E in *.
  unfold wf in Hwf. simpl in Hwf. inversion Hwf as [|? ? Hk0 _]; subst.
  simpl in Hnew. split.
  - apply LRUProps.getitem_absent. rewrite LRUProps.keys_app, in_app_iff. simpl.
    intros [H|[H|[]]]; [exact (Hk0 H) | apply Hnew; left; symmetry; exact H].
  - intros k' H0 Hk. rewrite LRUProps.getitem_app_other by exact Hk. simpl.
    destruct (K_eq_dec k' k0); [congruence | reflexivity].
Qed.

End Facts.

End LRUMore.

Module LRUMoreChecks.

Import LRU LRUExample.

Lemma put_then_get_witness :
  exists c1, put 3 30 (cache 2 [(1, 10); (2, 20)]) = Returns c1 /\
             get 3 c1 = Returns (Some 30, c1).
Proof.
  apply (LRUMore.put_then_get K V Nat.eq_dec 3 30 (cache 2 [(1, 10); (2, 20)])).
  - repeat constructor; simpl; lia.
  - simpl. lia.
Defined.

Lemma nothing_kept_without_capacity_witness :
  run Nat.eq_dec [Put 1 10; Get 1] (init K V 0)
  = Returns ([None; None], init K V 0).
Proof.
  apply (LRUMore.nothing_kept_without_capacity K V Nat.eq_dec 0 [Put 1 10; Get 1]).
  lia.
Defined.

Lemma get_hit_keeps_contents_witness :
  exists v c',
    get 1 (cache 2 [(1, 10); (2, 20)]) = Returns (Some v, c') /\
    Permutation (items c') [(1, 10); (2, 20)].
Proof.
  destruct (LRUMore.get_hit_keeps_contents K V Nat.eq_dec 1
              (cache 2 [(1, 10); (2, 20)])) as (v & c' & Hg & _ & Hp & _).
  - repeat constructor; simpl; lia.
  - simpl. auto.
  - exists v, c'. split; assumption.
Defined.

Lemma put_into_full_cache_witness :
  exists c',
    put 3 30 (cache 2 [(1, 10); (2, 20)]) = Returns c' /\
    items c' = [(2, 20); (3, 30)].
Proof.
  destruct (LRUMore.put_into_full_cache K V Nat.eq_dec 3 30 1 10 [(2, 20)]
              (cache 2 [(1, 10); (2, 20)])) as (c' & Hp & Hi & _).
  - reflexivity.
  - repeat constructor; simpl; lia.
  - reflexivity.
  - simpl. lia.
  - exists c'. split; assumption.
Defined.

End LRUMoreChecks.

(* ================================================================== *)
(** * Properties of the other methods *)
(* ================================================================== *)

Module MethodsProps.

Import PDFProcessor Spec Methods.

Lemma cache_put_then_get c vs st :
  LRU.wf (LRU.items (company_vector_stores st)) ->
  (1 <= LRU.capacity (company_vector_stores st))%Z ->
  forall c',
    LRU.put pystr_eq_dec c vs (company_vector_stores st) = Returns c' ->
    LRU.get pystr_eq_dec c c' = Returns (Some vs, c').
Proof.
  intros Hwf Hcap c' Hp.
  destruct (LRUProps.put_leaves_key_last pystr FAISS pystr_eq_dec c vs
              (company_vector_stores st) Hwf Hcap) as (d' & Hp' & _ & Hwf').
  rewrite Hp' in Hp. injection Hp as <-.
  apply (LRUProps.get_last pystr FAISS pystr_eq_dec c vs d');
    [reflexivity | exact Hwf'].
Qed.

(** After a build that succeeded, with room in the cache, activating the
    cached store makes the index built the active one. *)
Lemma build_then_activate E c st st' :
  LRU.wf (LRU.items (company_vector_stores st)) ->
  (1 <= LRU.capacity (company_vector_stores st))%Z ->
  _process_company_pdfs E c st = (Returns true, st') ->
  exists chunks st'',
    split_documents E (tagged_pages E c) = Returns chunks /\
    activate_cached c st' = (Returns tt, st'') /\
    vector_store st'' = Some (mkFAISS chunks) /\
    disk st'' (get_company_vector_store_path E c) = Index (mkFAISS chunks) /\
    LRU.getitem pystr_eq_dec c (LRU.items (company_vector_stores st''))
    = Returns (mkFAISS chunks) /\
    LRU.put pystr_eq_dec c (mkFAISS chunks) (company_vector_stores st)
    = Returns (company_vector_stores st'').
Proof.
  intros Hwf Hcap Hp.
  destruct (ProcessorProps.process_true E c st st' Hp)
    as (chunks & c' & d' & h & l & Hs & Hput & Hd & ->).
  pose proof (cache_put_then_get c (mkFAISS chunks) st Hwf Hcap c' Hput) as Hg.
  exists chunks. eexists. split; [exact Hs|].
  unfold activate_cached, bind, cache_get. simpl. rewrite Hg. simpl.
  split; [reflexivity|]. simpl.
  split; [reflexivity|]. split; [exact Hd|].
  split; [|exact Hput].
  destruct (LRUProps.get_returns pystr FAISS pystr_eq_dec c c')
    as (a & c2 & Hg' & _ & _ & Hv).
  rewrite Hg in Hg'. injection Hg' as <- <-. apply Hv. reflexivity.
Qed.

Ltac step_run :=
  unfold call, tell, bind, modify, ret, gets; simpl.

(** The build, and the activation that follows a build that succeeded. *)
Lemma after_build E c st :
  LRU.wf (LRU.items (company_vector_stores st)) ->
  (1 <= LRU.capacity (company_vector_stores st))%Z ->
  match _process_company_pdfs E c st with
  | (Returns true, st1) =>
      exists st2 vs,
        activate_cached c st1 = (Returns tt, st2) /\
        built_and_active E c st2 /\
        LRU.put pystr_eq_dec c vs (company_vector_stores st)
        = Returns (company_vector_stores st2)
  | (Returns false, st1) => left_as_it_was st st1
  | (Raises _, _) => True
  end.
Proof.
  intros Hwf Hcap.
  destruct (_process_company_pdfs E c st) as [[[|]|e] st1] eqn:Hp; [| |exact I].
  - destruct (build_then_activate E c st st1 Hwf Hcap Hp)
      as (chunks & st2 & Hs & Ha & Hv & Hd & Hg & Hput).
    exists st2, (mkFAISS chunks). split; [exact Ha|]. split; [|exact Hput].
    exists chunks. auto.
  - destruct (ProcessorProps.process_false E c st st1 Hp) as (Hc & Hv).
    split; assumption.
Qed.

(** X5: [update_vector_store]: when it returns [True], the index built is the
    active store, in the cache and on disk; when it returns [False], the
    active store is the one from before, whichever tenant it belongs to. *)
Theorem update_vector_store_result E c r b r' :
  LRU.wf (LRU.items (company_vector_stores (proc r))) ->
  (1 <= LRU.capacity (company_vector_stores (proc r)))%Z ->
  update_vector_store E c r = (Returns b, r') ->
  if b then built_and_active E c (proc r')
  else left_as_it_was (proc r) (proc r').
Proof.
  intros Hwf Hcap. unfold update_vector_store.
  destruct (truthy c); [change (negb true) with false | change (negb false) with true];
    cbv match.
  2:{ step_run. intros H. injection H as <- <-. simpl. split; reflexivity. }
  pose proof (after_build E c (proc r) Hwf Hcap) as Hafter.
  unfold bind at 1. unfold call at 1.
  destruct (_process_company_pdfs E c (proc r)) as [[[|]|e] st1];
    [| |discriminate].
  - destruct Hafter as (st2 & vs & Ha & Hb & _).
    unfold bind, call. simpl proc. rewrite Ha. simpl.
    intros H. injection H as <- <-. exact Hb.
  - unfold ret. intros H. injection H as <- <-. exact Hafter.
Qed.

(** [load_and_process_pdfs], with the additions the function [process_pdfs]
    needs. *)
Lemma load_and_process_pdfs_cases E isdir c r b r' :
  LRU.wf (LRU.items (company_vector_stores (proc r))) ->
  (1 <= LRU.capacity (company_vector_stores (proc r)))%Z ->
  load_and_process_pdfs E isdir c r = (Returns b, r') ->
  if b then
    isdir (os_path_join (DOWNLOAD_FOLDER E) c) = true /\
    documents_of E c <> [] /\
    built_and_active E c (proc r') /\
    exists vs, LRU.put pystr_eq_dec c vs (company_vector_stores (proc r))
               = Returns (company_vector_stores (proc r'))
  else left_as_it_was (proc r) (proc r').
Proof.
  intros Hwf Hcap. unfold load_and_process_pdfs.
  destruct (truthy c); [change (negb true) with false | change (negb false) with true];
    cbv match.
  2:{ step_run. intros H. injection H as <- <-. simpl. split; reflexivity. }
  destruct (isdir (os_path_join (DOWNLOAD_FOLDER E) c)) eqn:Hdir;
    [change (negb true) with false | change (negb false) with true];
    cbv match.
  2:{ step_run. intros H. injection H as <- <-. simpl. split; reflexivity. }
  fold (documents_of E c).
  destruct (documents_of E c) as [|f pdfs] eqn:Hdocs.
  { step_run. intros H. injection H as <- <-. simpl. split; reflexivity. }
  pose proof (after_build E c (proc r) Hwf Hcap) as Hafter.
  unfold bind at 1. unfold call at 1.
  destruct (_process_company_pdfs E c (proc r)) as [[[|]|e] st1];
    [| |discriminate].
  - destruct Hafter as (st2 & vs & Ha & Hb & Hput).
    unfold bind, call. simpl proc. rewrite Ha. simpl.
    intros H. injection H as <- <-. simpl.
    split; [reflexivity|]. split; [discriminate|]. split; [exact Hb|].
    exists vs. exact Hput.
  - unfold bind, ret. intros H. injection H as <- <-. exact Hafter.
Qed.

(** X6: [load_and_process_pdfs]: it returns [True] only for a tenant whose
    download folder exists and holds a PDF, and then the index built is the
    active store, in the cache and on disk; when it returns [False], the
    active store and the cache are those from before. *)
Theorem load_and_process_pdfs_result E isdir c r b r' :
  LRU.wf (LRU.items (company_vector_stores (proc r))) ->
  (1 <= LRU.capacity (company_vector_stores (proc r)))%Z ->
  load_and_process_pdfs E isdir c r = (Returns b, r') ->
  if b then
    isdir (os_path_join (DOWNLOAD_FOLDER E) c) = true /\
    documents_of E c <> [] /\
    built_and_active E c (proc r')
  else left_as_it_was (proc r) (proc r').
Proof.
  intros Hwf Hcap H.
  pose proof (load_and_process_pdfs_cases E isdir c r b r' Hwf Hcap H) as Hc.
  destruct b; [|exact Hc]. tauto.
Qed.

(** [process_pdfs], with the additions the proofs below need. *)
Lemma process_pdfs_cases E isdir c r p r' :
  process_pdfs E isdir c r = (Returns (Some p), r') ->
  p = proc r' /\
  truthy c = true /\
  isdir (os_path_join (DOWNLOAD_FOLDER E) c) = true /\
  built_and_active E c p /\
  LRU.keys (LRU.items (company_vector_stores p)) = [c].
Proof.
  unfold process_pdfs. destruct (truthy c); [change (negb true) with false | change (negb false) with true];
    cbv match.
  2:{ step_run. discriminate. }
  unfold bind at 1. unfold new_processor, modify.
  set (r0 := mkRun (mkState (LRU.init pystr FAISS MAX_CACHE_SIZE) None
                            (disk (proc r)) (disk_history (proc r)) [])
                   (printed r)).
  unfold bind at 1.
  destruct (load_and_process_pdfs E isdir c r0) as [[b|e] r1] eqn:Hl;
    [|discriminate].
  destruct b; [|step_run; discriminate].
  step_run. intros H. injection H as <- <-.
  assert (Hwf : LRU.wf (LRU.items (company_vector_stores (proc r0))))
    by constructor.
  assert (Hcap : (1 <= LRU.capacity (company_vector_stores (proc r0)))%Z)
    by (simpl; unfold MAX_CACHE_SIZE; lia).
  pose proof (load_and_process_pdfs_cases E isdir c r0 true r1 Hwf Hcap Hl)
    as (Hdir & _ & Hb & vs & Hput).
  split; [reflexivity|]. split; [reflexivity|].
  split; [exact Hdir|]. split; [exact Hb|].
  simpl in Hput. unfold LRU.put in Hput. simpl in Hput.
  injection Hput as Hput. rewrite <- Hput. reflexivity.
Qed.

(** X7: The function [process_pdfs] gives back a processor only when the
    tenant's download folder exists and its index was built: that index is
    the active store of the processor, the one entry of its cache, and
    saved at the tenant's path. *)
Theorem process_pdfs_result E isdir c r p r' :
  process_pdfs E isdir c r = (Returns (Some p), r') ->
  isdir (os_path_join (DOWNLOAD_FOLDER E) c) = true /\
  built_and_active E c p /\
  LRU.keys (LRU.items (company_vector_stores p)) = [c].
Proof.
  intros H. pose proof (process_pdfs_cases E isdir c r p r' H). tauto.
Qed.

(** ** [load_vector_store] *)

Lemma cache_get_hit c st :
  LRU.contains pystr_eq_dec c (LRU.items (company_vector_stores st)) = true ->
  exists vs c',
    LRU.get pystr_eq_dec c (company_vector_stores st) = Returns (Some vs, c') /\
    cache_get c st = (Returns (Some vs), set_cache st c').
Proof.
  intros Hin.
  destruct (LRUProps.get_returns pystr FAISS pystr_eq_dec c (company_vector_stores st))
    as (a & c' & Hg & _ & Hnone & _).
  destruct a as [vs|].
  2:{ destruct (Hnone eq_refl) as [_ Hf]. congruence. }
  exists vs, c'. split; [exact Hg|]. unfold cache_get. rewrite Hg. reflexivity.
Qed.

(** A method called from here that returns, and one that raises. *)
Lemma bind_call {A B} (m : M State A) (k : A -> M Run B) r a st :
  m (proc r) = (Returns a, st) ->
  (x <- call m ;; k x)%eff r
  = k a (mkRun st (printed r
                   ++ map Line (skipn (List.length (output (proc r))) (output st)))).
Proof. intros H. unfold bind, call. rewrite H. reflexivity. Qed.

Lemma bind_call_raises {A B} (m : M State A) (k : A -> M Run B) r e st :
  m (proc r) = (Raises e, st) ->
  (x <- call m ;; k x)%eff r
  = (Raises e,
     mkRun st (printed r
               ++ map Line (skipn (List.length (output (proc r))) (output st)))).
Proof. intros H. unfold bind, call. rewrite H. reflexivity. Qed.

(** The three ways [load_vector_store] goes for a company number that is
    not empty. *)
Lemma load_vector_store_cases E c r :
  truthy c = true ->
  let st := proc r in
  let path := get_company_vector_store_path E c in
  (exists vs c' r',
      LRU.get pystr_eq_dec c (company_vector_stores st) = Returns (Some vs, c') /\
      load_vector_store E c r = (Returns true, r') /\
      proc r' = mkState c' (Some vs) (disk st) (disk_history st) (output st)) \/
  (exists vs c' r',
      LRU.contains pystr_eq_dec c (LRU.items (company_vector_stores st)) = false /\
      disk st path = Index vs /\
      LRU.put pystr_eq_dec c vs (company_vector_stores st) = Returns c' /\
      load_vector_store E c r = (Returns true, r') /\
      proc r' = mkState c' (Some vs) (disk st) (disk_history st) (output st)) \/
  (exists r',
      LRU.contains pystr_eq_dec c (LRU.items (company_vector_stores st)) = false /\
      (forall vs, disk st path <> Index vs) /\
      load_vector_store E c r = (Returns false, r') /\
      proc r' = st).
Proof.
  intros Hc st path. subst st path.
  assert (Hstart : forall k1 k2 : M Run bool,
             (if negb (truthy c) then k1 else k2) r = k2 r).
  { intros. rewrite Hc. reflexivity. }
  destruct (LRU.contains pystr_eq_dec c (LRU.items (company_vector_stores (proc r))))
    eqn:Hin.
  - left. destruct (cache_get_hit c (proc r) Hin) as (vs & c' & Hg & Hcg).
    exists vs, c'. eexists. split; [exact Hg|].
    unfold load_vector_store. rewrite Hstart.
    rewrite (bind_call _ _ r _ _ Hcg). step_run. split; reflexivity.
  - right.
    pose proof (ProcessorProps.cache_get_miss c (proc r) Hin) as Hcg.
    destruct (FSProps.entry_cases
                (disk (proc r) (get_company_vector_store_path E c)))
      as [Hd|[[Hd Hno]|[vs Hd]]].
    + right. eexists. split; [reflexivity|].
      split; [intros vs; rewrite Hd; discriminate|].
      unfold load_vector_store. rewrite Hstart.
      rewrite (bind_call _ _ r _ _ Hcg).
      erewrite bind_call by (unfold os_path_exists, gets; simpl; rewrite Hd;
                             reflexivity).
      step_run. split; reflexivity.
    + right. eexists. split; [reflexivity|]. split; [exact Hno|].
      unfold load_vector_store. rewrite Hstart.
      rewrite (bind_call _ _ r _ _ Hcg).
      erewrite bind_call
        by (unfold os_path_exists, gets; simpl;
            destruct (disk (proc r) (get_company_vector_store_path E c));
            [congruence | reflexivity]).
      unfold try_except.
      erewrite bind_call_raises
        by (unfold FAISS_load_local; simpl;
            destruct (disk (proc r) (get_company_vector_store_path E c))
              as [|[index|] [store|]];
            [reflexivity
            | exfalso; apply (Hno (mkStore index store)); reflexivity
            | reflexivity | reflexivity | reflexivity]).
      step_run. split; reflexivity.
    + left.
      destruct (LRUProps.put_returns pystr FAISS pystr_eq_dec c vs
                  (company_vector_stores (proc r))) as (c' & Hp & _).
      exists vs, c'. eexists. split; [reflexivity|]. split; [exact Hd|].
      split; [exact Hp|].
      unfold load_vector_store. rewrite Hstart.
      rewrite (bind_call _ _ r _ _ Hcg).
      erewrite bind_call by (unfold os_path_exists, gets; simpl; rewrite Hd;
                             reflexivity).
      unfold Index. cbv beta iota. unfold try_except.
      destruct vs as [index store].
      erewrite bind_call by (unfold FAISS_load_local; simpl; rewrite Hd;
                             reflexivity).
      erewrite bind_call by (unfold cache_put; simpl; rewrite Hp; reflexivity).
      step_run. split; reflexivity.
Qed.

(** X8: [load_vector_store] never raises and never writes to the disk.  It
    returns [True] exactly when the company number is not empty and the
    store is in the cache or loads from the tenant's path, and it makes
    that store the active one; when it returns [False] the processor is
    left as it was, the active store of an earlier call included. *)
Theorem load_vector_store_result E c r :
  let st := proc r in
  let path := get_company_vector_store_path E c in
  exists b r',
    load_vector_store E c r = (Returns b, r') /\
    disk (proc r') = disk st /\
    if b then
      truthy c = true /\
      exists vs,
        vector_store (proc r') = Some vs /\
        ((exists c', LRU.get pystr_eq_dec c (company_vector_stores st)
                     = Returns (Some vs, c')) \/
         (LRU.contains pystr_eq_dec c (LRU.items (company_vector_stores st))
          = false /\ disk st path = Index vs))
    else
      proc r' = st /\
      (truthy c = false \/
       (LRU.contains pystr_eq_dec c (LRU.items (company_vector_stores st)) = false /\
        forall vs, disk st path <> Index vs)).
Proof.
  intros st path. destruct (truthy c) eqn:Hc.
  - destruct (load_vector_store_cases E c r Hc)
      as [(vs & c' & r' & Hg & Hl & Hp)
         |[(vs & c' & r' & Hin & Hd & Hput & Hl & Hp)
          |(r' & Hin & Hd & Hl & Hp)]].
    + exists true, r'. split; [exact Hl|]. rewrite Hp. simpl.
      split; [reflexivity|]. split; [reflexivity|]. exists vs. eauto.
    + exists true, r'. split; [exact Hl|]. rewrite Hp. simpl.
      split; [reflexivity|]. split; [reflexivity|]. exists vs. eauto.
    + exists false, r'. split; [exact Hl|]. rewrite Hp.
      split; [reflexivity|]. split; [reflexivity|]. right. auto.
  - unfold load_vector_store. rewrite Hc. step_run.
    do 2 eexists. split; [reflexivity|]. simpl. auto.
Qed.

(** X9: An index that was built and saved loads again: after a build that
    returned [True], a processor on the disk the build left, without the
    tenant in its cache, loads the index built and makes it the active
    store. *)
Theorem build_then_load E c st st' r :
  _process_company_pdfs E c st = (Returns true, st') ->
  disk (proc r) = disk st' ->
  LRU.contains pystr_eq_dec c (LRU.items (company_vector_stores (proc r))) = false ->
  exists chunks r',
    split_documents E (tagged_pages E c) = Returns chunks /\
    load_vector_store E c r = (Returns true, r') /\
    vector_store (proc r') = Some (mkFAISS chunks) /\
    disk (proc r') = disk st'.
Proof.
  intros Hp Hdisk Hin.
  assert (Hc : truthy c = true).
  { destruct (truthy c) eqn:Hc; [reflexivity|].
    rewrite (ProcessorProps.process_no_company E c st Hc) in Hp. discriminate. }
  destruct (ProcessorProps.process_true E c st st' Hp)
    as (chunks & c' & d' & h & l & Hs & _ & Hd' & Est).
  assert (Hd : disk (proc r) (get_company_vector_store_path E c)
               = Index (mkFAISS chunks)).
  { rewrite Hdisk, Est. exact Hd'. }
  clear Hd'.
  destruct (load_vector_store_cases E c r Hc)
    as [(vs & c1 & r' & Hg & _)
       |[(vs & c1 & r' & _ & Hd' & _ & Hl & Hpr)
        |(r' & _ & Hno & _)]].
  - unfold LRU.get in Hg. rewrite Hin in Hg. discriminate.
  - rewrite Hd in Hd'. apply FSProps.Index_inj in Hd'. subst vs.
    exists chunks, r'. split; [exact Hs|]. split; [exact Hl|].
    rewrite Hpr. simpl. auto.
  - exfalso. apply (Hno _ Hd).
Qed.

End MethodsProps.

Module MethodsChecks.

Import PDFProcessor Spec Methods Example.

Lemma returns_eq {A S} (X : outcome A * S) (a : A) :
  fst X = Returns a -> X = (Returns a, snd X).
Proof. destruct X as [r s]. simpl. intros ->. reflexivity. Qed.

Lemma update_vector_store_result_witness :
  built_and_active (env echo) tenant
    (proc (snd (update_vector_store (env echo) tenant (start empty_disk)))).
Proof.
  apply (MethodsProps.update_vector_store_result (env echo) tenant
           (start empty_disk) true).
  - constructor.
  - simpl. unfold MAX_CACHE_SIZE. lia.
  - apply returns_eq. vm_compute. reflexivity.
Defined.

Lemma load_and_process_pdfs_result_witness :
  left_as_it_was (proc (start empty_disk))
    (proc (snd (load_and_process_pdfs (env echo) example_isdir unreadable
                  (start empty_disk)))).
Proof.
  apply (MethodsProps.load_and_process_pdfs_result (env echo) example_isdir
           unreadable (start empty_disk) false).
  - constructor.
  - simpl. unfold MAX_CACHE_SIZE. lia.
  - apply returns_eq. vm_compute. reflexivity.
Defined.

Lemma process_pdfs_result_witness :
  exists p,
    fst (process_pdfs (env echo) example_isdir tenant (start empty_disk))
    = Returns (Some p) /\
    LRU.keys (LRU.items (company_vector_stores p)) = [tenant].
Proof.
  destruct (process_pdfs (env echo) example_isdir tenant (start empty_disk))
    as [[[p|]|e] r'] eqn:Hp;
    try (exfalso; apply (f_equal fst) in Hp; vm_compute in Hp; discriminate).
  destruct (MethodsProps.process_pdfs_result (env echo) example_isdir tenant
              (start empty_disk) p r' Hp) as (_ & _ & Hk).
  exists p. split; [reflexivity | exact Hk].
Defined.

Lemma build_then_load_witness :
  exists chunks r',
    load_vector_store (env echo) tenant
      (start (disk (snd (_process_company_pdfs (env echo) tenant (new empty_disk)))))
    = (Returns true, r') /\
    vector_store (proc r') = Some (mkFAISS chunks).
Proof.
  destruct (MethodsProps.build_then_load (env echo) tenant (new empty_disk)
              (snd (_process_company_pdfs (env echo) tenant (new empty_disk)))
              (start (disk (snd (_process_company_pdfs (env echo) tenant
                                   (new empty_disk))))))
    as (chunks & r' & _ & Hl & Hv & _).
  - apply returns_eq. vm_compute. reflexivity.
  - reflexivity.
  - reflexivity.
  - exists chunks, r'. split; assumption.
Defined.

End MethodsChecks.

(* ================================================================== *)
(** * More on the extractor *)
(* ================================================================== *)

Module ExtractorMore.

Import Extractor Fallback.

(** The page loop, from page number [i] on: the documents it returns and
    the lines it prints. *)
Lemma scan_pages_spec s f pages : forall i l0,
  exists docs errors,
    scan_pages s f i pages l0 = (Returns docs, l0 ++ errors) /\
    (forall d, In d docs <->
               exists k text,
                 nth_error pages k = Some (Returns text) /\
                 truthy (strip text) = true /\
                 d = page_document f (i + k) text) /\
    (forall m, In m errors <->
               exists k e,
                 nth_error pages k = Some (Raises e) /\
                 m = ErrorOnPage s (i + k) e).
Proof.
  induction pages as [|p r IH]; intros i l0.
  - exists [], []. simpl. unfold ret. rewrite app_nil_r.
    split; [reflexivity|].
    split; intros x; (split; [intros [] | intros (k & y & H & _)]);
      destruct k; discriminate.
  - simpl. unfold bind, try_except, lift. destruct p as [t|e].
    + destruct (IH (S i) l0) as (docs & errors & Hrun & Hdocs & Herr).
      exists ((if truthy (strip t) then [page_document f i t] else []) ++ docs),
             errors.
      split.
      { destruct (truthy (strip t)); simpl; unfold ret; rewrite Hrun;
          reflexivity. }
      split.
      * intros d. rewrite in_app_iff, Hdocs. split.
        -- intros [Hd|(k & text & Hk & Ht & ->)].
           ++ destruct (truthy (strip t)) eqn:Ht; [|destruct Hd].
              destruct Hd as [<-|[]]. exists 0, t.
              rewrite Nat.add_0_r. auto.
           ++ exists (S k), text. rewrite Nat.add_succ_r. auto.
        -- intros (k & text & Hk & Ht & ->). destruct k as [|k]; simpl in Hk.
           ++ injection Hk as <-. left. rewrite Ht, Nat.add_0_r. left.
              reflexivity.
           ++ right. exists k, text. rewrite Nat.add_succ_r. auto.
      * intros m. rewrite Herr. split.
        -- intros (k & e & Hk & ->). exists (S k), e.
           rewrite Nat.add_succ_r. auto.
        -- intros (k & e & Hk & ->). destruct k as [|k]; simpl in Hk;
             [discriminate|].
           exists k, e. rewrite Nat.add_succ_r. auto.
    + simpl. unfold print, modify. simpl.
      destruct (IH (S i) (l0 ++ [ErrorOnPage s i e]))
        as (docs & errors & Hrun & Hdocs & Herr).
      exists docs, (ErrorOnPage s i e :: errors).
      split.
      { rewrite Hrun, <- app_assoc. reflexivity. }
      split.
      * intros d. rewrite Hdocs. split.
        -- intros (k & text & Hk & Ht & ->). exists (S k), text.
           rewrite Nat.add_succ_r. auto.
        -- intros (k & text & Hk & Ht & ->). destruct k as [|k]; simpl in Hk;
             [discriminate|].
           exists k, text. rewrite Nat.add_succ_r. auto.
      * intros m. simpl. rewrite Herr. split.
        -- intros [<-|(k & e' & Hk & ->)].
           ++ exists 0, e. rewrite Nat.add_0_r. auto.
           ++ exists (S k), e'. rewrite Nat.add_succ_r. auto.
        -- intros (k & e' & Hk & ->). destruct k as [|k]; simpl in Hk.
           ++ injection Hk as <-. left. rewrite Nat.add_0_r. reflexivity.
           ++ right. exists k, e'. rewrite Nat.add_succ_r. auto.
Qed.

(** The page loop, from page number [i] on, in closed form: the documents
    and the lines, page by page, in the order of the pages. *)
Lemma scan_pages_in_order s f pages : forall i l0,
  scan_pages s f i pages l0 =
  (Returns
     (flat_map
        (fun kp => match snd kp with
                   | Returns text =>
                       if truthy (strip text)
                       then [page_document f (fst kp) text] else []
                   | Raises _ => []
                   end)
        (combine (seq i (List.length pages)) pages)),
   l0 ++ flat_map
           (fun kp => match snd kp with
                      | Returns _ => []
                      | Raises e => [ErrorOnPage s (fst kp) e]
                      end)
           (combine (seq i (List.length pages)) pages)).
Proof.
  induction pages as [|p r IH]; intros i l0.
  - simpl. unfold ret. rewrite app_nil_r. reflexivity.
  - simpl. unfold bind, try_except, lift. destruct p as [t|e].
    + destruct (truthy (strip t)); simpl; unfold ret; rewrite IH; reflexivity.
    + simpl. unfold print, modify. simpl. rewrite IH, <- app_assoc.
      reflexivity.
Qed.

(** X11: The page loop of methods 3 and 4 goes through every page, whatever the
    pages do, and does not raise: it returns, in the order of the pages, one
    document for each page whose text is not blank, with the text of the
    page and its number, counted from 0 over all pages, and no other
    document; a page that raises is skipped, and the lines printed are one
    line for each such page, with its number, in the order of the pages. *)
Theorem scan_keeps_pages_with_text s f pages l0 :
  let numbered := combine (seq 0 (List.length pages)) pages in
  let document_of (kp : nat * outcome pystr) :=
    match snd kp with
    | Returns text =>
        if truthy (strip text) then [page_document f (fst kp) text] else []
    | Raises _ => []
    end in
  let line_of (kp : nat * outcome pystr) :=
    match snd kp with
    | Returns _ => []
    | Raises e => [ErrorOnPage s (fst kp) e]
    end in
  scan_pages s f 0 pages l0
  = (Returns (flat_map document_of numbered), l0 ++ flat_map line_of numbered) /\
  (forall d, In d (flat_map document_of numbered) <->
             exists k text,
               nth_error pages k = Some (Returns text) /\
               truthy (strip text) = true /\
               d = page_document f k text) /\
  (forall m, In m (flat_map line_of numbered) <->
             exists k e,
               nth_error pages k = Some (Raises e) /\
               m = ErrorOnPage s k e).
Proof.
  intros numbered document_of line_of.
  pose proof (scan_pages_in_order s f pages 0 l0) as Heq.
  fold numbered document_of line_of in Heq.
  split; [exact Heq|].
  destruct (scan_pages_spec s f pages 0 l0)
    as (docs & errors & Hrun & Hdocs & Herr).
  rewrite Heq in Hrun. injection Hrun as Hd He.
  apply app_inv_head in He. rewrite Hd, He. split; assumption.
Qed.

Lemma first_success_text E f : forall ss,
  snd (first_success E f ss) = [] \/
  any_has_text (snd (first_success E f ss)) = true.
Proof.
  induction ss as [|s r IH]; simpl; [left; reflexivity|].
  destruct (succeeds E s f) eqn:Hs; simpl.
  - right. unfold succeeds, extracted in *.
    destruct (pages_of E s f) as [pages|e]; [|discriminate].
    rewrite ExtractorProps.any_has_text_nonblank. exact Hs.
  - destruct (first_success E f r). exact IH.
Qed.

(** X12: What [_load_pdf_with_fallbacks] returns is the empty list or has a page
    with text: pages that are all blank are never returned. *)
Theorem extractor_result_has_text E f l0 :
  exists documents l,
    _load_pdf_with_fallbacks E f l0 = (Returns documents, l) /\
    (documents = [] \/ any_has_text documents = true).
Proof.
  destruct (ExtractorProps.load_pdf_eq E f l0) as (l & Heq & _).
  exists (snd (first_success E f strategies)), l.
  split; [exact Heq | apply first_success_text].
Qed.

End ExtractorMore.

(* ================================================================== *)
(** * More on the builder and the answerer *)
(* ================================================================== *)

Module BuilderMore.

Import Extractor Fallback PDFProcessor Spec Methods.

(** ** The disk during a build *)



(** ** When a build succeeds *)

Lemma tagged_pages_none E c :
  documents_of E c = [] \/ extracted_pages E c = [] -> tagged_pages E c = [].
Proof.
  unfold tagged_pages, non_empty_pages, extracted_pages.
  intros [H|H]; rewrite H; reflexivity.
Qed.

(** X14: A build returns [True] exactly when the company number is not empty,
    one page of the tenant's PDFs has text, the chunker returns chunks, one
    at least, the chunks are embedded, the directories of the tenant's path
    are made on the disk as it is, and the index is saved on the disk with
    those directories.  The cache and the active store of the processor
    have no part in it. *)
Theorem build_succeeds_iff E c st :
  let path := get_company_vector_store_path E c in
  fst (_process_company_pdfs E c st) = Returns true <->
  truthy c = true /\
  tagged_pages E c <> [] /\
  exists chunks,
    chunks <> [] /\
    split_documents E (tagged_pages E c) = Returns chunks /\
    embed_documents E chunks = Returns tt /\
    makedirs_error E (disk st) path = None /\
    save_local_error E (made (disk st) path) path (mkFAISS chunks) = None.
Proof.
  intros path. split.
  - intros H.
    destruct (_process_company_pdfs E c st) as [r st'] eqn:Hp. simpl in H.
    subst r.
    destruct (ProcessorProps.process_true_full E c st st' Hp)
      as (chunks & c' & l & Hc & Ht & Hne & Hs & He & Hm & Hsv & _).
    split; [exact Hc|]. split; [exact Ht|]. exists chunks. auto.
  - intros (Hc & Ht & chunks & Hne & Hs & He & Hm & Hsv).
    destruct (ProcessorProps.process_unfold E c st Hc) as (l1 & l2 & ->).
    destruct (documents_of E c) as [|f pdfs] eqn:Hd.
    { exfalso. apply Ht, tagged_pages_none. left. exact Hd. }
    destruct (extracted_pages E c) as [|x0 xs] eqn:Hx.
    { exfalso. apply Ht, tagged_pages_none. right. exact Hx. }
    destruct (tagged_pages E c) as [|t ts] eqn:Hts; [congruence|].
    rewrite Hs. destruct chunks as [|ch chs]; [congruence|].
    rewrite ProcessorProps.persist_eq. simpl disk. fold path.
    rewrite He, Hm, Hsv.
    destruct (LRUProps.put_returns pystr FAISS pystr_eq_dec c
                (mkFAISS (ch :: chs))
                (company_vector_stores
                   (set_output st
                      (l2 ++ [CreatedChunks (List.length (ch :: chs))]))))
      as (c' & Hput & _).
    rewrite Hput. reflexivity.
Qed.

(** ** How a build that fails ends *)

(** X15: A build that returns [False] has printed, last, the line that tells why:
    no company number, no PDF, no page with text, no chunk, or the exception
    of the embedding or the saving.  The line for documents that are all
    empty is not among them: the extractor gives no such documents. *)
Theorem build_failure_last_line E c st st' :
  _process_company_pdfs E c st = (Returns false, st') ->
  exists l m,
    output st' = l ++ [m] /\
    (m = CompanyNumberRequired \/ m = NoPDFsFound c \/ m = NoDocumentsLoaded c \/
     m = NoChunksCreated c \/ exists e, m = ErrorCreatingVectorStore e).
Proof.
  intros H. destruct (truthy c) eqn:Hc.
  2:{ rewrite (ProcessorProps.process_no_company E c st Hc) in H.
      injection H as <-. do 2 eexists. split; [reflexivity|]. auto. }
  destruct (ProcessorProps.process_unfold E c st Hc) as (l1 & l2 & Hu).
  rewrite Hu in H.
  destruct (documents_of E c) as [|f pdfs] eqn:Hd.
  { injection H as <-. do 2 eexists. split; [reflexivity|]. auto. }
  destruct (extracted_pages E c) as [|x xs] eqn:Hx.
  { injection H as <-. do 2 eexists. split; [reflexivity|]. auto. }
  destruct (tagged_pages E c) as [|t ts] eqn:Ht.
  { exfalso. unfold tagged_pages, non_empty_pages in Ht.
    apply map_eq_nil in Ht. unfold extracted_pages in Hx, Ht.
    fold (extract E) in Hx, Ht.
    rewrite (ProcessorProps.no_text_no_pages E _ Ht) in Hx. discriminate. }
  destruct (split_documents E (t :: ts)) as [[|ch chs]|e] eqn:Hs;
    [injection H as <-; do 2 eexists; split; [reflexivity|]; auto
    | | discriminate].
  rewrite ProcessorProps.persist_eq in H. simpl in H.
  assert (Hfail : forall e d0 h0,
             (Returns false,
              mkState (company_vector_stores st) (vector_store st) d0 h0
                ((l2 ++ [CreatedChunks (S (List.length chs))])
                 ++ [CreatingVectorStore; ErrorCreatingVectorStore e]))
             = (Returns false, st') ->
             exists l m,
               output st' = l ++ [m] /\
               (m = CompanyNumberRequired \/ m = NoPDFsFound c \/
                m = NoDocumentsLoaded c \/ m = NoChunksCreated c \/
                exists e, m = ErrorCreatingVectorStore e)).
  { intros e d0 h0 E0. injection E0 as <-. simpl.
    exists ((l2 ++ [CreatedChunks (S (List.length chs))])
            ++ [CreatingVectorStore]), (ErrorCreatingVectorStore e).
    split; [rewrite <- !app_assoc; reflexivity|]. eauto 6. }
  destruct (embed_documents E (ch :: chs)) as [[]|e];
    [|exact (Hfail _ _ _ H)].
  destruct (makedirs_error E _ _) as [[n e]|]; [exact (Hfail _ _ _ H)|].
  destruct (save_local_error E _ _ _) as [[stage e]|];
    [exact (Hfail _ _ _ H)|].
  destruct (LRU.put pystr_eq_dec c _ _) as [c'|e];
    [discriminate | exact (Hfail _ _ _ H)].
Qed.

(** ** The path of a vector store *)

(** X16: [get_company_vector_store_path]: two identifiers that are relative paths
    have the same path only when they are the same identifier; an identifier
    that is an absolute path is its own path, the folder of the vector
    stores left out. *)
Theorem vector_store_path_of_identifier E t :
  (forall t', relative t -> relative t' ->
              get_company_vector_store_path E t
              = get_company_vector_store_path E t' -> t = t') /\
  (forall r, t = 47%N :: r -> get_company_vector_store_path E t = t).
Proof.
  split.
  - intros t' Ht Ht' H. exact (ProcessorProps.path_injective E t t' Ht Ht' H).
  - intros r ->. reflexivity.
Qed.

(** ** The function [answer_question] of the module *)

Lemma answer_saved E q c (d : Disk) vs :
  truthy q = true -> truthy c = true ->
  d (get_company_vector_store_path E c) = Index vs ->
  ProcessQA.answer_question E q c d = (qa_chain E vs q, d).
Proof.
  intros Hq Hc Hd. unfold ProcessQA.answer_question. rewrite Hq, Hc. simpl.
  rewrite (ProcessorProps.answer_question_eq E q c (new d) Hc).
  destruct (ProcessorProps.resolve_load E c (new d) vs eq_refl Hd)
    as (c' & _ & ->).
  reflexivity.
Qed.

(** X17: The function [answer_question] of the module answers with a fixed
    message, the disk untouched, when the question or the company number is
    empty.  Where an index is saved at the path of the tenant, it answers
    from that index as it is: nothing is built, the PDFs of the tenant are
    not read, and the disk stays as it was. *)
Theorem answer_from_saved_index E q c d :
  (truthy q = false \/ truthy c = false ->
   ProcessQA.answer_question E q c d
   = (Returns (lit "Both question and company number are required."), d)) /\
  (truthy q = true -> truthy c = true ->
   forall vs, d (get_company_vector_store_path E c) = Index vs ->
              ProcessQA.answer_question E q c d = (qa_chain E vs q, d)).
Proof.
  split.
  - intros [H|H]; unfold ProcessQA.answer_question; rewrite H;
      [reflexivity | rewrite orb_true_r; reflexivity].
  - intros Hq Hc vs Hd. exact (answer_saved E q c d vs Hq Hc Hd).
Qed.

(** X18: What [process_pdfs] builds, the function [answer_question] finds: after
    [process_pdfs] gave back a processor for a tenant, a question about the
    tenant, asked on the disk that was left, is answered by the chain on the
    index that was built, and the disk stays as it is. *)
Theorem process_then_ask E isdir c r p r' q :
  process_pdfs E isdir c r = (Returns (Some p), r') ->
  truthy q = true ->
  exists chunks,
    split_documents E (tagged_pages E c) = Returns chunks /\
    ProcessQA.answer_question E q c (disk (proc r'))
    = (qa_chain E (mkFAISS chunks) q, disk (proc r')).
Proof.
  intros Hp Hq.
  destruct (MethodsProps.process_pdfs_cases E isdir c r p r' Hp)
    as (-> & Hc & _ & (chunks & Hs & _ & Hd & _) & _).
  exists chunks. split; [exact Hs|].
  exact (answer_saved E q c (disk (proc r')) (mkFAISS chunks) Hq Hc Hd).
Qed.

End BuilderMore.

Module MoreChecks.

Import PDFProcessor Spec Methods Example.


Lemma build_failure_last_line_witness :
  exists l m,
    output (snd (_process_company_pdfs (env echo) unreadable (new empty_disk)))
    = l ++ [m].
Proof.
  destruct (BuilderMore.build_failure_last_line (env echo) unreadable
              (new empty_disk)
              (snd (_process_company_pdfs (env echo) unreadable (new empty_disk))))
    as (l & m & H & _).
  - apply MethodsChecks.returns_eq. vm_compute. reflexivity.
  - exists l, m. exact H.
Defined.

Lemma vector_store_path_of_identifier_witness :
  get_company_vector_store_path (env echo) alias = alias.
Proof.
  destruct (BuilderMore.vector_store_path_of_identifier (env echo) alias)
    as [_ H].
  apply (H (lit "app/backend/vector_store/00445790")). reflexivity.
Defined.

Lemma answer_from_saved_index_witness :
  ProcessQA.answer_question (env echo) question tenant disk_after_first_call
  = (qa_chain (env echo) (mkFAISS [chunk]) question, disk_after_first_call).
Proof.
  destruct (BuilderMore.answer_from_saved_index (env echo) question tenant
              disk_after_first_call) as [_ H].
  apply H; [reflexivity | reflexivity | vm_compute; reflexivity].
Defined.

Lemma process_then_ask_witness :
  exists chunks r',
    snd (process_pdfs (env echo) example_isdir tenant (start empty_disk)) = r' /\
    ProcessQA.answer_question (env echo) question tenant (disk (proc r'))
    = (qa_chain (env echo) (mkFAISS chunks) question, disk (proc r')).
Proof.
  destruct (process_pdfs (env echo) example_isdir tenant (start empty_disk))
    as [[[p|]|e] r'] eqn:Hp;
    try (exfalso; apply (f_equal fst) in Hp; vm_compute in Hp; discriminate).
  destruct (BuilderMore.process_then_ask (env echo) example_isdir tenant
              (start empty_disk) p r' question Hp eq_refl) as (chunks & _ & H).
  exists chunks, r'. split; [reflexivity | exact H].
Defined.

End MoreChecks.

(* ================================================================== *)
(** * The cache of a processor through its methods *)
(* ================================================================== *)

Module CacheInvariant.

Import PDFProcessor Spec Methods.

Lemma new_in_order d : cache_in_order (new d).
Proof.
  split; [|reflexivity]. apply LRUProps.good_init. unfold MAX_CACHE_SIZE. lia.
Qed.

Lemma in_order_output st l : cache_in_order st -> cache_in_order (set_output st l).
Proof. intros H. exact H. Qed.

Lemma cache_get_in_order c st :
  cache_in_order st -> cache_in_order (snd (cache_get c st)).
Proof.
  intros [Hg Hcap]. unfold cache_get.
  destruct (LRUProps.good_get pystr FAISS pystr_eq_dec c (company_vector_stores st) Hg)
    as (a & c' & -> & Hg' & Hc).
  split; simpl; [exact Hg' | congruence].
Qed.

Lemma put_in_order c vs st c' l v d h :
  cache_in_order st ->
  LRU.put pystr_eq_dec c vs (company_vector_stores st) = Returns c' ->
  cache_in_order (mkState c' v d h l).
Proof.
  intros [Hg Hcap] Hp.
  destruct (LRUProps.good_put pystr FAISS pystr_eq_dec c vs (company_vector_stores st) Hg)
    as (c'' & Hp' & Hg' & Hc).
  rewrite Hp in Hp'. injection Hp' as <-.
  split; [exact Hg' | simpl; congruence].
Qed.

Lemma get_in_order c a st c' l v d h :
  cache_in_order st ->
  LRU.get pystr_eq_dec c (company_vector_stores st) = Returns (a, c') ->
  cache_in_order (mkState c' v d h l).
Proof.
  intros [Hg Hcap] Hp.
  destruct (LRUProps.good_get pystr FAISS pystr_eq_dec c (company_vector_stores st) Hg)
    as (a' & c'' & Hp' & Hg' & Hc).
  rewrite Hp in Hp'. injection Hp' as <- <-.
  split; [exact Hg' | simpl; congruence].
Qed.

Lemma activate_in_order c st :
  cache_in_order st -> cache_in_order (snd (activate_cached c st)).
Proof.
  intros H. pose proof (cache_get_in_order c st H) as Hg.
  unfold activate_cached, bind.
  destruct (cache_get c st) as [[a|e] st1]; simpl in *; exact Hg.
Qed.

Lemma process_in_order E c st :
  cache_in_order st -> cache_in_order (snd (_process_company_pdfs E c st)).
Proof.
  intros H.
  destruct (_process_company_pdfs E c st) as [[[|]|e] st'] eqn:Hp; simpl.
  - destruct (ProcessorProps.process_true E c st st' Hp)
      as (chunks & c' & d' & h & l & _ & Hput & _ & ->).
    exact (put_in_order c (mkFAISS chunks) st c' l _ _ _ H Hput).
  - destruct (ProcessorProps.process_false E c st st' Hp) as (Hc & _).
    destruct H as [Hg Hcap]. split; rewrite Hc; assumption.
  - destruct (ProcessorProps.process_raises E c st e st' Hp) as (l & ->).
    exact H.
Qed.

Lemma resolve_in_order E c st :
  cache_in_order st -> cache_in_order (snd (resolve_vector_store E c st)).
Proof.
  intros H.
  destruct (LRU.contains pystr_eq_dec c (LRU.items (company_vector_stores st)))
    eqn:Hin.
  { destruct (ProcessorProps.resolve_hit E c st Hin) as (vs & c' & Hg & ->).
    exact (get_in_order c (Some vs) st c' _ _ _ _ H Hg). }
  destruct (FSProps.entry_cases (disk st (get_company_vector_store_path E c)))
    as [Hd|[[Hd Hno]|[vs Hd]]].
  - rewrite (ProcessorProps.resolve_build E c st Hin Hd).
    pose proof (process_in_order E c
                  (set_output st (output st ++ [NoVectorStoreFound c]))
                  (in_order_output st _ H)) as Hp.
    destruct (_process_company_pdfs E c _) as [[[|]|e] st1]; simpl in Hp;
      try exact Hp.
    pose proof (cache_get_in_order c st1 Hp) as Hg.
    destruct (cache_get c st1) as [[a|e] st2]; simpl in *; exact Hg.
  - rewrite (ProcessorProps.resolve_rebuild E c st Hin Hd Hno).
    pose proof (process_in_order E c
                  (set_output st
                     (output st
                      ++ [ErrorLoadingVectorStore c (LibraryError "load_local")]))
                  (in_order_output st _ H)) as Hp.
    destruct (_process_company_pdfs E c _) as [[b|e] st1]; simpl in Hp;
      try exact Hp.
    pose proof (cache_get_in_order c st1 Hp) as Hg.
    destruct (cache_get c st1) as [[[vs|]|e] st2]; simpl in *; exact Hg.
  - destruct (ProcessorProps.resolve_load E c st vs Hin Hd) as (c' & Hput & ->).
    exact (put_in_order c vs st c' _ _ _ _ H Hput).
Qed.

Lemma answer_in_order E q c st :
  cache_in_order st -> cache_in_order (snd (answer_question E q c st)).
Proof.
  intros H. destruct (truthy c) eqn:Hc.
  2:{ unfold answer_question. rewrite Hc. exact H. }
  rewrite (ProcessorProps.answer_question_eq E q c st Hc).
  pose proof (resolve_in_order E c st H) as Hr.
  destruct (resolve_vector_store E c st) as [[[msg|]|e] st']; simpl in *;
    try exact Hr.
  destruct (vector_store st'); exact Hr.
Qed.

Lemma build_and_activate_in_order E c st (k : bool -> M Run bool) r :
  proc r = st -> cache_in_order st ->
  (forall b r1, cache_in_order (proc r1) -> cache_in_order (proc (snd (k b r1)))) ->
  cache_in_order
    (proc (snd ((success <- call (_process_company_pdfs E c) ;; k success)%eff r))).
Proof.
  intros <- H Hk. pose proof (process_in_order E c (proc r) H) as Hp.
  unfold bind at 1. unfold call at 1.
  destruct (_process_company_pdfs E c (proc r)) as [[b|e] st1]; simpl in *.
  - apply Hk. exact Hp.
  - exact Hp.
Qed.

Lemma call_activate_in_order c r :
  cache_in_order (proc r) ->
  cache_in_order (proc (snd (call (activate_cached c) r))).
Proof.
  intros H. pose proof (activate_in_order c (proc r) H) as Ha.
  unfold call. destruct (activate_cached c (proc r)) as [a st1]. exact Ha.
Qed.

Lemma update_in_order E c r :
  cache_in_order (proc r) ->
  cache_in_order (proc (snd (update_vector_store E c r))).
Proof.
  intros H. unfold update_vector_store.
  destruct (truthy c);
    [change (negb true) with false | change (negb false) with true]; cbv match;
    [|exact H].
  apply (build_and_activate_in_order E c (proc r)); [reflexivity | exact H|].
  intros b r1 H1. destruct b; [|exact H1].
  pose proof (call_activate_in_order c r1 H1) as Ha.
  unfold bind. destruct (call (activate_cached c) r1) as [[[]|e] r2]; exact Ha.
Qed.

Lemma load_and_process_in_order E isdir c r :
  cache_in_order (proc r) ->
  cache_in_order (proc (snd (load_and_process_pdfs E isdir c r))).
Proof.
  intros H. unfold load_and_process_pdfs.
  destruct (truthy c);
    [change (negb true) with false | change (negb false) with true]; cbv match;
    [|exact H].
  destruct (isdir (os_path_join (DOWNLOAD_FOLDER E) c));
    [change (negb true) with false | change (negb false) with true]; cbv match;
    [|exact H].
  destruct (glob E _); [exact H|].
  apply (build_and_activate_in_order E c (proc r)); [reflexivity | exact H|].
  intros b r1 H1. destruct b.
  - pose proof (call_activate_in_order c r1 H1) as Ha.
    unfold bind. destruct (call (activate_cached c) r1) as [[[]|e] r2]; exact Ha.
  - exact H1.
Qed.

Lemma load_in_order E c r :
  cache_in_order (proc r) ->
  cache_in_order (proc (snd (load_vector_store E c r))).
Proof.
  intros H. destruct (truthy c) eqn:Hc.
  2:{ unfold load_vector_store. rewrite Hc. exact H. }
  destruct (MethodsProps.load_vector_store_cases E c r Hc)
    as [(vs & c' & r' & Hg & -> & Hp)
       |[(vs & c' & r' & _ & _ & Hput & -> & Hp)
        |(r' & _ & _ & -> & Hp)]]; simpl; rewrite Hp.
  - exact (get_in_order c (Some vs) (proc r) c' _ _ _ _ H Hg).
  - exact (put_in_order c vs (proc r) c' _ _ _ _ H Hput).
  - exact H.
Qed.

(** X10: The cache of a processor stays in order through its methods: a new
    processor has an empty cache of capacity [MAX_CACHE_SIZE], and after
    [answer_question], [_process_company_pdfs], [update_vector_store],
    [load_vector_store] and [load_and_process_pdfs], however they end, the
    cache has no key twice, [MAX_CACHE_SIZE] stores at most and the same
    capacity. *)
Theorem cache_stays_in_order E isdir q c r :
  cache_in_order (proc r) ->
  cache_in_order (snd (answer_question E q c (proc r))) /\
  cache_in_order (snd (_process_company_pdfs E c (proc r))) /\
  cache_in_order (proc (snd (update_vector_store E c r))) /\
  cache_in_order (proc (snd (load_vector_store E c r))) /\
  cache_in_order (proc (snd (load_and_process_pdfs E isdir c r))).
Proof.
  intros H.
  split; [exact (answer_in_order E q c (proc r) H)|].
  split; [exact (process_in_order E c (proc r) H)|].
  split; [exact (update_in_order E c r H)|].
  split; [exact (load_in_order E c r H)|].
  exact (load_and_process_in_order E isdir c r H).
Qed.

End CacheInvariant.

Module CacheInvariantChecks.

Import PDFProcessor Spec Methods Example.

Lemma cache_stays_in_order_witness :
  cache_in_order
    (snd (answer_question (env echo) question tenant (new empty_disk))).
Proof.
  destruct (CacheInvariant.cache_stays_in_order (env echo) example_isdir
              question tenant (start empty_disk)) as [H _].
  - exact (CacheInvariant.new_in_order empty_disk).
  - exact H.
Defined.

End CacheInvariantChecks.

(* ================================================================== *)
(** * Properties of the file names of [scraper.py] *)
(* ================================================================== *)

Module ScraperProps.

Import Scraper.

(** ** [strip('_')] *)

Lemma In_lstrip_char x s c : In c (lstrip_char x s) -> In c s.
Proof.
  induction s as [|a r IH]; simpl; [auto|].
  destruct (a =? x)%N; [right; auto | auto].
Qed.

Lemma In_strip_char x s c : In c (strip_char x s) -> In c s.
Proof.
  unfold strip_char. intros H. rewrite <- in_rev in H.
  apply In_lstrip_char in H. rewrite <- in_rev in H.
  apply In_lstrip_char in H. exact H.
Qed.

Lemma lstrip_char_hd x s c r : lstrip_char x s = c :: r -> c <> x.
Proof.
  induction s as [|a t IH]; simpl; [discriminate|].
  destruct (a =? x)%N eqn:E; [exact IH|].
  intros H. injection H as <- <-. apply N.eqb_neq. exact E.
Qed.

Lemma lstrip_char_split x s : exists p, s = p ++ lstrip_char x s.
Proof.
  induction s as [|a t IH]; simpl; [exists []; reflexivity|].
  destruct (a =? x)%N; [|exists []; reflexivity].
  destruct IH as (p & Hp). exists (a :: p). simpl. rewrite <- Hp. reflexivity.
Qed.

Lemma length_lstrip_char x s : List.length (lstrip_char x s) <= List.length s.
Proof.
  induction s as [|a t IH]; simpl; [lia|].
  destruct (a =? x)%N; simpl; lia.
Qed.

Lemma length_strip_char x s : List.length (strip_char x s) <= List.length s.
Proof.
  unfold strip_char. rewrite length_rev.
  pose proof (length_lstrip_char x (rev (lstrip_char x s))) as H1.
  pose proof (length_lstrip_char x s) as H2.
  rewrite length_rev in H1. lia.
Qed.

(** What is left after [strip(x)] is empty, or neither starts nor ends
    with [x]. *)
Lemma strip_char_shape x s :
  strip_char x s = [] \/
  exists c r, strip_char x s = c :: r /\ c <> x /\ last (c :: r) c <> x.
Proof.
  unfold strip_char. set (t := lstrip_char x s).
  destruct (lstrip_char x (rev t)) as [|a u] eqn:Hu; [left; reflexivity|].
  right. pose proof (lstrip_char_hd x (rev t) a u Hu) as Ha.
  destruct (lstrip_char_split x (rev t)) as (p & Hp). rewrite Hu in Hp.
  assert (Ht : t = rev (a :: u) ++ rev p).
  { rewrite <- rev_app_distr, <- Hp, rev_involutive. reflexivity. }
  destruct (rev (a :: u)) as [|c r] eqn:Hr.
  { apply (f_equal (@List.length N)) in Hr. rewrite length_rev in Hr.
    discriminate. }
  exists c, r. split; [reflexivity|]. split.
  - exact (lstrip_char_hd x s c (r ++ rev p) Ht).
  - simpl in Hr. rewrite <- Hr, last_last. exact Ha.
Qed.

(** ** The pattern and the split *)

Lemma span_not_spec x s : forall g rest,
  span_not x s = (g, rest) -> s = g ++ rest /\ ~ In x g.
Proof.
  induction s as [|a t IH]; simpl; intros g rest H.
  - injection H as <- <-. auto.
  - destruct (a =? x)%N eqn:E.
    + injection H as <- <-. auto.
    + destruct (span_not x t) as [g' rest'] eqn:Hs. injection H as <- <-.
      destruct (IH g' rest' eq_refl) as (-> & Hn). split; [reflexivity|].
      simpl. intros [->|H]; [|exact (Hn H)].
      rewrite N.eqb_refl in E. discriminate.
Qed.

Lemma span_not_app x g r :
  ~ In x g -> span_not x (g ++ x :: r) = (g, x :: r).
Proof.
  induction g as [|a t IH]; simpl; intros Hn.
  - rewrite N.eqb_refl. reflexivity.
  - destruct (a =? x)%N eqn:E.
    + apply N.eqb_eq in E. tauto.
    + rewrite IH by tauto. reflexivity.
Qed.

Lemma strip_prefix_app p s : strip_prefix p (p ++ s) = Some s.
Proof.
  induction p as [|a t IH]; simpl; [destruct s; reflexivity|].
  rewrite N.eqb_refl. exact IH.
Qed.

(** A segment before a separator is told by the separator. *)
Lemma strip_prefix_sep x p : forall n rest y,
  ~ In x n -> ~ In x p ->
  strip_prefix (p ++ [x]) (n ++ x :: rest) = Some y -> n = p.
Proof.
  induction p as [|b p' IH]; intros n rest y Hn Hp; simpl.
  - destruct n as [|a n']; [reflexivity|]. simpl.
    destruct (x =? a)%N eqn:E; [|discriminate].
    apply N.eqb_eq in E. subst a. simpl in Hn. tauto.
  - destruct n as [|a n']; simpl.
    + destruct (b =? x)%N eqn:E; [|discriminate].
      apply N.eqb_eq in E. subst b. simpl in Hp. tauto.
    + destruct (b =? a)%N eqn:E; [|discriminate].
      apply N.eqb_eq in E. subst b. intros H. f_equal.
      apply (IH n' rest y); simpl in *; tauto.
Qed.

Lemma match_here_some s g : match_here s = Some g -> g <> [] /\ ~ In 47%N g.
Proof.
  unfold match_here.
  destruct (strip_prefix (lit "/filing-history/") s) as [after|]; [|discriminate].
  destruct (span_not 47 after) as [group rest] eqn:Hs.
  destruct (span_not_spec 47 after group rest Hs) as (_ & Hn).
  destruct group as [|c r]; [discriminate|].
  destruct (strip_prefix (lit "/document") rest); [|discriminate].
  intros H. injection H as <-. split; [discriminate | exact Hn].
Qed.

Lemma strip_prefix_cons a p b s :
  strip_prefix (a :: p) (b :: s)
  = if (a =? b)%N then strip_prefix p s else None.
Proof. reflexivity. Qed.

Lemma match_here_not_slash c s : c <> 47%N -> match_here (c :: s) = None.
Proof.
  intros Hc. unfold match_here.
  change (lit "/filing-history/") with (47%N :: lit "filing-history/").
  rewrite strip_prefix_cons. destruct (47 =? c)%N eqn:E; [|reflexivity].
  apply N.eqb_eq in E. congruence.
Qed.

Lemma re_search_eq s :
  re_search s
  = match match_here s with
    | Some group => Some group
    | None => match s with [] => None | _ :: r => re_search r end
    end.
Proof. destruct s; reflexivity. Qed.

Lemma re_search_some s : forall g,
  re_search s = Some g -> g <> [] /\ ~ In 47%N g.
Proof.
  induction s as [|a t IH]; intros g; rewrite re_search_eq.
  - destruct (match_here []) eqn:Hm; [|discriminate].
    intros H. injection H as <-. exact (match_here_some [] _ Hm).
  - destruct (match_here (a :: t)) eqn:Hm; [|apply IH].
    intros H. injection H as <-. exact (match_here_some (a :: t) _ Hm).
Qed.

Lemma re_search_skip n s : ~ In 47%N n -> re_search (n ++ s) = re_search s.
Proof.
  induction n as [|a t IH]; simpl app; intros Hn; [reflexivity|].
  rewrite re_search_eq, match_here_not_slash by (simpl in Hn; intros ->; tauto).
  apply IH. simpl in Hn. tauto.
Qed.

Lemma split_no_sep sep s : forall w, In w (split sep s) -> ~ In sep w.
Proof.
  induction s as [|a t IH]; simpl.
  - intros w [<-|[]]. auto.
  - destruct (a =? sep)%N eqn:E.
    + intros w [<-|H]; [auto | exact (IH w H)].
    + destruct (split sep t) as [|w0 ws].
      * intros w [<-|[]]. simpl. intros [->|[]].
        rewrite N.eqb_refl in E. discriminate.
      * intros w [<-|H].
        -- simpl. intros [->|H'].
           ++ rewrite N.eqb_refl in E. discriminate.
           ++ apply (IH w0); [left; reflexivity | exact H'].
        -- apply (IH w). right. exact H.
Qed.

Lemma id_from_path_some link u :
  id_from_path link = Some u -> u <> [] /\ ~ In 47%N u.
Proof.
  unfold id_from_path.
  destruct (nth_error (rev (split 47 (hd [] (split 63 link)))) 1) as [w|] eqn:Hn;
    [|discriminate].
  apply nth_error_In in Hn. rewrite <- in_rev in Hn.
  destruct (negb (truthy w) || pystr_eqb w (lit "filing-history")) eqn:Hw;
    [discriminate|].
  intros H. injection H as <-. split.
  - intros ->. discriminate.
  - exact (split_no_sep 47 _ w Hn).
Qed.

(** ** Numbers *)

Lemma string_of_uint_digits d : forall c,
  In c (lit (NilEmpty.string_of_uint d)) -> c <> 47%N.
Proof.
  unfold lit.
  induction d as [|d IH|d IH|d IH|d IH|d IH|d IH|d IH|d IH|d IH|d IH];
    simpl; intros c H; [destruct H| | | | | | | | | |];
    (destruct H as [<-|H]; [discriminate | exact (IH c H)]).
Qed.

Lemma str_of_nat_no_slash n : ~ In 47%N (str_of_nat n).
Proof.
  unfold str_of_nat, NilZero.string_of_uint. intros H.
  destruct (Nat.to_uint n) eqn:E;
    try exact (string_of_uint_digits _ _ H eq_refl).
  vm_compute in H. destruct H as [H|[]]. discriminate.
Qed.

Ltac not_in_literal H :=
  vm_compute in H;
  repeat (destruct H as [H|H]; [discriminate H|]); destruct H.

(** ** The parts of a file name *)

Lemma unique_id_shape link i n :
  unique_id link i n <> [] /\ ~ In 47%N (unique_id link i n).
Proof.
  unfold unique_id.
  destruct (re_search link) as [g|] eqn:Hr; [exact (re_search_some link g Hr)|].
  destruct (id_from_path link) as [u|] eqn:Hp;
    [exact (id_from_path_some link u Hp)|].
  split; [discriminate|].
  rewrite !in_app_iff. intros [H|[H|[H|H]]].
  - not_in_literal H.
  - exact (str_of_nat_no_slash i H).
  - not_in_literal H.
  - exact (str_of_nat_no_slash n H).
Qed.

Lemma safe_desc_shape isalnum description_text :
  exists c r,
    safe_desc isalnum description_text = c :: r /\
    c <> 95%N /\ last (c :: r) c <> 95%N /\
    List.length (c :: r) <= 40.
Proof.
  unfold safe_desc, or_else.
  set (s := sanitize isalnum (firstn 40 description_text)).
  assert (Hlen : List.length (strip_char 95 s) <= 40).
  { pose proof (length_strip_char 95 s) as H. subst s. unfold sanitize in *.
    rewrite length_map in H. pose proof (firstn_le_length 40 description_text).
    lia. }
  destruct (strip_char_shape 95 s) as [E|(c & r & E & Hc & Hl)].
  - rewrite E. simpl. exists 102%N, (lit "iling").
    split; [reflexivity|]. split; [discriminate|].
    split; [vm_compute; discriminate | vm_compute; lia].
  - rewrite E in *. simpl truthy. cbv iota. exists c, r. auto.
Qed.

(** X20: The parts of a file name, whatever the row and the link: the
    description part is not empty, has 40 characters at most and neither
    starts nor ends with ["_"]; the unique id is not empty and has no
    ["/"]. *)
Theorem filename_parts_shape isalnum description_text link_href i n :
  (exists c r,
      safe_desc isalnum description_text = c :: r /\
      c <> 95%N /\ last (c :: r) c <> 95%N /\
      List.length (c :: r) <= 40) /\
  unique_id link_href i n <> [] /\
  ~ In 47%N (unique_id link_href i n).
Proof.
  split; [apply safe_desc_shape | apply unique_id_shape].
Qed.

Lemma sanitize_no_slash isalnum s :
  isalnum 47%N = false -> ~ In 47%N (sanitize isalnum s).
Proof.
  intros Hs H. unfold sanitize in H. apply in_map_iff in H.
  destruct H as (c & Hc & _). destruct (isalnum c) eqn:E.
  - subst c. congruence.
  - discriminate.
Qed.

Lemma filename_no_slash isalnum date desc link i n :
  isalnum 47%N = false -> ~ In 47%N (filename isalnum date desc link i n).
Proof.
  intros Hs. unfold filename, safe_date, safe_desc, or_else.
  rewrite !in_app_iff. intros [H|[H|[H|[H|[H|H]]]]].
  - exact (sanitize_no_slash isalnum date Hs H).
  - not_in_literal H.
  - destruct (truthy _).
    + apply In_strip_char in H. exact (sanitize_no_slash isalnum _ Hs H).
    + not_in_literal H.
  - not_in_literal H.
  - destruct (unique_id_shape link i n) as [_ Hn]. exact (Hn H).
  - not_in_literal H.
Qed.

Lemma filename_pdf isalnum date desc link i n :
  exists stem, filename isalnum date desc link i n = stem ++ lit ".pdf".
Proof. unfold filename. eexists. rewrite !app_assoc. reflexivity. Qed.

(** A file name is one name of a path. *)
Lemma filename_plain isalnum date desc link i n :
  isalnum 47%N = false -> Spec.plain (filename isalnum date desc link i n).
Proof.
  intros Hs. destruct (filename_pdf isalnum date desc link i n) as (stem & E).
  assert (Hlen : 4 <= List.length (filename isalnum date desc link i n)).
  { rewrite E, length_app. simpl. lia. }
  split; [intros E0; rewrite E0 in Hlen; simpl in Hlen; lia|].
  split; [exact (filename_no_slash isalnum date desc link i n Hs)|].
  split; intros E0; rewrite E0 in Hlen; simpl in Hlen; lia.
Qed.

(** The place of a name in a folder is the name, in the place of the
    folder. *)
Lemma target_in_folder d folder name :
  Spec.plain name ->
  target d (os_path_join folder name) = target d folder ++ [name].
Proof.
  intros Hp. pose proof Hp as (Hne & Hns & _).
  destruct name as [|c b]; [congruence|].
  assert (Hc : c <> 47%N) by (intros ->; apply Hns; left; reflexivity).
  rewrite (ProcessorProps.os_path_join_relative folder b c Hc).
  unfold target. destruct folder as [|a f] eqn:Ef.
  - rewrite (ProcessorProps.names_of_plain (c :: b) Hns).
    assert (Ho : origin d (c :: b) = origin d [])
      by (unfold origin; destruct c as [|p]; [reflexivity|];
          destruct (Pos.eq_dec p 47) as [->|Hn]; [congruence|];
          repeat (destruct p as [p|p|]; try reflexivity); congruence).
    rewrite Ho. simpl. rewrite (ProcessorProps.step_plain _ (c :: b) Hp).
    reflexivity.
  - rewrite <- Ef. assert (Hf : folder <> []) by (rewrite Ef; discriminate).
    destruct (last folder 0 =? 47)%N eqn:Hlast.
    + assert (Ef' : folder = removelast folder ++ [47%N]).
      { apply N.eqb_eq in Hlast. rewrite <- Hlast.
        apply app_removelast_last. exact Hf. }
      rewrite (ProcessorProps.origin_app d folder (c :: b) Hf).
      rewrite Ef' at 1 3. rewrite <- app_assoc. simpl app.
      rewrite !ProcessorProps.names_of_sep,
        (ProcessorProps.names_of_plain (c :: b) Hns), !fold_left_app.
      simpl. rewrite (ProcessorProps.step_plain _ (c :: b) Hp). reflexivity.
    + rewrite (ProcessorProps.origin_app d folder (47%N :: c :: b) Hf).
      rewrite ProcessorProps.names_of_sep,
        (ProcessorProps.names_of_plain (c :: b) Hns), fold_left_app.
      simpl. rewrite (ProcessorProps.step_plain _ (c :: b) Hp). reflexivity.
Qed.

(** X21: A download is saved in the folder of the company: the file name has no
    ["/"], whatever the date, the description and the link of the row are,
    and it ends in [.pdf]; the path of the file is the folder, one ["/"]
    exactly when the folder is not empty and does not end with one, and the
    file name; and on every disk that path leads to the file name in the
    directory the folder leads to. *)
Theorem download_stays_in_company_folder
        isalnum folder date desc link i n :
  isalnum 47%N = false ->
  let sep := match folder with
             | [] => []
             | _ :: _ => if (last folder 0 =? 47)%N then [] else [47%N]
             end in
  ~ In 47%N (filename isalnum date desc link i n) /\
  (exists stem, filename isalnum date desc link i n = stem ++ lit ".pdf") /\
  save_path isalnum folder date desc link i n
  = folder ++ sep ++ filename isalnum date desc link i n /\
  (forall d : Disk,
      target d (save_path isalnum folder date desc link i n)
      = target d folder ++ [filename isalnum date desc link i n]).
Proof.
  intros Hs sep. subst sep.
  pose proof (filename_plain isalnum date desc link i n Hs) as Hp.
  pose proof Hp as (Hne & Hn & _).
  split; [exact Hn|]. split; [apply filename_pdf|]. split.
  - unfold save_path.
    destruct (filename isalnum date desc link i n) as [|c b] eqn:E;
      [congruence|].
    assert (Hc : c <> 47%N) by (intros ->; apply Hn; left; reflexivity).
    rewrite (ProcessorProps.os_path_join_relative folder b c Hc).
    destruct folder as [|a f]; [reflexivity|].
    destruct (last (a :: f) 0 =? 47)%N; reflexivity.
  - intros d. unfold save_path. apply target_in_folder, Hp.
Qed.

(** ** The id of a document link *)

Lemma match_here_document id rest :
  id <> [] -> ~ In 47%N id ->
  match_here (lit "/filing-history/" ++ id ++ lit "/document" ++ rest) = Some id.
Proof.
  intros Hne Hn. unfold match_here. rewrite strip_prefix_app.
  change (lit "/document" ++ rest) with (47%N :: lit "document" ++ rest).
  rewrite (span_not_app 47 id (lit "document" ++ rest) Hn).
  destruct id as [|c r]; [congruence|].
  change (47%N :: lit "document" ++ rest) with (lit "/document" ++ rest).
  rewrite strip_prefix_app. reflexivity.
Qed.

(** X22: A link of Companies House gives the id of its document: for the link
    [/company/<number>/filing-history/<id>/document<rest>], where the number
    and the id have no ["/"], the id is not empty and the number is not
    [filing-history], the unique id is [<id>]. *)
Theorem unique_id_of_document_link company id rest i n :
  ~ In 47%N company -> company <> lit "filing-history" ->
  id <> [] -> ~ In 47%N id ->
  unique_id (lit "/company/" ++ company ++ lit "/filing-history/" ++ id
             ++ lit "/document" ++ rest) i n
  = id.
Proof.
  intros Hc Hne Hid Hn. unfold unique_id.
  set (Y := id ++ lit "/document" ++ rest).
  assert (Hs : re_search (lit "/company/" ++ company ++ lit "/filing-history/" ++ Y)
               = Some id).
  { change (lit "/company/" ++ company ++ lit "/filing-history/" ++ Y)
      with (47%N :: lit "company"
            ++ 47%N :: company ++ lit "/filing-history/" ++ Y).
    rewrite re_search_eq.
    assert (H0 : match_here (47%N :: lit "company"
                             ++ 47%N :: company ++ lit "/filing-history/" ++ Y)
                 = None) by reflexivity.
    rewrite H0.
    rewrite re_search_skip by (intros H; not_in_literal H).
    rewrite re_search_eq.
    assert (H1 : match_here (47%N :: company ++ lit "/filing-history/" ++ Y)
                 = None).
    { unfold match_here.
      change (lit "/filing-history/")
        with (47%N :: lit "filing-history" ++ [47%N]) at 1.
      change (lit "/filing-history/" ++ Y)
        with (47%N :: lit "filing-history/" ++ Y).
      rewrite strip_prefix_cons, N.eqb_refl.
      destruct (strip_prefix (lit "filing-history" ++ [47%N])
                  (company ++ 47%N :: lit "filing-history/" ++ Y)) as [y|] eqn:Hp;
        [|reflexivity].
      exfalso. apply Hne.
      apply (strip_prefix_sep 47 (lit "filing-history") company
               (lit "filing-history/" ++ Y) y Hc);
        [intros H; not_in_literal H | exact Hp]. }
    rewrite H1.
    rewrite re_search_skip by exact Hc.
    rewrite re_search_eq. subst Y.
    rewrite (match_here_document id rest Hid Hn). reflexivity. }
  rewrite Hs. reflexivity.
Qed.

End ScraperProps.

(* ================================================================== *)
(** * Properties of the accounts of [auth.py] *)
(* ================================================================== *)

Module AuthProps.

Import Auth.

Lemma pystr_eqb_eq a b : pystr_eqb a b = true <-> a = b.
Proof.
  unfold pystr_eqb. destruct (pystr_eq_dec a b); split; auto; discriminate.
Qed.

Lemma first_by_username_none name db :
  first_by_username name db = None <-> ~ In name (map username db).
Proof.
  unfold first_by_username. induction db as [|row r IH]; simpl; [tauto|].
  destruct (pystr_eqb (username row) name) eqn:E.
  - apply pystr_eqb_eq in E. split; [discriminate | tauto].
  - assert (username row <> name).
    { intros H. apply pystr_eqb_eq in H. congruence. }
    tauto.
Qed.

Lemma first_by_username_app name db rows :
  first_by_username name (db ++ rows)
  = match first_by_username name db with
    | Some row => Some row
    | None => first_by_username name rows
    end.
Proof.
  unfold first_by_username. induction db as [|row r IH]; simpl; [reflexivity|].
  destruct (pystr_eqb (username row) name); [reflexivity | exact IH].
Qed.

(** The three ways [register_user] ends. *)
Lemma register_user_cases L salt commit_error name password db :
  (In name (map username db) /\
   register_user L salt commit_error name password db
   = (Returns (false, lit "Username already exists"), db)) \/
  (~ In name (map username db) /\
   exists r, register_user L salt commit_error name password db = (r, db) /\
             forall msg, r <> Returns (true, msg)) \/
  (~ In name (map username db) /\ commit_error = None /\
   exists h,
     pbkdf2_hash L salt password = Returns h /\
     register_user L salt commit_error name password db
     = (Returns (true, lit "User registered successfully"),
        db ++ [mkUser (next_id db) name h])).
Proof.
  unfold register_user.
  destruct (first_by_username name db) as [row|] eqn:Hf.
  - left. split; [|reflexivity].
    destruct (in_dec pystr_eq_dec name (map username db)) as [H|H]; [exact H|].
    apply first_by_username_none in H. congruence.
  - right. apply first_by_username_none in Hf.
    destruct (pystr_eq_dec [] []) as [_|H]; [|congruence].
    destruct (pbkdf2_hash L salt password) as [h|e].
    + destruct commit_error as [e|].
      * left. split; [exact Hf|]. eexists. split; [reflexivity|].
        intros msg H. discriminate.
      * right. split; [exact Hf|]. split; [reflexivity|]. exists h. auto.
    + left. split; [exact Hf|]. eexists. split; [reflexivity|].
      intros msg H. discriminate.
Qed.

(** X23: [register_user] adds a row to the table only when it returns [True],
    and then one row, for a name that was not in the table; a name that
    is in the table is refused and its row stays as it is.  The names of the
    table stay different from one another, and what [authenticate_user]
    answers for another name is the same after the call. *)
Theorem registration_keeps_accounts L salt commit_error name password db :
  NoDup (map username db) ->
  exists r db',
    register_user L salt commit_error name password db = (r, db') /\
    NoDup (map username db') /\
    (In name (map username db) ->
     r = Returns (false, lit "Username already exists") /\ db' = db) /\
    ((forall msg, r <> Returns (true, msg)) -> db' = db) /\
    (forall msg, r = Returns (true, msg) ->
                 exists row, db' = db ++ [row] /\ username row = name /\
                             ~ In name (map username db)) /\
    (forall other password',
        other <> name ->
        authenticate_user L other password' db'
        = authenticate_user L other password' db).
Proof.
  intros Hnd.
  destruct (register_user_cases L salt commit_error name password db)
    as [(Hin & ->)|[(Hn & r & -> & Hr)|(Hn & _ & h & _ & ->)]].
  - do 2 eexists. split; [reflexivity|]. split; [exact Hnd|].
    split; [auto|]. split; [auto|]. split; [|reflexivity].
    intros msg H. discriminate.
  - do 2 eexists. split; [reflexivity|]. split; [exact Hnd|].
    split; [tauto|]. split; [auto|]. split; [|reflexivity].
    intros msg H. destruct (Hr msg H).
  - do 2 eexists. split; [reflexivity|]. split.
    { rewrite map_app. simpl. apply NoDup_app; [exact Hnd | |].
      - constructor; [intros [] | constructor].
      - intros x Hx [<-|[]]. exact (Hn Hx). }
    split; [tauto|]. split.
    { intros H. destruct (H _ eq_refl). }
    split.
    { intros msg _. eexists. split; [reflexivity|]. auto. }
    intros other password' Hne. unfold authenticate_user.
    rewrite first_by_username_app.
    destruct (first_by_username other db); [reflexivity|].
    unfold first_by_username. simpl.
    destruct (pystr_eqb name other) eqn:E; [|reflexivity].
    apply pystr_eqb_eq in E. congruence.
Qed.

(** X24: Who has registered can log in: after [register_user] returned [True]
    for a name and a password, [authenticate_user] with that name and
    password gives the token made for the name, where a password verifies
    against the hash made of it. *)
Theorem register_then_authenticate
        L salt commit_error name password db msg db' :
  verifies L ->
  register_user L salt commit_error name password db
  = (Returns (true, msg), db') ->
  authenticate_user L name password db'
  = (access_token <- create_access_token L name ;;
     Returns (Some access_token))%py.
Proof.
  intros Hv Hr.
  destruct (register_user_cases L salt commit_error name password db)
    as [(Hin & H)|[(Hn & r & H & Hne)|(Hn & _ & h & Hh & H)]];
    rewrite H in Hr.
  - discriminate.
  - injection Hr as -> _. destruct (Hne msg eq_refl).
  - injection Hr as _ <-. unfold authenticate_user.
    rewrite first_by_username_app.
    apply first_by_username_none in Hn. rewrite Hn.
    unfold first_by_username. simpl.
    assert (E : pystr_eqb name name = true) by (apply pystr_eqb_eq; reflexivity).
    rewrite E. simpl. rewrite (Hv salt password h Hh). reflexivity.
Qed.

End AuthProps.

Module ScraperAuthChecks.

Import Scraper Auth.

Lemma download_stays_in_company_folder_witness :
  save_path ascii_isalnum (lit "/app/backend/downloaded_pdfs/00445790")
            example_date example_description example_link 1 0
  = lit "/app/backend/downloaded_pdfs/00445790/14_Mar_2024_Total_exemption_full_accounts_made_up_to_MzQxNTk2NzE3.pdf".
Proof.
  destruct (ScraperProps.download_stays_in_company_folder ascii_isalnum
              (lit "/app/backend/downloaded_pdfs/00445790")
              example_date example_description example_link 1 0)
    as (_ & _ & H & _).
  - reflexivity.
  - rewrite H. vm_compute. reflexivity.
Defined.

Lemma unique_id_of_document_link_witness :
  unique_id example_link 1 0 = lit "MzQxNTk2NzE3".
Proof.
  apply (ScraperProps.unique_id_of_document_link (lit "00445790")
           (lit "MzQxNTk2NzE3") (lit "?format=pdf&download=0") 1 0).
  - vm_compute. intros H.
    repeat (destruct H as [H|H]; [discriminate H|]). destruct H.
  - vm_compute. discriminate.
  - discriminate.
  - vm_compute. intros H.
    repeat (destruct H as [H|H]; [discriminate H|]). destruct H.
Defined.

Lemma example_lib_verifies : verifies example_lib.
Proof.
  intros salt password h H. simpl in H. injection H as <-. simpl. f_equal.
  unfold pystr_eqb.
  destruct (pystr_eq_dec _ _) as [_|Hne]; [reflexivity|]. exfalso. apply Hne.
  replace (salt ++ 36%N :: password) with ((salt ++ [36%N]) ++ password)
    by (rewrite <- app_assoc; reflexivity).
  rewrite length_app, Nat.add_sub, skipn_app, skipn_all, Nat.sub_diag.
  reflexivity.
Qed.

Lemma registration_keeps_accounts_witness :
  exists r db',
    register_user example_lib (lit "salt") None (lit "ann") (lit "secret1") []
    = (r, db') /\
    NoDup (map username db').
Proof.
  destruct (AuthProps.registration_keeps_accounts example_lib (lit "salt") None
              (lit "ann") (lit "secret1") []) as (r & db' & H & Hnd & _).
  - constructor.
  - exists r, db'. split; assumption.
Defined.

Lemma register_then_authenticate_witness :
  authenticate_user example_lib (lit "ann") (lit "secret1")
    (snd (register_user example_lib (lit "salt") None (lit "ann")
                        (lit "secret1") []))
  = Returns (Some (lit "token-for-ann")).
Proof.
  apply (AuthProps.register_then_authenticate example_lib (lit "salt") None
           (lit "ann") (lit "secret1") []
           (lit "User registered successfully")).
  - exact example_lib_verifies.
  - reflexivity.
Defined.

End ScraperAuthChecks.

